(** * AIStore: global rebalance, stream collector and EC helpers

    A shallow embedding of the parts of the aistore sources that the
    specification talks about:

    - [cmn]       : durations (int64 nanoseconds) and byte-size constants;
    - [ec]        : [useDisk] (src/ec/ec.go);
    - [reb]       : [globalRebWaitAck] deadline, [waitQuiesce], [globalJogger.send]
                    (src/reb/global.go), [checkGlobStatus], [nodesNotInStage],
                    [waitForPushReqs] (package reb, cluster-wide synchronization),
                    and the EC slice-waiter registry;
    - [transport] : the stream collector (src/transport/collect.go) on top of
                    Go's container/heap.

    Go's [int], [int64] and [time.Duration] are modelled as [Z] with the
    wrap-around written out; maps are [gmap]s; waiting loops read what the
    other goroutines and the other targets did from an explicit trace. *)

From Stdlib Require Import ZArith Lia List Bool.
From stdpp Require Import gmap strings list fin_maps.

Local Open Scope Z_scope.

(* ===================================================================== *)
(** ** Package cmn                                                        *)
(* ===================================================================== *)

Module Cmn.

Definition int64_min : Z := - 2 ^ 63.
Definition int64_max : Z := 2 ^ 63 - 1.

(** The value an int64 holds after an operation whose exact result is [x]. *)
Definition wrap64 (x : Z) : Z := (x + 2 ^ 63) mod 2 ^ 64 - 2 ^ 63.

Definition add64 (a b : Z) : Z := wrap64 (a + b).
Definition mul64 (a b : Z) : Z := wrap64 (a * b).

(** [x] is representable as an int64 (hence as a [time.Duration]). *)
Definition in_int64 (x : Z) : Prop := int64_min <= x <= int64_max.

(** time.Duration counts nanoseconds. *)
Definition Nanosecond : Z := 1.
Definition Second : Z := 1000000000.
Definition Minute : Z := 60 * Second.

(** Modelled from the spec: [cmn.MinDur] is not under src/; the spec calls
    its use in the wait-ack stage a clamp ("clamped <= 2x DestRetryTime"),
    that is the smaller of two durations. *)
Definition MinDur (a b : Z) : Z := if a <? b then a else b.

(** Modelled from the spec: the constant [cmn.MiB] is not under src/; the
    spec gives the EC threshold as "50 MiB", a mebibyte being 2^20 bytes. *)
Definition MiB : Z := 1024 * 1024.

Record RebalanceConf := mkRebalanceConf {
  DestRetryTime : Z;   (* time.Duration *)
  Quiesce       : Z;   (* time.Duration *)
  Multiplier    : Z;
}.

Record TimeoutConf := mkTimeoutConf {
  CplaneOperation : Z; (* time.Duration *)
  MaxKeepalive    : Z; (* time.Duration *)
}.

Record Config := mkConfig {
  Rebalance : RebalanceConf;
  Timeout   : TimeoutConf;
}.

End Cmn.

(* ===================================================================== *)
(** ** Outcomes of Go code                                                *)
(* ===================================================================== *)

(** A call returns a value, panics (failed assertion, index out of range,
    division by zero), or is still waiting when the recorded observations
    of its environment run out. *)
Inductive Res (A : Type) : Type :=
| Ret (a : A)
| Panic
| Pending.
Arguments Ret {A} a.
Arguments Panic {A}.
Arguments Pending {A}.

Definition bindR {A B} (k : A -> Res B) (r : Res A) : Res B :=
  match r with
  | Ret a => k a
  | Panic => Panic
  | Pending => Pending
  end.

#[global] Instance Res_ret : MRet Res := @Ret.
#[global] Instance Res_bind : MBind Res := @bindR.

(* ===================================================================== *)
(** ** Package memsys (interface only)                                    *)
(* ===================================================================== *)

Module Memsys.

(** Modelled from the spec: package memsys is not under src/. The spec
    gives the memory-pressure signal as one of Normal, High, Extreme, OOM,
    in increasing order; ec.go names the last three
    [memsys.MemPressureHigh], [memsys.MemPressureExtreme], [memsys.OOM]. *)
Inductive MemPressure : Set :=
| MemPressureNormal
| MemPressureHigh
| MemPressureExtreme
| OOM.

Definition level (p : MemPressure) : nat :=
  match p with
  | MemPressureNormal => 0
  | MemPressureHigh => 1
  | MemPressureExtreme => 2
  | OOM => 3
  end.

(** "pressure >= High" *)
Definition atLeastHigh (p : MemPressure) : bool :=
  Nat.leb (level MemPressureHigh) (level p).

End Memsys.

(* ===================================================================== *)
(** ** Package ec                                                         *)
(* ===================================================================== *)

Module Ec.
Import Memsys.

(** EC switches to disk from SGL when memory pressure is high and the
    amount of memory required to encode an object exceeds the limit. *)
Definition objSizeHighMem : Z := 50 * Cmn.MiB.

(** [useDisk]: [mm.MemPressure()] is read from the memory manager; it is
    the first argument here. *)
Definition useDisk (pressure : MemPressure) (objSize : Z) : bool :=
  match pressure with
  | OOM | MemPressureExtreme => true
  | MemPressureHigh => objSize >? objSizeHighMem
  | _ => false
  end.

(** The rule in the words of the specification: spill when pressure is at
    least High and the working size is at least 50 MiB. *)
Definition useDisk_spec (pressure : MemPressure) (objSize : Z) : bool :=
  atLeastHigh pressure && (50 * Cmn.MiB <=? objSize).


(** *** Slice sizes *)

(** Go's int64 division: truncated, wrapping for [minint / -1]; the
    caller checks for a zero divisor (which panics). *)
Definition quot64 (a b : Z) : Z := Cmn.wrap64 (Z.quot a b).

(** [SliceSize] returns the size of one slice that EC will create for
    the object; dividing by zero slices panics. *)
Definition SliceSize (fileSize slices : Z) : Res Z :=
  if slices =? 0 then Panic
  else Ret (quot64 (Cmn.add64 (Cmn.add64 fileSize slices) (-1)) slices).

(** [IsECCopy]: [limit] is [ecConf.ObjSizeLimit]. *)
Definition IsECCopy (size limit : Z) : bool := size <? limit.

(** *** Slices kept until they are sent *)

(** What a [slice] holds in [obj]: an SGL or a file handle (either may be
    a nil pointer inside the interface), or something else. *)
Inductive sliceObj :=
| ObjSGL (sgl : option nat)
| ObjFile (f : option nat)
| ObjOther.

(** The fields of [slice] that [free] and [release] use. *)
Record slice := mkSlice {
  sl_obj     : option sliceObj;   (* nil interface = None *)
  sl_reader  : option nat;
  sl_refCnt  : Z;                 (* atomic.Int32 *)
  sl_workFQN : string;
}.

(** What freeing does to the outside. *)
Inductive FreeEvent :=
| EvSGLFree (sgl : nat)
| EvFileClose (f : nat)
| EvReaderClose (r : nat)
| EvRemoveAll (fqn : string).

Definition wrap32 (x : Z) : Z := (x + 2 ^ 31) mod 2 ^ 32 - 2 ^ 31.

(** [freeObject]: frees an SGL, closes a file handle, does nothing for
    nil, and fails its assertion for any other type. *)
Definition freeObject (r : option sliceObj) : Res (list FreeEvent) :=
  match r with
  | None => Ret []
  | Some (ObjSGL (Some sgl)) => Ret [EvSGLFree sgl]
  | Some (ObjSGL None) => Ret []
  | Some (ObjFile (Some f)) => Ret [EvFileClose f]
  | Some (ObjFile None) => Ret []
  | Some ObjOther => Panic
  end.

(** [(s *slice) free]: frees all allocated memory and removes the
    slice's temporary file. *)
Definition slice_free (s : slice) : Res (slice * list FreeEvent) :=
  ev ← freeObject (sl_obj s);
  let s := mkSlice None (sl_reader s) (sl_refCnt s) (sl_workFQN s) in
  let ev := ev ++ match sl_reader s with Some r => [EvReaderClose r] | None => [] end in
  let ev := ev ++ (if String.eqb (sl_workFQN s) "" then [] else [EvRemoveAll (sl_workFQN s)]) in
  Ret (s, ev).

(** [(s *slice) release]: decreases the number of links to the object;
    when it drops below one the memory or temporary file is cleaned up. *)
Definition slice_release (s : slice) : Res (slice * list FreeEvent) :=
  if bool_decide (sl_obj s <> None) || negb (String.eqb (sl_workFQN s) "") then
    let refCnt := wrap32 (sl_refCnt s - 1) in
    let s := mkSlice (sl_obj s) (sl_reader s) refCnt (sl_workFQN s) in
    if refCnt <? 1 then slice_free s else Ret (s, [])
  else Ret (s, []).

(** [release] called [n] times in a row, with the events of all calls. *)
Fixpoint release_times (n : nat) (s : slice) : Res (slice * list FreeEvent) :=
  match n with
  | O => Ret (s, [])
  | S n' =>
      '(s1, ev1) ← slice_release s;
      '(s2, ev2) ← release_times n' s1;
      Ret (s2, ev1 ++ ev2)
  end.

(** [freeSlices]: removes all temporary slices; nil entries are skipped. *)
Fixpoint freeSlices (slices : list (option slice)) : Res (list (option slice) * list FreeEvent) :=
  match slices with
  | [] => Ret ([], [])
  | None :: rest =>
      '(rest', ev) ← freeSlices rest; Ret (None :: rest', ev)
  | Some s :: rest =>
      '(s', ev1) ← slice_free s;
      '(rest', ev2) ← freeSlices rest;
      Ret (Some s' :: rest', ev1 ++ ev2)
  end.
End Ec.

(* ===================================================================== *)
(** ** Package cluster (interface only)                                   *)
(* ===================================================================== *)

Module Cluster.

(** A node of the cluster map; only the daemon ID is read by the code
    modelled here. *)
Record Snode := mkSnode { DaemonID : string }.

(** [Smap]: versioned membership; [Tmap] maps daemon IDs to targets. *)
Record Smap := mkSmap {
  Version : Z;
  Tmap    : gmap string Snode;
}.

Definition CountTargets (smap : Smap) : Z := Z.of_nat (size (Tmap smap)).

(** The part of a LOM that the rebalance send path reads. *)
Record LOM := mkLOM {
  Uname   : string;
  Objname : string;
  HkeyIdx : nat;      (* second result of lom.Hkey(): the ack shard *)
  Size    : Z;
}.

End Cluster.

(* ===================================================================== *)
(** ** Package reb                                                        *)
(* ===================================================================== *)

Module Reb.
Import Cmn Cluster.

(** *** Stages *)

(** Modelled from the spec: the stage enumeration is not under src/. The
    spec lists the stages in this order (inactive first); the code
    compares them as uint32. *)
Definition rebStageInactive     : N := 0.
Definition rebStageInit         : N := 1.
Definition rebStageTraverse     : N := 2.
Definition rebStageECNamespace  : N := 3.
Definition rebStageECDetect     : N := 4.
Definition rebStageECGlobRepair : N := 5.
Definition rebStageECBatch      : N := 6.
Definition rebStageECCleanup    : N := 7.
Definition rebStageWaitAck      : N := 8.
Definition rebStageFin          : N := 9.
Definition rebStageDone         : N := 10.

(** *** Status (the fields read by the callers modelled here) *)

Record Status := mkStatus {
  StTmap      : list string;  (* IDs of the targets the peer waits ACKs from *)
  SmapVersion : Z;
  RebVersion  : Z;
  GlobRebID   : Z;
  Stage       : N;
  Aborted     : bool;
  Running     : bool;
  Quiescent   : bool;
}.

(** *** Manager *)

Record Manager := mkManager {
  globRebID    : Z;                        (* reb.globRebID *)
  xreb_aborted : bool;                     (* reb.xreb.Aborted() *)
  abort_pushes : nat;                      (* abort broadcasts sent to the other targets *)
  laterx       : bool;                     (* reb.laterx *)
  inQueue      : Z;                        (* reb.inQueue *)
  lomAcks      : list (gmap string LOM);   (* reb.lomAcks(): one map per shard *)
}.

Definition set_aborted (b : bool) (m : Manager) : Manager :=
  mkManager (globRebID m) b (abort_pushes m) (laterx m) (inQueue m) (lomAcks m).
Definition set_abort_pushes (n : nat) (m : Manager) : Manager :=
  mkManager (globRebID m) (xreb_aborted m) n (laterx m) (inQueue m) (lomAcks m).
Definition set_laterx (b : bool) (m : Manager) : Manager :=
  mkManager (globRebID m) (xreb_aborted m) (abort_pushes m) b (inQueue m) (lomAcks m).
Definition set_inQueue (q : Z) (m : Manager) : Manager :=
  mkManager (globRebID m) (xreb_aborted m) (abort_pushes m) (laterx m) q (lomAcks m).
Definition set_lomAcks (a : list (gmap string LOM)) (m : Manager) : Manager :=
  mkManager (globRebID m) (xreb_aborted m) (abort_pushes m) (laterx m) (inQueue m) a.

(** [reb.xreb.Abort()]: local abort only. *)
Definition xreb_Abort (m : Manager) : Manager := set_aborted true m.

(** Modelled from the spec: [abortGlobal] is not under src/. The spec
    (concurrency model, cancellation) says that an external abort
    "triggers a broadcast-abort unless the other side already aborted with
    the same ID (in which case a local-only abort suffices)", and
    [checkGlobStatus] itself says of the local-only case "do not use
    abortGlobal - no need to broadcast": [abortGlobal] aborts the local
    xaction and pushes the abort to the other targets. *)
Definition abortGlobal (m : Manager) : Manager :=
  set_abort_pushes (S (abort_pushes m)) (xreb_Abort m).

(** [reb.xreb.AbortedAfter(d)]: sleeps [d] unless aborted meanwhile;
    [ext] tells whether some other goroutine aborts the xaction before
    the sleep is over. *)
Definition AbortedAfter (ext : bool) (m : Manager) : Manager * bool :=
  let ab := xreb_aborted m || ext in (set_aborted ab m, ab).

(** [reb.laterx.CAS(old, new)] *)
Definition laterx_CAS (old new : bool) (m : Manager) : Manager * bool :=
  if Bool.eqb (laterx m) old then (set_laterx new m, true) else (m, false).

(** *** checkGlobStatus *)

(** What [reb.t.Health(tsi, true, timeout)] gives: an error, or a body
    together with what [jsoniter.Unmarshal] makes of it (the decoded
    status and whether decoding failed). *)
Inductive HealthReply :=
| HealthErr
| HealthBody (st : Status) (unmarshalErr : bool).

(** calls tsi.reb.GetGlobStatus() and handles conditions; may abort the
    current xreb; returns OK if the desiredStage has been reached.
    [r1] is the reply to the first call, [ext] whether the xaction gets
    aborted during the retry sleep, [r2] the reply to the retry. *)
Definition checkGlobStatus (m : Manager) (ver : Z) (desiredStage : N)
    (r1 : HealthReply) (ext : bool) (r2 : HealthReply)
  : Manager * option Status * bool :=
  let '(m, r, abrt) :=
    match r1 with
    | HealthErr =>
        let '(m', ab) := AbortedAfter ext m in
        if ab then (m', r1, true) else (m', r2, false)   (* retry once *)
    | HealthBody _ _ => (m, r1, false)
    end in
  if abrt then (m, None, false) else
  match r with
  | HealthErr => (abortGlobal m, None, false)
  | HealthBody status uerr =>
      if uerr then (abortGlobal m, Some status, false) else
      (* enforce Smap consistency across this xreb *)
      let tver := SmapVersion status in
      let rver := RebVersion status in
      if (tver >? ver) || (rver >? ver) then (abortGlobal m, Some status, false)
      (* enforce same global transaction ID *)
      else if GlobRebID status >? globRebID m then (abortGlobal m, Some status, false)
      (* let the target to catch-up *)
      else if (tver <? ver) || (rver <? ver) then (m, Some status, false)
      else if GlobRebID status <? globRebID m then (m, Some status, false)
      (* remote target has aborted its running rebalance with the same ID *)
      else if (GlobRebID status =? globRebID m) && Aborted status
      then (xreb_Abort m, Some status, false)
      else if (desiredStage <=? Stage status)%N then (m, Some status, true)
      else (m, Some status, false)
  end.

(** The peer's report is newer than the local run. *)
Definition newerEpoch (m : Manager) (ver : Z) (st : Status) : Prop :=
  SmapVersion st > ver \/ RebVersion st > ver \/ GlobRebID st > globRebID m.

(** *** globalRebWaitAck: the polling deadline *)

(** [maxwt] as computed at the top of [globalRebWaitAck]; [targets] is
    [md.smap.CountTargets()]. *)
Definition globalRebWaitAck_maxwt (config : Config) (targets : Z) : Z :=
  let maxwt := DestRetryTime (Rebalance config) in
  let maxwt := add64 maxwt (mul64 Minute (Z.quot targets 10)) in
  MinDur maxwt (mul64 (DestRetryTime (Rebalance config)) 2).

(** *** waitQuiesce *)

(** What the rest of the process does around one pass of the loop. *)
Record QuiesceTick := mkQuiesceTick {
  tick_rx    : bool;  (* laterx was stored true since the previous CAS *)
  tick_cb    : bool;  (* what cb(md) returns on this pass *)
  tick_abort : bool;  (* the xaction is aborted before the sleep ends *)
}.

(** The local variables of the loop, with two counters kept for the
    proofs: the passes made and whether the loop was left through cb. *)
Record QuiesceLoop := mkQuiesceLoop {
  ql_mgr       : Manager;
  ql_quiescent : Z;
  ql_aborted   : bool;
  ql_passes    : nat;
  ql_broke     : bool;
}.

Fixpoint waitQuiesce_loop (maxQuiet : Z) (has_cb : bool) (trace : list QuiesceTick)
    (st : QuiesceLoop) : Res QuiesceLoop :=
  if (ql_quiescent st <? maxQuiet) && negb (ql_aborted st) then
    match trace with
    | [] => Pending
    | t :: trace' =>
        let m := if tick_rx t then set_laterx true (ql_mgr st) else ql_mgr st in
        let '(m, swapped) := laterx_CAS true false m in
        let quiescent := if negb swapped then add64 (ql_quiescent st) 1 else 0 in
        if has_cb && tick_cb t then
          Ret (mkQuiesceLoop m quiescent (ql_aborted st) (S (ql_passes st)) true)
        else
          let '(m, aborted) := AbortedAfter (tick_abort t) m in
          waitQuiesce_loop maxQuiet has_cb trace'
            (mkQuiesceLoop m quiescent aborted (S (ql_passes st)) false)
    end
  else Ret st.

Definition maxQuiet_of (config : Config) (maxWait : Z) : Z :=
  add64 (Z.quot maxWait (CplaneOperation (Timeout config))) 1.

Definition waitQuiesce_run (config : Config) (maxWait : Z) (has_cb : bool)
    (trace : list QuiesceTick) (m : Manager) : Res QuiesceLoop :=
  if negb (maxWait >? 0) then Panic                        (* cmn.Assert *)
  else
    let sleep := CplaneOperation (Timeout config) in
    if sleep =? 0 then Panic                               (* division by zero *)
    else
      waitQuiesce_loop (maxQuiet_of config maxWait) has_cb trace
        (mkQuiesceLoop m 0 (xreb_aborted m) 0 false).

(** [waitQuiesce(md, maxWait, cb)]: [has_cb] is [cb != nil]. *)
Definition waitQuiesce (config : Config) (maxWait : Z) (has_cb : bool)
    (trace : list QuiesceTick) (m : Manager) : Res (Manager * bool) :=
  st ← waitQuiesce_run config maxWait has_cb trace m;
  Ret (ql_mgr st, ql_aborted st).

(** Whether inbound activity was recorded before the CAS of pass [k]
    (counted from 0): the flag left over at entry counts for pass 0. *)
Definition activity (m0 : Manager) (trace : list QuiesceTick) (k : nat) : bool :=
  match k with
  | O => laterx m0 || match trace !! O with Some t => tick_rx t | None => false end
  | S _ => match trace !! k with Some t => tick_rx t | None => false end
  end.

(** *** nodesNotInStage, waitForPushReqs *)

(** What the stage registry and the EC node data hold at one poll, and
    whether the xaction is aborted by then. [isInStageBatchUnlocked] and
    [ec.nodeData] are not under src/: their answers are read from here. *)
Record PushObs := mkPushObs {
  obs_aborted  : bool;                 (* reb.xreb.Aborted() *)
  obs_inStage  : string -> N -> bool;  (* stages.isInStageBatchUnlocked(si, stage, 0) *)
  obs_nodeData : string -> bool;       (* _, exists := ec.nodeData(si.ID()) *)
}.

Definition nodesNotInStage_body (self : string) (stage : N) (o : PushObs)
    (count : Z) (si : Snode) : Z :=
  if String.eqb (DaemonID si) self then count
  else if negb (obs_inStage o (DaemonID si) stage) then count + 1
  else if (stage =? rebStageECDetect)%N && negb (obs_nodeData o (DaemonID si))
       then count + 1
  else count.

(** returns the number of targets that have not reached [stage] yet;
    [self] is [reb.t.Snode().ID()]. *)
Definition nodesNotInStage (self : string) (smap : Smap) (stage : N) (o : PushObs) : Z :=
  fold_left (nodesNotInStage_body self stage o) (map_to_list (Tmap smap)).*2 0.

Definition defaultWaitTime : Z := Minute.

(** The loop of [waitForPushReqs]; the second component of the result
    counts the polls made (kept for the proofs). *)
Fixpoint waitForPushReqs_loop (self : string) (smap : Smap) (stage : N)
    (maxMissing sleep maxWait : Z) (trace : list PushObs) (curWait : Z) (polls : nat)
  : Res (bool * nat) :=
  if curWait <? maxWait then
    match trace with
    | [] => Pending
    | o :: trace' =>
        if obs_aborted o then Ret (true, S polls)
        else
          let cnt := nodesNotInStage self smap stage o in
          if (cnt <? maxMissing) || (stage <=? rebStageECNamespace)%N
          then Ret (cnt =? 0, S polls)
          else waitForPushReqs_loop self smap stage maxMissing sleep maxWait trace'
                 (add64 curWait sleep) (S polls)
    end
  else Ret (false, polls).

(** [waitForPushReqs(md, stage, timeout...)]: [timeout] is [None] when the
    variadic argument is omitted. *)
Definition waitForPushReqs_run (self : string) (config : Config) (smap : Smap)
    (stage : N) (timeout : option Z) (trace : list PushObs) : Res (bool * nat) :=
  let maxMissing := Z.quot (Z.of_nat (size (Tmap smap))) 2 in
  let sleep := mul64 (CplaneOperation (Timeout config)) 2 in
  let maxWait := match timeout with Some t => t | None => defaultWaitTime end in
  waitForPushReqs_loop self smap stage maxMissing sleep maxWait trace 0 0.

Definition waitForPushReqs (self : string) (config : Config) (smap : Smap)
    (stage : N) (timeout : option Z) (trace : list PushObs) : Res bool :=
  r ← waitForPushReqs_run self config smap stage timeout trace;
  Ret r.1.

(** The number of peers (targets other than this one). *)
Definition peers (self : string) (smap : Smap) : Z :=
  Z.of_nat (size (delete self (Tmap smap))).

(** The quorum in the words of the specification: ceil(|peers|/2) + 1. *)
Definition pushQuorum_spec (self : string) (smap : Smap) : Z :=
  (peers self smap + 1) / 2 + 1.

(** *** globalJogger.send *)

(** The state [send] works on: the manager, the shared locks held on
    LOMs (by uname), and the number of opaque ack buffers taken from
    the small-object allocator and not freed yet. *)
Record JogState := mkJogState {
  js_mgr    : Manager;
  js_rlocks : gmap string Z;
  js_opaque : Z;
}.

Definition with_mgr (f : Manager -> Manager) (s : JogState) : JogState :=
  mkJogState (f (js_mgr s)) (js_rlocks s) (js_opaque s).

Definition lom_Lock (lom : LOM) (s : JogState) : JogState :=
  mkJogState (js_mgr s)
    (<[Uname lom := default 0 (js_rlocks s !! Uname lom) + 1]> (js_rlocks s))
    (js_opaque s).
Definition lom_Unlock (lom : LOM) (s : JogState) : JogState :=
  mkJogState (js_mgr s)
    (<[Uname lom := default 0 (js_rlocks s !! Uname lom) - 1]> (js_rlocks s))
    (js_opaque s).
Definition mm_Alloc (s : JogState) : JogState :=
  mkJogState (js_mgr s) (js_rlocks s) (js_opaque s + 1).
Definition mm_Free (s : JogState) : JogState :=
  mkJogState (js_mgr s) (js_rlocks s) (js_opaque s - 1).

(** What the calls made by [send] answer: the errors of [lom.Load],
    [lom.CksumComputeIfMissing], [cmn.NewFileHandle] and
    [streams.Send], and [lom.IsCopy()]. *)
Record SendEnv := mkSendEnv {
  env_load   : option string;
  env_isCopy : bool;
  env_cksum  : option string;
  env_open   : option string;
  env_send   : option string;
}.

(** [lomAck.q[lom.Uname()] = lom] on shard [idx]; indexing the shard
    array out of range panics. *)
Definition ack_insert (lom : LOM) (m : Manager) : Res Manager :=
  match lomAcks m !! HkeyIdx lom with
  | None => Panic
  | Some q => Ret (set_lomAcks (<[HkeyIdx lom := <[Uname lom := lom]> q]> (lomAcks m)) m)
  end.

(** [delete(lomAck.q, lom.Uname())] on the shard taken before. *)
Definition ack_delete (lom : LOM) (m : Manager) : Manager :=
  match lomAcks m !! HkeyIdx lom with
  | None => m
  | Some q => set_lomAcks (<[HkeyIdx lom := delete (Uname lom) q]> (lomAcks m)) m
  end.

(** The deferred function of [send]: unlock unless [err == nil]. *)
Definition send_deferred (lom : LOM) (r : JogState * option string)
  : JogState * option string :=
  match r.2 with
  | None => r
  | Some _ => (lom_Unlock lom r.1, r.2)
  end.

Definition send_body (env : SendEnv) (lom : LOM) (addAck : bool) (s : JogState)
  : Res (JogState * option string) :=
  match env_load env with
  | Some e => Ret (s, Some e)
  | None =>
  if env_isCopy env then Ret (lom_Unlock lom s, None) else
  match env_cksum env with
  | Some e => Ret (s, Some e)
  | None =>
  match env_open env with
  | Some e => Ret (s, Some e)
  | None =>
    (* cache it as pending-acknowledgement *)
    m ← (if addAck then ack_insert lom (js_mgr s) else Ret (js_mgr s));
    let s := with_mgr (fun _ => m) s in
    (* transmit *)
    let s := mm_Alloc s in                                        (* ack.NewPack(mm) *)
    let s := with_mgr (fun m => set_inQueue (add64 (inQueue m) 1) m) s in
    match env_send env with
    | Some e =>
        let s := with_mgr (fun m => set_inQueue (add64 (inQueue m) (-1)) m) s in
        let s := if addAck then with_mgr (ack_delete lom) s else s in
        let s := mm_Free s in
        Ret (s, Some e)
    | None =>
        Ret (with_mgr (set_laterx true) s, None)
    end
  end end end.

(** [(rj *globalJogger) send(lom, tsi, addAck)] *)
Definition send (env : SendEnv) (lom : LOM) (addAck : bool) (s : JogState)
  : Res (JogState * option string) :=
  r ← send_body env lom addAck (lom_Lock lom s);
  Ret (send_deferred lom r).

(** *** EC slice-waiter registry *)

(** Modelled from the spec: the waiter registry ([newWaiter],
    [lookupCreate]) is not under src/; only its ginkgo test is. The spec
    describes a map from object UID to a slice-waiter record holding one
    waiter per slot, with a counter of outstanding waiters;
    [lookupCreate(uid, slot, mode)] returns the waiter of (uid, slot),
    creating it (and counting it) when there is none. A waiter handle is
    a pointer, modelled as the address it was allocated at. *)
Record waitCT := mkWaitCT {
  sliceID : Z;        (* int16 slot *)
  recv    : bool;     (* the slice has arrived *)
}.

Record waitObject := mkWaitObject {
  wo_mode : nat;                (* the wait mode given at creation *)
  wo_cts  : list (Z * nat);     (* slot and handle, in creation order *)
}.

Record ctWaiter := mkCtWaiter {
  wt_objs    : gmap string waitObject;
  wt_waitFor : Z;                       (* outstanding waiters *)
  wt_heap    : gmap nat waitCT;         (* allocated waiters by address *)
  wt_next    : nat;                     (* next free address *)
}.

Definition newWaiter : ctWaiter := mkCtWaiter ∅ 0 ∅ 0.

Definition waitForSingleSlice : nat := 0.

Definition find_slot (slot : Z) (cts : list (Z * nat)) : option nat :=
  snd <$> List.find (fun c => fst c =? slot) cts.

Definition lookupCreate (uid : string) (slot : Z) (mode : nat) (wt : ctWaiter)
  : nat * ctWaiter :=
  let fresh := wt_next wt in
  let alloc := <[fresh := mkWaitCT slot false]> (wt_heap wt) in
  match wt_objs wt !! uid with
  | None =>
      (fresh,
       mkCtWaiter (<[uid := mkWaitObject mode [(slot, fresh)]]> (wt_objs wt))
         (add64 (wt_waitFor wt) 1) alloc (S fresh))
  | Some wo =>
      match find_slot slot (wo_cts wo) with
      | Some h => (h, wt)
      | None =>
          (fresh,
           mkCtWaiter
             (<[uid := mkWaitObject (wo_mode wo) (wo_cts wo ++ [(slot, fresh)])]> (wt_objs wt))
             (add64 (wt_waitFor wt) 1) alloc (S fresh))
      end
  end.


(** *** bcast *)

Definition quot64 (a b : Z) : Z := wrap64 (Z.quot a b).

(** [bcast(md, cb)]: the callback runs for every target but this one and
    the failures are counted; [cb] gives the callback's answer for each
    target. The counter is an [atomic.Int32]. *)
Definition wrap32 (x : Z) : Z := (x + 2 ^ 31) mod 2 ^ 32 - 2 ^ 31.

Definition bcast_body (self : string) (cb : Snode -> bool) (cnt : Z) (tsi : Snode) : Z :=
  if String.eqb (DaemonID tsi) self then cnt
  else if negb (cb tsi) then wrap32 (cnt + 1)
  else cnt.

Definition bcast (self : string) (smap : Smap) (cb : Snode -> bool) : Z :=
  fold_left (bcast_body self cb) (map_to_list (Tmap smap)).*2 0.

(** *** pingTarget *)

(** One attempt: whether [Health] answered without error, and the Smap
    version the target holds after the sleep that follows a failure. *)
Record PingTry := mkPingTry {
  ping_ok   : bool;
  ping_nver : Z;
}.

(** The loop of [pingTarget] with [n] attempts left; the second
    component counts the health calls made. *)
Fixpoint pingTarget_loop (ver : Z) (n : nat) (trace : list PingTry) (calls : nat)
  : Res (bool * nat) :=
  match n with
  | O => Ret (false, calls)                      (* timed out *)
  | S n' =>
      match trace with
      | [] => Pending
      | t :: trace' =>
          if ping_ok t then Ret (true, S calls)
          else if ping_nver t >? ver then Ret (false, S calls)
          else pingTarget_loop ver n' trace' (S calls)
      end
  end.

(** [pingTarget(tsi, md)]: [ver] is [md.smap.Version]. *)
Definition pingTarget (ver : Z) (trace : list PingTry) : Res (bool * nat) :=
  pingTarget_loop ver 3 trace 0.

(** *** waitStage *)

(** What one pass of a stage-waiting loop observes: whether the stage
    registry already has the peer in the stage (push notification), the
    replies and retry abort for [checkGlobStatus], and whether the
    xaction is aborted during the sleep. *)
Record StagePoll := mkStagePoll {
  sp_inStage : bool;
  sp_r1      : HealthReply;
  sp_ext     : bool;
  sp_r2      : HealthReply;
  sp_abort   : bool;
}.

(** The loop of the stage-waiting functions; the last component of the
    result counts the passes made. *)
Fixpoint waitStage_loop (ver : Z) (stage : N) (sleep maxwt : Z)
    (trace : list StagePoll) (curwt : Z) (m : Manager) (passes : nat)
  : Res (Manager * bool * nat) :=
  if curwt <? maxwt then
    match trace with
    | [] => Pending
    | t :: trace' =>
        if sp_inStage t then Ret (m, true, S passes)
        else
          let '(m, status, ok) :=
            checkGlobStatus m ver stage (sp_r1 t) (sp_ext t) (sp_r2 t) in
          if ok && match status with
                   | Some st => (stage <=? Stage st)%N
                   | None => false
                   end
          then Ret (m, true, S passes)
          else
            let '(m, ab) := if xreb_aborted m then (m, true)
                            else AbortedAfter (sp_abort t) m in
            if ab then Ret (m, false, S passes)
            else waitStage_loop ver stage sleep maxwt trace' (add64 curwt sleep) m
                   (S passes)
    end
  else Ret (m, false, passes).

Definition waitStage_sleep (config : Config) : Z :=
  mul64 (CplaneOperation (Timeout config)) 2.
Definition waitStage_maxwt (config : Config) : Z :=
  add64 (DestRetryTime (Rebalance config))
        (quot64 (DestRetryTime (Rebalance config)) 2).

Definition waitStage_run (config : Config) (ver : Z) (stage : N)
    (trace : list StagePoll) (m : Manager) : Res (Manager * bool * nat) :=
  waitStage_loop ver stage (waitStage_sleep config) (waitStage_maxwt config) trace 0 m 0.

(** [waitStage(si, md, stage)]: [ver] is [md.smap.Version]. *)
Definition waitStage (config : Config) (ver : Z) (stage : N)
    (trace : list StagePoll) (m : Manager) : Res (Manager * bool) :=
  r ← waitStage_run config ver stage trace m;
  Ret r.1.

Definition waitNamespace (config : Config) (ver : Z) :=
  waitStage config ver rebStageECNamespace.
Definition waitECLocalReb (config : Config) (ver : Z) :=
  waitStage config ver rebStageECGlobRepair.
Definition waitECCleanup (config : Config) (ver : Z) :=
  waitStage config ver rebStageECCleanup.

(** *** nodesQuiescent *)

(** The loop of [nodesQuiescent] over the targets in the order the map
    is ranged; [localQ] is [reb.isQuiescent()] and [poll] gives what the
    status poll of each target meets. *)
Fixpoint nodesQuiescent_loop (self : string) (localQ : bool) (ver : Z) (locStage : N)
    (poll : string -> HealthReply * bool * HealthReply)
    (nodes : list Snode) (m : Manager) : Manager * bool :=
  match nodes with
  | [] => (m, true)
  | si :: rest =>
      if String.eqb (DaemonID si) self && negb localQ then (m, false)
      else
        let '(r1, ext, r2) := poll (DaemonID si) in
        let '(m, status, ok) := checkGlobStatus m ver locStage r1 ext r2 in
        if negb ok || negb match status with
                           | Some st => Quiescent st
                           | None => false
                           end
        then (m, false)
        else nodesQuiescent_loop self localQ ver locStage poll rest m
  end.

Definition nodesQuiescent (self : string) (localQ : bool) (smap : Smap) (locStage : N)
    (poll : string -> HealthReply * bool * HealthReply) (m : Manager) : Manager * bool :=
  nodesQuiescent_loop self localQ (Version smap) locStage poll
    (map_to_list (Tmap smap)).*2 m.

(** *** waitEvent *)

Record EventTick := mkEventTick {
  et_cb    : bool;   (* what cb(md) returns on this pass *)
  et_abort : bool;   (* the xaction is aborted before the sleep ends *)
}.

(** The loop of [waitEvent]; the last component counts the passes. *)
Fixpoint waitEvent_loop (sleep toWait : Z) (trace : list EventTick)
    (waited : Z) (aborted : bool) (m : Manager) (passes : nat)
  : Res (Manager * bool * nat) :=
  if negb aborted then
    match trace with
    | [] => Pending
    | t :: trace' =>
        if et_cb t then Ret (m, aborted, S passes)
        else
          let '(m, aborted) := AbortedAfter (et_abort t) m in
          let waited := add64 waited sleep in
          if (toWait >? 0) && (waited >? toWait) then Ret (m, aborted, S passes)
          else waitEvent_loop sleep toWait trace' waited aborted m (S passes)
    end
  else Ret (m, aborted, passes).

(** [waitEvent(md, cb, maxWait...)]: [maxWait] is [None] when omitted. *)
Definition waitEvent (config : Config) (maxWait : option Z)
    (trace : list EventTick) (m : Manager) : Res (Manager * bool * nat) :=
  let sleep := CplaneOperation (Timeout config) in
  let toWait := match maxWait with Some w => w | None => 0 end in
  waitEvent_loop sleep toWait trace 0 (xreb_aborted m) m 0.

(** *** objSentCallback *)

(** The rebalance counters of the stats runner. *)
Record RebStats := mkRebStats {
  TxRebCount : Z;
  TxRebSize  : Z;
}.

(** [(rj *globalJogger) objSentCallback(hdr, r, lomptr, err)]:
    [hdrSize] is [hdr.ObjAttrs.Size]. *)
Definition objSentCallback (hdrSize : Z) (lom : LOM) (err : option string)
    (s : JogState) (st : RebStats) : Res (JogState * RebStats) :=
  let s := with_mgr (fun m => set_inQueue (add64 (inQueue m) (-1)) m) s in
  let s := lom_Unlock lom s in
  let s := mm_Free s in
  match err with
  | Some _ => Ret (s, st)
  | None =>
      if negb (hdrSize =? Size lom) then Panic            (* cmn.AssertMsg *)
      else Ret (s, mkRebStats (add64 (TxRebCount st) 1) (add64 (TxRebSize st) hdrSize))
  end.

(** *** globalJogger.walk *)

(** What the calls made by [walk] answer for one directory entry. *)
Record WalkEnv := mkWalkEnv {
  we_stopped   : bool;            (* rj.xreb.Aborted() || rj.xreb.Finished() *)
  we_isDir     : bool;            (* de.IsDir() *)
  we_init      : option (string * bool);  (* lom.Init error, and whether it is bucket-level *)
  we_ecEnabled : bool;            (* lom.Bck().Props.EC.Enabled *)
  we_hrw       : string + string; (* cluster.HrwTarget: the target's ID, or an error *)
  we_nver      : Z;               (* t.GetSowner().Get().Version *)
  we_inFilter  : bool;            (* rj.m.filterGFN.Lookup(uname) *)
  we_load      : option string;   (* lom.Load() error *)
  we_send      : SendEnv;
}.

(** The result of [walk]: nil, [filepath.SkipDir], or an error. *)
Inductive WalkErr :=
| WalkOk
| WalkSkipDir
| WalkFail (e : string).

(** The state [walk] works on: the jogger state and the unames deleted
    from the GFN filter. *)
Record WalkState := mkWalkState {
  ws_jog     : JogState;
  ws_gfnDel  : list string;
}.

(** [(rj *globalJogger) walk(fqn, de)]: [self] is this target's ID, [ver]
    the jogger's Smap version, [sema] whether the jogger has a semaphore
    (rebalance.multiplier > 1), in which case the send runs in a
    goroutine of its own and its error is only logged. *)
Definition walk (self : string) (ver : Z) (sema : bool) (env : WalkEnv) (lom : LOM)
    (s : WalkState) : Res (WalkState * WalkErr) :=
  if we_stopped env then Ret (s, WalkFail "aborted")
  else if we_isDir env then Ret (s, WalkOk)
  else
    match we_init env with
    | Some (e, bucketLevel) =>
        if bucketLevel then Ret (s, WalkFail e) else Ret (s, WalkOk)
    | None =>
    (* skip a bucket with EC.Enabled - it is a job for EC rebalance *)
    if we_ecEnabled env then Ret (s, WalkSkipDir)
    else
      match we_hrw env with
      | inr e => Ret (s, WalkFail e)
      | inl tsi =>
      if String.eqb tsi self then Ret (s, WalkOk)
      else if we_nver env >? ver then
        Ret (mkWalkState (with_mgr abortGlobal (ws_jog s)) (ws_gfnDel s),
             WalkFail "newer Smap")
      else if we_inFilter env then
        Ret (mkWalkState (ws_jog s) (ws_gfnDel s ++ [Uname lom]), WalkOk)
      else
        match we_load env with
        | Some e => Ret (s, WalkFail e)
        | None =>
            '(js, err) ← send (we_send env) lom true (ws_jog s);
            let s := mkWalkState js (ws_gfnDel s) in
            if sema then Ret (s, WalkOk)
            else Ret (s, match err with Some e => WalkFail e | None => WalkOk end)
        end
      end
    end.

(** *** rxReady *)

(** The loop of [rxReady]: wait for a target to get ready to receive
    objects; the last component counts the passes. The named result
    [ok] is false whenever the loop goes round. *)
Fixpoint rxReady_loop (ver : Z) (sleep maxwt : Z)
    (trace : list StagePoll) (curwt : Z) (m : Manager) (passes : nat)
  : Res (Manager * bool * nat) :=
  if curwt <? maxwt then
    match trace with
    | [] => Pending
    | t :: trace' =>
        (* do not request the node stage if it has sent push notification *)
        if sp_inStage t then Ret (m, true, S passes)
        else
          let '(m, _, ok) :=
            checkGlobStatus m ver rebStageTraverse (sp_r1 t) (sp_ext t) (sp_r2 t) in
          if ok then Ret (m, ok, S passes)
          else
            let '(m, ab) := if xreb_aborted m then (m, true)
                            else AbortedAfter (sp_abort t) m in
            if ab then Ret (m, ok, S passes)
            else rxReady_loop ver sleep maxwt trace' (add64 curwt sleep) m (S passes)
    end
  else Ret (m, false, passes).

Definition rxReady_run (config : Config) (ver : Z)
    (trace : list StagePoll) (m : Manager) : Res (Manager * bool * nat) :=
  rxReady_loop ver (mul64 (CplaneOperation (Timeout config)) 2)
    (add64 (DestRetryTime (Rebalance config))
           (quot64 (DestRetryTime (Rebalance config)) 2))
    trace 0 m 0.

(** [rxReady(tsi, md)]: [ver] is [md.smap.Version]. *)
Definition rxReady (config : Config) (ver : Z)
    (trace : list StagePoll) (m : Manager) : Res (Manager * bool) :=
  r ← rxReady_run config ver trace m;
  Ret r.1.

(** *** waitFinExtended *)

(** What one pass of [waitFinExtended] observes: whether the xaction is
    aborted during the sleep at the top of the pass, whether the stage
    registry has the peer in "fin", and the replies for
    [checkGlobStatus]. *)
Record FinPoll := mkFinPoll {
  fp_abort   : bool;
  fp_inStage : bool;
  fp_r1      : HealthReply;
  fp_ext     : bool;
  fp_r2      : HealthReply;
}.

(** The loop of [waitFinExtended]. [cmn.KeepaliveRetryDuration] is not
    under src/: the loop is modelled for any value [sleepRetry] of it.
    Reading [status.Stage] of a nil status panics. *)
Fixpoint waitFinExtended_loop (self : string) (ver : Z) (sleep maxwt sleepRetry : Z)
    (trace : list FinPoll) (curwt : Z) (m : Manager) (passes : nat)
  : Res (Manager * bool * nat) :=
  if curwt <? maxwt then
    match trace with
    | [] => Pending
    | t :: trace' =>
        let '(m, ab) := AbortedAfter (fp_abort t) m in
        if ab then Ret (m, false, S passes)
        else if fp_inStage t then Ret (m, true, S passes)
        else
          let curwt := add64 curwt sleep in
          let '(m, status, ok) :=
            checkGlobStatus m ver rebStageFin (fp_r1 t) (fp_ext t) (fp_r2 t) in
          if ok then Ret (m, true, S passes)
          else if xreb_aborted m then Ret (m, false, S passes)
          else
            match status with
            | None => Panic
            | Some st =>
                if (Stage st <=? rebStageECNamespace)%N then
                  let curwt := add64 curwt sleepRetry in
                  (* keep waiting forever or until tsi finishes
                     traversing&transmitting *)
                  let curwt := if negb (Stage st =? rebStageInactive)%N
                               then 0 else curwt in
                  waitFinExtended_loop self ver sleep maxwt sleepRetry trace' curwt m
                    (S passes)
                else
                  (* tsi in rebStageWaitAck; w4me: this target is waiting
                     for ACKs from me *)
                  let w4me := existsb (String.eqb self) (StTmap st) in
                  if negb w4me then Ret (m, true, S passes)
                  else waitFinExtended_loop self ver sleep maxwt sleepRetry trace'
                         (add64 curwt sleepRetry) m (S passes)
            end
    end
  else Ret (m, false, passes).

Definition waitFinExtended_run (self : string) (config : Config) (ver : Z)
    (sleepRetry : Z) (trace : list FinPoll) (m : Manager)
  : Res (Manager * bool * nat) :=
  waitFinExtended_loop self ver (CplaneOperation (Timeout config))
    (DestRetryTime (Rebalance config)) sleepRetry trace 0 m 0.

(** [waitFinExtended(tsi, md)]: [self] is [reb.t.Snode().ID()], [ver]
    is [md.smap.Version]. *)
Definition waitFinExtended (self : string) (config : Config) (ver : Z)
    (sleepRetry : Z) (trace : list FinPoll) (m : Manager) : Res (Manager * bool) :=
  r ← waitFinExtended_run self config ver sleepRetry trace m;
  Ret r.1.

(** *** waitECData *)

(** The answer of [t.RebalanceNamespace(si)]: an error, status 202 (the
    node is not ready), status 204 (no content), or a body that decodes
    into a list of slices or does not. *)
Inductive NamespaceReply (CT : Type) :=
| NsErr
| NsAccepted
| NsNoContent
| NsBody (decoded : option (list CT)).
Arguments NsErr {CT}.
Arguments NsAccepted {CT}.
Arguments NsNoContent {CT}.
Arguments NsBody {CT} decoded.

(** What one pass of [waitECData] observes. *)
Record ECDataPoll (CT : Type) := mkECDataPoll {
  ed_aborted : bool;               (* reb.xreb.Aborted() *)
  ed_exists  : bool;               (* _, exists := reb.ec.nodeData(si.ID()) *)
  ed_inStage : bool;               (* reb.stages.isInStage(si, rebStageECDetect) *)
  ed_reply   : NamespaceReply CT;
}.
Arguments mkECDataPoll {CT}.
Arguments ed_aborted {CT}.
Arguments ed_exists {CT}.
Arguments ed_inStage {CT}.
Arguments ed_reply {CT}.

(** What [waitECData] writes: [reb.ec.setNodeData] and
    [reb.stages.setStage]. *)
Inductive ECWrite (CT : Type) :=
| SetNodeData (id : string) (slices : list CT)
| SetStage (id : string) (stage : N).
Arguments SetNodeData {CT}.
Arguments SetStage {CT}.

(** The loop of [waitECData] for the peer [si]; the result holds the
    manager, the writes made, the answer and the number of passes. *)
Fixpoint waitECData_loop {CT : Type} (si : string) (sleep maxwt : Z)
    (trace : list (ECDataPoll CT)) (curwt : Z) (m : Manager) (passes : nat)
  : Res (Manager * list (ECWrite CT) * bool * nat) :=
  if curwt <? maxwt then
    match trace with
    | [] => Pending
    | t :: trace' =>
        if ed_aborted t then Ret (m, [], true, S passes)
        else if ed_inStage t && ed_exists t then Ret (m, [], true, S passes)
        else
          match ed_reply t with
          | NsErr =>
              (* something bad happened, aborting *)
              Ret (abortGlobal m, [], false, S passes)
          | NsAccepted =>
              (* the node is not ready, wait for more *)
              waitECData_loop si sleep maxwt trace' (add64 curwt sleep) m (S passes)
          | NsNoContent =>
              Ret (m, [SetNodeData si []; SetStage si rebStageECDetect], true, S passes)
          | NsBody None =>
              (* not a severe error: next wait loop re-requests the data *)
              waitECData_loop si sleep maxwt trace' (add64 curwt sleep) m (S passes)
          | NsBody (Some slices) =>
              Ret (m, [SetNodeData si slices; SetStage si rebStageECDetect], true,
                   S passes)
          end
    end
  else Ret (m, [], false, passes).

(** [waitECData(si, md)] *)
Definition waitECData {CT : Type} (config : Config) (si : string)
    (trace : list (ECDataPoll CT)) (m : Manager)
  : Res (Manager * list (ECWrite CT) * bool * nat) :=
  waitECData_loop si (mul64 (CplaneOperation (Timeout config)) 2)
    (add64 (DestRetryTime (Rebalance config))
           (quot64 (DestRetryTime (Rebalance config)) 2))
    trace 0 m 0.
End Reb.

(* ===================================================================== *)
(** ** Go's container/heap                                                *)
(* ===================================================================== *)

Module GoHeap.
Import Cmn.

(** [sort.Interface]: the methods work on a state [H]; [Less] and [Swap]
    index a slice and may panic. *)
Class SortInterface (H : Type) := {
  Len  : H -> Z;
  Less : Z -> Z -> H -> Res bool;
  Swap : Z -> Z -> H -> Res H;
}.

Section Heap.
Context {H : Type} `{SortInterface H}.

(** [up]: the loop runs at most once per level above [j]. *)
Fixpoint up_loop (fuel : nat) (j : Z) (h : H) : Res H :=
  match fuel with
  | O => Pending
  | S fuel' =>
      let i := Z.quot (add64 j (-1)) 2 in            (* parent *)
      if i =? j then Ret h
      else
        lt ← Less j i h;
        if negb lt then Ret h
        else h' ← Swap i j h; up_loop fuel' i h'
  end.

Definition up (j : Z) (h : H) : Res H :=
  up_loop (S (Z.to_nat j)) j h.

(** [down]: returns the heap and the index [i] the element sank to. *)
Fixpoint down_loop (fuel : nat) (i n : Z) (h : H) : Res (H * Z) :=
  match fuel with
  | O => Pending
  | S fuel' =>
      let j1 := add64 (mul64 2 i) 1 in
      if (j1 >=? n) || (j1 <? 0) then Ret (h, i)      (* j1 < 0 after int overflow *)
      else
        let j2 := add64 j1 1 in
        j ← (if j2 <? n
             then lt ← Less j2 j1 h; Ret (if (lt : bool) then j2 else j1)
             else Ret j1);
        lt ← Less j i h;
        if negb lt then Ret (h, i)
        else h' ← Swap i j h; down_loop fuel' j n h'
  end.

Definition down (i0 n : Z) (h : H) : Res (H * bool) :=
  '(h', i) ← down_loop (S (Z.to_nat n)) i0 n h;
  Ret (h', i >? i0).

(** [heap.Fix] *)
Definition Fix (i : Z) (h : H) : Res H :=
  '(h', moved) ← down i (Len h) h;
  if negb moved then up i h' else Ret h'.

(** [heap.Push], [heap.Remove] and [heap.Pop] for an interface whose
    own [Push] and [Pop] methods are [push] and [pop]. *)
Definition Push {X} (push : X -> H -> Res H) (x : X) (h : H) : Res H :=
  h' ← push x h;
  up (add64 (Len h') (-1)) h'.

Definition Remove {X} (pop : H -> Res (X * H)) (i : Z) (h : H) : Res (X * H) :=
  let n := add64 (Len h) (-1) in
  h' ← (if negb (n =? i)
        then
          h1 ← Swap i n h;
          '(h2, moved) ← down i n h1;
          if negb moved then up i h2 else Ret h2
        else Ret h);
  pop h'.

Definition Pop {X} (pop : H -> Res (X * H)) (h : H) : Res (X * H) :=
  let n := add64 (Len h) (-1) in
  h1 ← Swap 0 n h;
  '(h2, _) ← down 0 n h1;
  pop h2.

Fixpoint Init_loop (fuel : nat) (i n : Z) (h : H) : Res H :=
  match fuel with
  | O => Pending
  | S fuel' =>
      if i >=? 0
      then '(h', _) ← down i n h; Init_loop fuel' (add64 i (-1)) n h'
      else Ret h
  end.

Definition Init (h : H) : Res H :=
  let n := Len h in
  Init_loop (S (Z.to_nat n)) (add64 (Z.quot n 2) (-1)) n h.

End Heap.

End GoHeap.

(* ===================================================================== *)
(** ** Package transport: the stream collector                            *)
(* ===================================================================== *)

Module Transport.
Import Cmn GoHeap.

(** Session states of a stream ([s.sessST]). *)
Inductive sessState : Set := inactive | active.

#[global] Instance sessState_eq_dec : EqDecision sessState.
Proof. solve_decision. Defined.

(** A queued frame: its header's object name and [ObjAttrs.Size]. *)
Record obj := mkObj {
  hdr_ObjName : string;
  hdr_Size    : Z;
}.

(** The fields of [Stream] that the collector reads and writes. *)
Record Stream := mkStream {
  lid           : string;          (* log prefix, the key in gc.streams *)
  time_idleOut  : Z;               (* s.time.idleOut, time.Duration *)
  time_posted   : Z;               (* s.time.posted, atomic int64 *)
  time_ticks    : Z;               (* s.time.ticks *)
  time_index    : Z;               (* s.time.index *)
  sessST        : sessState;
  terminated    : bool;            (* s.Terminated() *)
  term_err      : option string;   (* s.term.err *)
  workCh        : list obj;        (* frames buffered in s.workCh *)
  workCh_closed : bool;
}.

Definition set_ticks (t : Z) (s : Stream) : Stream :=
  mkStream (lid s) (time_idleOut s) (time_posted s) t (time_index s) (sessST s)
    (terminated s) (term_err s) (workCh s) (workCh_closed s).
Definition set_index (i : Z) (s : Stream) : Stream :=
  mkStream (lid s) (time_idleOut s) (time_posted s) (time_ticks s) i (sessST s)
    (terminated s) (term_err s) (workCh s) (workCh_closed s).
Definition set_posted (n : Z) (s : Stream) : Stream :=
  mkStream (lid s) (time_idleOut s) n (time_ticks s) (time_index s) (sessST s)
    (terminated s) (term_err s) (workCh s) (workCh_closed s).
Definition set_sessST (st : sessState) (s : Stream) : Stream :=
  mkStream (lid s) (time_idleOut s) (time_posted s) (time_ticks s) (time_index s) st
    (terminated s) (term_err s) (workCh s) (workCh_closed s).
Definition set_term_err (e : option string) (s : Stream) : Stream :=
  mkStream (lid s) (time_idleOut s) (time_posted s) (time_ticks s) (time_index s)
    (sessST s) (terminated s) e (workCh s) (workCh_closed s).
Definition set_workCh (q : list obj) (closed : bool) (s : Stream) : Stream :=
  mkStream (lid s) (time_idleOut s) (time_posted s) (time_ticks s) (time_index s)
    (sessST s) (terminated s) (term_err s) q closed.

(** What the collector does to the outside: closing a work channel and
    completing a frame ([s.objDone(&obj, err)]), in the order done. *)
Inductive Event :=
| EvClose (p : nat)
| EvObjDone (p : nat) (o : obj) (err : string).

(** The collector. Streams are shared by pointer between [gc.streams]
    and [gc.heap]: both hold addresses into [store]. *)
Record collector := mkCollector {
  streams : gmap string nat;     (* gc.streams: lid -> *Stream *)
  heap    : list nat;            (* gc.heap: []*Stream *)
  store   : gmap nat Stream;     (* the Stream objects by address *)
  events  : list Event;          (* effects so far, oldest first *)
}.

Definition set_streams (m : gmap string nat) (gc : collector) : collector :=
  mkCollector m (heap gc) (store gc) (events gc).
Definition set_heap (h : list nat) (gc : collector) : collector :=
  mkCollector (streams gc) h (store gc) (events gc).
Definition set_store (st : gmap nat Stream) (gc : collector) : collector :=
  mkCollector (streams gc) (heap gc) st (events gc).
Definition emit (es : list Event) (gc : collector) : collector :=
  mkCollector (streams gc) (heap gc) (store gc) (events gc ++ es).

(** Dereferencing a pointer that holds no stream panics. *)
Definition deref (p : nat) (gc : collector) : Res Stream :=
  match store gc !! p with
  | Some s => Ret s
  | None => Panic
  end.

Definition modify (p : nat) (f : Stream -> Stream) (gc : collector) : collector :=
  set_store (alter f p (store gc)) gc.

(** [gc.heap[i]]: indexing out of range panics. *)
Definition heap_at (i : Z) (gc : collector) : Res nat :=
  if i <? 0 then Panic
  else match heap gc !! Z.to_nat i with
       | Some p => Ret p
       | None => Panic
       end.

(** *** The collector as a min-heap *)

Definition gc_Len (gc : collector) : Z := Z.of_nat (length (heap gc)).

Definition gc_Less (i j : Z) (gc : collector) : Res bool :=
  pi ← heap_at i gc;
  pj ← heap_at j gc;
  si ← deref pi gc;
  sj ← deref pj gc;
  Ret (time_ticks si <? time_ticks sj).

Definition gc_Swap (i j : Z) (gc : collector) : Res collector :=
  pi ← heap_at i gc;
  pj ← heap_at j gc;
  let gc := set_heap (<[Z.to_nat j := pi]> (<[Z.to_nat i := pj]> (heap gc))) gc in
  (* gc.heap[i].time.index = i *)
  _ ← deref pj gc;
  let gc := modify pj (set_index i) gc in
  (* gc.heap[j].time.index = j *)
  _ ← deref pi gc;
  Ret (modify pi (set_index j) gc).

#[global] Instance collector_sort : SortInterface collector :=
  {| Len := gc_Len; Less := gc_Less; Swap := gc_Swap |}.

Definition gc_Push (p : nat) (gc : collector) : Res collector :=
  let l := gc_Len gc in
  _ ← deref p gc;
  let gc := modify p (set_index l) gc in
  let gc := set_heap (heap gc ++ [p]) gc in
  (* reorder the newly added stream right away *)
  Fix l gc.

Definition gc_Pop (gc : collector) : Res (nat * collector) :=
  match List.rev (heap gc) with
  | [] => Panic
  | sl :: _ => Ret (sl, set_heap (List.removelast (heap gc)) gc)
  end.

Definition gc_update (p : nat) (ticks : Z) (gc : collector) : Res collector :=
  _ ← deref p gc;
  let gc := modify p (set_ticks ticks) gc in
  if negb (ticks >=? 0) then Panic               (* cmn.Assert *)
  else
    s ← deref p gc;
    Fix (time_index s) gc.

(** *** Control events of [run] *)

(** [ctrl{s, true}] *)
Definition ctrl_add (p : nat) (gc : collector) : Res collector :=
  s ← deref p gc;
  match streams gc !! lid s with
  | Some _ => Panic                              (* cmn.AssertMsg(!ok, s.lid) *)
  | None =>
      let gc := set_streams (<[lid s := p]> (streams gc)) gc in
      Push gc_Push p gc
  end.

(** [ctrl{s, false}] *)
Definition ctrl_remove (p : nat) (gc : collector) : Res collector :=
  s ← deref p gc;
  match streams gc !! lid s with
  | Some _ =>
      '(_, gc) ← Remove gc_Pop (time_index s) gc;
      Ret (modify p (set_ticks 1) gc)
  | None => Ret gc
  end.

Section Do.
(** The constants [tickUnit] and [tickMarker] are declared in a file
    of the package that is not under src/; the collector is modelled
    for any values of them. *)
Variable tickUnit : Z.
Variable tickMarker : Z.

(** Modelled from the spec: [reasonUnknown] is declared outside src/;
    the spec gives the default termination error as "unknown reason". *)
Definition reasonUnknown : string := "unknown reason".

Definition tickMarkerObj : obj := mkObj "" tickMarker.

(** Body of the first loop of [do], for the stream at [p]. *)
Definition do_first (p : nat) (gc : collector) : Res collector :=
  s ← deref p gc;
  if terminated s then
    let gc := modify p (set_ticks (add64 (time_ticks s) (-1))) gc in
    s ← deref p gc;
    if time_ticks s <=? 0 then
      let gc := set_streams (delete (lid s) (streams gc)) gc in
      (* close(s.workCh): delayed close *)
      if workCh_closed s then Panic
      else
        let gc := emit [EvClose p] (modify p (set_workCh (workCh s) true) gc) in
        let err := match term_err s with
                   | Some e => e
                   | None => reasonUnknown
                   end in
        let gc := modify p (set_term_err (Some err)) gc in
        (* for obj := range s.workCh { s.objDone(&obj, s.term.err) } *)
        let gc := emit (map (fun o => EvObjDone p o err) (workCh s)) gc in
        Ret (modify p (set_workCh [] true) gc)
    else Ret gc
  else if decide (sessST s = active) then
    gc_update p (add64 (time_ticks s) (-1)) gc
  else Ret gc.

(** Body of the second loop of [do], for the stream at [p]. *)
Definition do_second (p : nat) (gc : collector) : Res collector :=
  s ← deref p gc;
  if time_ticks s >? 0 then Ret gc
  else
    gc ← gc_update p (Z.quot (time_idleOut s) tickUnit) gc;
    s ← deref p gc;
    (* s.time.posted.Swap(0) > 0 *)
    let posted := time_posted s in
    let gc := modify p (set_posted 0) gc in
    if posted >? 0 then Ret gc
    else
      if (Z.of_nat (length (workCh s)) =? 0) && bool_decide (sessST s = active)
      then
        (* CAS(active, inactive) succeeded *)
        let gc := modify p (set_sessST inactive) gc in
        if workCh_closed s then Panic          (* send on closed channel *)
        else Ret (modify p (set_workCh (workCh s ++ [tickMarkerObj]) false) gc)
      else Ret gc.

(** [for _, s := range gc.streams]: the keys come in some order [ord];
    an entry deleted before it is reached is not produced. *)
Fixpoint range_streams (body : nat -> collector -> Res collector)
    (ord : list string) (gc : collector) : Res collector :=
  match ord with
  | [] => Ret gc
  | k :: ord' =>
      match streams gc !! k with
      | Some p => gc' ← body p gc; range_streams body ord' gc'
      | None => range_streams body ord' gc
      end
  end.

(** collector's main method; [ord1] and [ord2] are the orders in
    which the two loops range over the map. *)
Definition do (ord1 ord2 : list string) (gc : collector) : Res collector :=
  gc ← range_streams do_first ord1 gc;
  range_streams do_second ord2 gc.

End Do.

(** [Init]: an empty collector ([heap.Init] of an empty heap). *)
Definition gc_init : collector := mkCollector ∅ [] ∅ [].

End Transport.

(* ===================================================================== *)
(** ** Predicates used by the statements, and sample states               *)
(* ===================================================================== *)

Module Samples.
Import Cmn Cluster Reb.

(** The status a poll obtains: the first reply when it decodes, else the
    reply to the single retry, made when the run was not aborted during
    the retry sleep. *)
Definition polled (m : Manager) (r1 : HealthReply) (ext : bool) (r2 : HealthReply)
  : option Status :=
  match r1 with
  | HealthBody st false => Some st
  | HealthBody _ true => None
  | HealthErr =>
      if xreb_aborted m || ext then None
      else match r2 with
           | HealthBody st false => Some st
           | _ => None
           end
  end.

Definition reb_run10 : Manager := mkManager 10 false 0 false 0 [].
Definition status_smap8 : Status := mkStatus [] 8 7 10 rebStageTraverse false true false.

(** The fourteen objects of the ECWaiter ginkgo test (their unique wait
    IDs), each with [sliceCnt = 3] slices. *)
Definition test_uids : list string :=
  ["aws/bck1/obj1"; "aws/bck1/obj2"; "ais/bck1/obj2"; "ais/bck1/obj3";
   "aws/bck2/obj1"; "ais/bck2/obj4"; "aws/bck5/obj1"; "aws/bck5/obj2";
   "ais/bck5/obj3"; "ais/bck5/obj4"; "aws/bck5/obj5"; "aws/bck5/obj6";
   "ais/bck5/obj8"; "ais/bck5/obj9"].

Definition test_slots : list (string * Z) :=
  uid ← test_uids; slot ← [0; 1; 2]; [(uid, slot)].

(** One pass of the test's loops: [lookupCreate] for every object and
    slice, collecting the handles returned. *)
Definition lookupCreate_all (keys : list (string * Z)) (wt : ctWaiter)
  : list nat * ctWaiter :=
  fold_left (fun acc k =>
               let '(h, wt') := lookupCreate k.1 k.2 waitForSingleSlice acc.2 in
               (acc.1 ++ [h], wt'))
            keys ([], wt).

(** A jogger state with four ack shards, object "ais/b/o7" hashed to
    shard 2, and the answers of a send whose transmission fails. *)
Definition sample_lom : LOM := mkLOM "ais/b/o7" "o7" 2 4096.
Definition sample_jog : JogState :=
  mkJogState (mkManager 10 false 0 false 3 [∅; ∅; ∅; ∅]) ∅ 0.
Definition env_send_fails : SendEnv :=
  mkSendEnv None false None None (Some "stream terminated").

(** A configuration with the default 2 s control-plane tick, a manager
    of a run that is not aborted, and a trace of four passes. *)
Definition quiesce_config : Config :=
  mkConfig (mkRebalanceConf (2 * Minute) (20 * Second) 2)
           (mkTimeoutConf (2 * Second) (4 * Second)).
Definition quiesce_mgr : Manager := mkManager 10 false 0 false 0 [].
Definition quiesce_trace : list QuiesceTick :=
  [mkQuiesceTick true false false; mkQuiesceTick false false false;
   mkQuiesceTick false false false; mkQuiesceTick false false false].

(** A cluster map of ten targets, seen from target "t0", and a poll at
    which the peers "t1", "t2" and "t3" have not reached the stage while
    the six others have (and have sent their EC node data). *)
Definition ten_targets : Smap :=
  mkSmap 7 (list_to_map
              ((fun id => (id, mkSnode id)) <$>
               ["t0"; "t1"; "t2"; "t3"; "t4"; "t5"; "t6"; "t7"; "t8"; "t9"])).
Definition obs_three_missing : PushObs :=
  mkPushObs false
    (fun id _ => negb (existsb (String.eqb id) ["t1"; "t2"; "t3"]))
    (fun _ => true).
Definition obs_all_reached : PushObs :=
  mkPushObs false (fun _ _ => true) (fun _ => true).
(** Five peers missing: as many as [len(Tmap)/2], so the loop waits. *)
Definition obs_five_missing : PushObs :=
  mkPushObs false
    (fun id _ => negb (existsb (String.eqb id) ["t1"; "t2"; "t3"; "t4"; "t5"]))
    (fun _ => true).

(** Streams for the collector: [mk_stream l idle ticks] is a fresh active
    stream with an empty queue. *)
Definition mk_stream (l : string) (idleOut ticks : Z) : Transport.Stream :=
  Transport.mkStream l idleOut 0 ticks 0 Transport.active false None [] false.

(** Three streams "a", "b", "c" with an idle timeout of three ticks
    (the tick unit being one second), allocated at addresses 1, 2, 3 and
    not registered yet. *)
Definition three_streams : Transport.collector :=
  Transport.mkCollector ∅ []
    (list_to_map [(1%nat, mk_stream "a" (3 * Second) 3);
                  (2%nat, mk_stream "b" (3 * Second) 3);
                  (3%nat, mk_stream "c" (3 * Second) 3)]) [].

(** The ticks of the streams in the heap array, in array order. *)
Definition heap_ticks (gc : Transport.collector) : list (option Z) :=
  (fun p => Transport.time_ticks <$> Transport.store gc !! p) <$> Transport.heap gc.
Definition heap_indices (gc : Transport.collector) : list (option Z) :=
  (fun p => Transport.time_index <$> Transport.store gc !! p) <$> Transport.heap gc.

(** "a" is registered, then "b" one tick later, then "c" one more tick
    later, and three more ticks pass. *)
Definition staggered_run : Res Transport.collector :=
  gc ← Transport.ctrl_add 1 three_streams;
  gc ← Transport.do Second (-1) ["a"] ["a"] gc;
  gc ← Transport.ctrl_add 2 gc;
  gc ← Transport.do Second (-1) ["a"; "b"] ["a"; "b"] gc;
  gc ← Transport.ctrl_add 3 gc;
  Transport.do Second (-1) ["a"; "b"; "c"] ["a"; "b"; "c"] gc.

(** *** Predicates on the collector *)

(** A stream without its heap index (the only field that heap operations
    write), and the stream at an address seen that way. *)
Definition view (s : Transport.Stream) : Transport.Stream := Transport.set_index 0 s.
Definition sview (gc : Transport.collector) (p : nat) : option Transport.Stream :=
  view <$> Transport.store gc !! p.

(** [heap[i].time.index == i] for every [i]. *)
Definition heap_indexed (gc : Transport.collector) : Prop :=
  forall (i : nat) (p : nat), Transport.heap gc !! i = Some p ->
    exists s, Transport.store gc !! p = Some s /\ Transport.time_index s = Z.of_nat i.

(** The heap array is far from the length at which [2*i + 1] overflows. *)
Definition heap_small (gc : Transport.collector) : Prop :=
  Z.of_nat (length (Transport.heap gc)) < 2 ^ 62.

(** What a heap operation may change: the order of the heap array and
    the indices stored in the streams, nothing else. *)
Definition heap_step (gc gc' : Transport.collector) : Prop :=
  Transport.streams gc' = Transport.streams gc
  /\ Transport.events gc' = Transport.events gc
  /\ length (Transport.heap gc') = length (Transport.heap gc)
  /\ (forall p : nat, p ∈ Transport.heap gc' <-> p ∈ Transport.heap gc)
  /\ (forall p : nat, sview gc' p = sview gc p).

(** The error a terminated stream's frames are completed with. *)
Definition term_error (v : Transport.Stream) : string :=
  match Transport.term_err v with
  | Some e => e
  | None => Transport.reasonUnknown
  end.

(** The stream is terminated and this tick takes its ticks to zero or
    below. *)
Definition expires (v : Transport.Stream) : bool :=
  Transport.terminated v && (add64 (Transport.time_ticks v) (-1) <=? 0).

(** What the first loop of [do] makes of a stream, its index apart, and
    the events it emits for it. *)
Definition first_view (v : Transport.Stream) : Transport.Stream :=
  if Transport.terminated v then
    let v1 := Transport.set_ticks (add64 (Transport.time_ticks v) (-1)) v in
    if expires v
    then Transport.set_workCh [] true (Transport.set_term_err (Some (term_error v)) v1)
    else v1
  else if decide (Transport.sessST v = Transport.active)
       then Transport.set_ticks (add64 (Transport.time_ticks v) (-1)) v
       else v.

Definition first_events (p : nat) (v : Transport.Stream) : list Transport.Event :=
  if expires v
  then Transport.EvClose p
       :: map (fun o => Transport.EvObjDone p o (term_error v)) (Transport.workCh v)
  else [].

(** What the second loop of [do] makes of a stream, its index apart. *)
Definition second_view (tickUnit tickMarker : Z) (v : Transport.Stream)
  : Transport.Stream :=
  if Transport.time_ticks v >? 0 then v
  else
    let v1 := Transport.set_posted 0
                (Transport.set_ticks (Z.quot (Transport.time_idleOut v) tickUnit) v) in
    if Transport.time_posted v >? 0 then v1
    else if (Z.of_nat (length (Transport.workCh v)) =? 0)
            && bool_decide (Transport.sessST v = Transport.active)
         then Transport.set_workCh
                (Transport.workCh v ++ [Transport.tickMarkerObj tickMarker]) false
                (Transport.set_sessST Transport.inactive v1)
         else v1.

(** One iteration of a loop of [do] on the stream at [p]: the stream
    becomes [g] of what it was (index apart), the entry [del] leaves the
    map, the events [evs] are emitted, and the heap keeps its elements and
    [heap[i].index == i]. *)
Definition stream_step (gc gc' : Transport.collector) (p : nat)
    (g : Transport.Stream -> Transport.Stream) (del : option string)
    (evs : list Transport.Event) : Prop :=
  heap_indexed gc'
  /\ length (Transport.heap gc') = length (Transport.heap gc)
  /\ (forall q : nat, q ∈ Transport.heap gc' <-> q ∈ Transport.heap gc)
  /\ Transport.streams gc'
     = match del with
       | Some k => delete k (Transport.streams gc)
       | None => Transport.streams gc
       end
  /\ Transport.events gc' = Transport.events gc ++ evs
  /\ (forall q : nat,
        sview gc' q = if decide (q = p) then g <$> sview gc p else sview gc q).

(** The events about the stream at [p]. *)
Definition about (p : nat) (e : Transport.Event) : bool :=
  match e with
  | Transport.EvClose q | Transport.EvObjDone q _ _ => Nat.eqb q p
  end.
Definition events_of (p : nat) (gc : Transport.collector) : list Transport.Event :=
  List.filter (about p) (Transport.events gc).

(** The collector is well formed: the heap indices are right, every
    registered stream is stored under its lid with an open queue and a
    non-negative idle timeout in ticks, and is in the heap unless it is
    terminated. *)
Record collector_ok (tickUnit : Z) (gc : Transport.collector) : Prop := mkCollectorOk {
  ok_indexed : heap_indexed gc;
  ok_small : heap_small gc;
  ok_lid : forall k p, Transport.streams gc !! k = Some p ->
             exists v, sview gc p = Some v /\ Transport.lid v = k;
  ok_inheap : forall k p v, Transport.streams gc !! k = Some p -> sview gc p = Some v ->
                Transport.terminated v = false -> p ∈ Transport.heap gc;
  ok_open : forall k p v, Transport.streams gc !! k = Some p -> sview gc p = Some v ->
              Transport.workCh_closed v = false;
  ok_idle : forall k p v, Transport.streams gc !! k = Some p -> sview gc p = Some v ->
              0 <= Z.quot (Transport.time_idleOut v) tickUnit;
}.

(** Before a tick every registered active stream that is not terminated
    has at least one tick left. *)
Definition ticks_left (gc : Transport.collector) : Prop :=
  forall k p v, Transport.streams gc !! k = Some p -> sview gc p = Some v ->
    Transport.terminated v = false -> Transport.sessST v = Transport.active ->
    1 <= Transport.time_ticks v <= int64_max.

(** The collector held by a result, [d] when there is none. *)
Definition of_res (d : Transport.collector) (r : Res Transport.collector)
  : Transport.collector :=
  match r with
  | Ret gc => gc
  | _ => d
  end.

(** Two streams with an idle timeout of three ticks: "a" has one tick
    left, "b" three. They are allocated, then registered one after the
    other. *)
Definition idle_store : Transport.collector :=
  Transport.mkCollector ∅ []
    (list_to_map [(1%nat, mk_stream "a" (3 * Second) 1);
                  (2%nat, mk_stream "b" (3 * Second) 3)]) [].
Definition idle_gc1 : Transport.collector :=
  of_res idle_store (Transport.ctrl_add 1 idle_store).
Definition idle_gc2 : Transport.collector :=
  of_res idle_gc1 (Transport.ctrl_add 2 idle_gc1).

(** A terminated stream "t" with one tick left, no stored error and two
    frames still queued. *)
Definition frame1 : Transport.obj := Transport.mkObj "o1" 10.
Definition frame2 : Transport.obj := Transport.mkObj "o2" 20.
Definition term_stream : Transport.Stream :=
  Transport.mkStream "t" (3 * Second) 0 1 0 Transport.active true None
    [frame1; frame2] false.
Definition term_store : Transport.collector :=
  Transport.mkCollector ∅ [] (list_to_map [(1%nat, term_stream)]) [].
Definition term_gc : Transport.collector :=
  of_res term_store (Transport.ctrl_add 1 term_store).

(** The events of the terminated stream's removal in the order the claim
    gives them: the frames are completed, then the queue is closed. *)
Definition drain_then_close : list Transport.Event :=
  [Transport.EvObjDone 1 frame1 "unknown reason";
   Transport.EvObjDone 1 frame2 "unknown reason";
   Transport.EvClose 1].

(** An in-memory slice: an SGL at address 7 read through reader 8, with
    three references. *)
Definition sgl_slice : Ec.slice :=
  Ec.mkSlice (Some (Ec.ObjSGL (Some 7%nat))) (Some 8%nat) 3 "".

(** The events of freeing an in-memory slice. *)
Definition sgl_free_events (sgl : nat) (reader : option nat) : list Ec.FreeEvent :=
  Ec.EvSGLFree sgl :: match reader with
                      | Some r => [Ec.EvReaderClose r]
                      | None => []
                      end.

(** A peer of the run [reb_run10] (Smap v7, globRebID 10) that has
    reached "fin", and one that is still at Smap v6. *)
Definition status_fin : Reb.Status :=
  Reb.mkStatus [] 7 7 10 Reb.rebStageFin false true true.
Definition status_smap6 : Reb.Status :=
  Reb.mkStatus [] 6 6 9 Reb.rebStageTraverse false true false.

(** A pass of a stage-waiting loop finds the peer in the stage: by push
    notification, or by a status poll of a peer in the run's epoch. *)
Definition reached (ver : Z) (stage : N) (m : Reb.Manager) (t : Reb.StagePoll) : Prop :=
  Reb.sp_inStage t = true
  \/ exists st, polled m (Reb.sp_r1 t) (Reb.sp_ext t) (Reb.sp_r2 t) = Some st
       /\ Reb.SmapVersion st = ver /\ Reb.RebVersion st = ver
       /\ Reb.GlobRebID st = Reb.globRebID m /\ Reb.Aborted st = false
       /\ (stage <= Reb.Stage st)%N.

(** A pass that polls a peer still at Smap v6, and a pass that finds the
    peer's push notification in the stage registry. *)
Definition poll_stale : Reb.StagePoll :=
  Reb.mkStagePoll false (Reb.HealthBody status_smap6 false) false Reb.HealthErr false.
Definition poll_pushed : Reb.StagePoll :=
  Reb.mkStagePoll true Reb.HealthErr false Reb.HealthErr false.

(** The answers of a send that skips a copy, and of a send that goes
    through. *)
Definition env_copy : Reb.SendEnv := Reb.mkSendEnv None true None None None.
Definition env_send_ok : Reb.SendEnv := Reb.mkSendEnv None false None None None.

(** What [walk] meets for a file that initialises and loads, in a bucket
    without EC, whose HRW target is "t1", while the cluster map is still
    at v7 and the transmission fails. *)
Definition walk_env_fails : Reb.WalkEnv :=
  Reb.mkWalkEnv false false None false (inl "t1") 7 false None env_send_fails.

(** What a removal from the heap may change: the stream at [p] leaves
    the heap array, the others stay (with indices that are right);
    nothing else. *)
Definition removed (p : nat) (gc gc' : Transport.collector) : Prop :=
  heap_indexed gc'
  /\ Transport.streams gc' = Transport.streams gc
  /\ Transport.events gc' = Transport.events gc
  /\ S (length (Transport.heap gc')) = length (Transport.heap gc)
  /\ (forall q, q ∈ Transport.heap gc' <-> q ∈ Transport.heap gc /\ q <> p)
  /\ (forall q, sview gc' q = sview gc q).

(** A peer of the run [reb_run10] that is still traversing, and a pass
    of [waitFinExtended] that polls it. *)
Definition status_traverse : Reb.Status :=
  Reb.mkStatus [] 7 7 10 Reb.rebStageTraverse false true false.
Definition fin_poll_traverse : Reb.FinPoll :=
  Reb.mkFinPoll false false (Reb.HealthBody status_traverse false) false Reb.HealthErr.

(** A peer in "wait ack" that waits for ACKs from "t1" only, and a pass
    that polls it. *)
Definition status_wack : Reb.Status :=
  Reb.mkStatus ["t1"] 7 7 10 Reb.rebStageWaitAck false true false.
Definition fin_poll_wack : Reb.FinPoll :=
  Reb.mkFinPoll false false (Reb.HealthBody status_wack false) false Reb.HealthErr.

(** The peer is still traversing according to the status polled on this
    pass: it is in the run's epoch, past "inactive" and not past "EC
    namespace". *)
Definition still_traversing (ver : Z) (m : Reb.Manager) (t : Reb.FinPoll) : Prop :=
  Reb.fp_abort t = false /\ Reb.fp_inStage t = false
  /\ exists st, polled m (Reb.fp_r1 t) (Reb.fp_ext t) (Reb.fp_r2 t) = Some st
       /\ Reb.SmapVersion st = ver /\ Reb.RebVersion st = ver
       /\ Reb.GlobRebID st = Reb.globRebID m /\ Reb.Aborted st = false
       /\ (Reb.rebStageInactive < Reb.Stage st <= Reb.rebStageECNamespace)%N.

(** The last pass of [waitFinExtended] found the peer done with this
    target: pushed "fin", polled at "fin" or later, or polled past "EC
    namespace" and not waiting for ACKs from this target. *)
Definition fin_or_not_waiting (self : string) (ver : Z) (m : Reb.Manager) (t : Reb.FinPoll)
  : Prop :=
  Reb.fp_abort t = false
  /\ (Reb.fp_inStage t = true
      \/ exists st, polled m (Reb.fp_r1 t) (Reb.fp_ext t) (Reb.fp_r2 t) = Some st
           /\ ((Reb.SmapVersion st = ver /\ Reb.RebVersion st = ver
                /\ Reb.GlobRebID st = Reb.globRebID m /\ Reb.Aborted st = false
                /\ (Reb.rebStageFin <= Reb.Stage st)%N)
               \/ ((Reb.rebStageECNamespace < Reb.Stage st)%N /\ self ∉ Reb.StTmap st))).

End Samples.


(* ===================================================================== *)
(** * Properties                                                          *)
(* ===================================================================== *)

(** ** int64 arithmetic *)

Section Int64Facts.
Import Cmn.

Lemma wrap64_id x : in_int64 x -> wrap64 x = x.
Proof.
  unfold in_int64, int64_min, int64_max, wrap64. intros Hx.
  rewrite Z.mod_small; lia.
Qed.

Lemma wrap64_range x : in_int64 (wrap64 x).
Proof.
  unfold in_int64, int64_min, int64_max, wrap64.
  pose proof (Z.mod_pos_bound (x + 2 ^ 63) (2 ^ 64) ltac:(lia)). lia.
Qed.

Lemma wrap64_add_l a b : wrap64 (wrap64 a + b) = wrap64 (a + b).
Proof.
  unfold wrap64. f_equal.
  replace ((a + 2 ^ 63) mod 2 ^ 64 - 2 ^ 63 + b + 2 ^ 63)
    with ((a + 2 ^ 63) mod 2 ^ 64 + b) by lia.
  rewrite Zplus_mod_idemp_l. f_equal. lia.
Qed.

Lemma add64_inc_dec x : in_int64 x -> add64 (add64 x 1) (-1) = x.
Proof.
  intros Hx. unfold add64. rewrite wrap64_add_l.
  replace (x + 1 + -1) with x by lia. by apply wrap64_id.
Qed.

Lemma MinDur_min a b : MinDur a b = Z.min a b.
Proof. unfold MinDur. destruct (Z.ltb_spec a b); lia. Qed.

End Int64Facts.

(** ** EC: in-memory buffers or a temp file *)

Section EcFacts.
Import Memsys Ec.

(** C8, as stated, fails: under High pressure a working size of exactly
    50 MiB stays in memory although the stated rule spills it, and under
    Extreme pressure an empty object is spilled although the stated rule
    keeps it in memory. *)
Lemma useDisk_not_spec :
  useDisk MemPressureHigh (50 * Cmn.MiB) = false
  /\ useDisk_spec MemPressureHigh (50 * Cmn.MiB) = true
  /\ useDisk MemPressureExtreme 0 = true
  /\ useDisk_spec MemPressureExtreme 0 = false.
Proof. repeat split; reflexivity. Qed.

(** C8, amended: [useDisk] answers true exactly when the pressure is
    Extreme or OOM, whatever the size, or the pressure is High and the
    working size is strictly greater than 50 MiB. *)
Theorem useDisk_iff (pressure : MemPressure) (objSize : Z) :
  useDisk pressure objSize = true <->
  pressure = MemPressureExtreme \/ pressure = OOM \/
  (pressure = MemPressureHigh /\ 50 * 1048576 < objSize).
Proof.
  unfold useDisk, objSizeHighMem, Cmn.MiB.
  destruct pressure; split; intros Hu;
    try discriminate; try (right; left; reflexivity); try (left; reflexivity);
    try reflexivity.
  - destruct Hu as [Hu | [Hu | [Hu _]]]; discriminate.
  - right; right. split; [reflexivity | lia].
  - destruct Hu as [Hu | [Hu | [_ Hu]]]; try discriminate. lia.
Qed.

End EcFacts.

(** ** Rebalance: the wait-ack deadline *)

Section WaitAckFacts.
Import Cmn Cluster Reb Samples.

(** C3: whenever the durations named by the rule are representable
    (DestRetryTime + 1 minute x (T div 10) and 2 x DestRetryTime fit a
    [time.Duration]), the polling deadline of the wait-ack stage is the
    minimum of the two, for every configuration and every number of
    targets T. *)
Theorem globalRebWaitAck_deadline (config : Config) (T : nat) :
  let D := DestRetryTime (Rebalance config) in
  let ext := D + Minute * (Z.of_nat T / 10) in
  in_int64 (Minute * (Z.of_nat T / 10)) ->
  in_int64 ext ->
  in_int64 (2 * D) ->
  globalRebWaitAck_maxwt config (Z.of_nat T) = Z.min ext (2 * D).
Proof.
  intros D ext Hmul Hext Hdbl. unfold globalRebWaitAck_maxwt, add64, mul64.
  fold D. rewrite Z.quot_div_nonneg by lia.
  rewrite (wrap64_id _ Hmul). fold ext. rewrite (wrap64_id _ Hext).
  replace (D * 2) with (2 * D) by lia. rewrite (wrap64_id _ Hdbl).
  apply MinDur_min.
Qed.

(** The deadline with the default DestRetryTime of two minutes on a
    cluster of 35 targets: five minutes are clamped to four. *)
Lemma globalRebWaitAck_deadline_witness :
  globalRebWaitAck_maxwt
    (mkConfig (mkRebalanceConf (2 * Minute) (20 * Second) 2)
              (mkTimeoutConf (2 * Second) (4 * Second))) (Z.of_nat 35)
  = Z.min (2 * Minute + Minute * (Z.of_nat 35 / 10)) (2 * (2 * Minute)).
Proof.
  apply (globalRebWaitAck_deadline
           (mkConfig (mkRebalanceConf (2 * Minute) (20 * Second) 2)
                     (mkTimeoutConf (2 * Second) (4 * Second))) 35);
    unfold in_int64, int64_min, int64_max; simpl; vm_compute; split; discriminate.
Defined.

End WaitAckFacts.

(** ** Rebalance: polling a peer's status *)

Section CheckGlobStatusFacts.
Import Cmn Cluster Reb Samples.

Lemma AbortedAfter_quiet m : xreb_aborted m = false -> AbortedAfter false m = (m, false).
Proof.
  intros Hm. unfold AbortedAfter, set_aborted. rewrite Hm. simpl.
  destruct m; simpl in *; subst; reflexivity.
Qed.

Lemma checkGlobStatus_polled m ver stage r1 ext r2 st :
  polled m r1 ext r2 = Some st ->
  checkGlobStatus m ver stage r1 ext r2 =
  checkGlobStatus m ver stage (HealthBody st false) false HealthErr.
Proof.
  unfold polled. destruct r1 as [|st1 [|]]; try discriminate.
  - destruct (xreb_aborted m) eqn:Hab; simpl; try discriminate.
    destruct ext; try discriminate.
    destruct r2 as [|st2 [|]]; try discriminate.
    intros [= ->]. unfold checkGlobStatus.
    rewrite (AbortedAfter_quiet m Hab). reflexivity.
  - intros [= ->]. reflexivity.
Qed.

(** C1, as stated, fails: a run with globRebID 10 under Smap version 7
    polls a peer that reports Smap version 8; the run is aborted and an
    abort is broadcast to the other targets. *)
Lemma checkGlobStatus_newer_smap_broadcasts :
  newerEpoch reb_run10 7 status_smap8
  /\ abort_pushes
       (checkGlobStatus reb_run10 7 rebStageFin (HealthBody status_smap8 false)
          false HealthErr).1.1
     <> abort_pushes reb_run10.
Proof.
  split.
  - left. reflexivity.
  - vm_compute. discriminate.
Qed.

(** C1, amended: for every status poll, if the polled peer reports a Smap
    version or rebalance version greater than the run's version, or a
    globRebID greater than the local one, the local run is aborted at
    once through [abortGlobal], which also broadcasts the abort to the
    other targets; the abort stays local (no broadcast) when the peer
    reports the run's versions, the same globRebID and Aborted=true. *)
Theorem checkGlobStatus_newer_epoch
    (m : Manager) (ver : Z) (desiredStage : N)
    (r1 : HealthReply) (ext : bool) (r2 : HealthReply) (st : Status) :
  polled m r1 ext r2 = Some st ->
  (newerEpoch m ver st ->
     checkGlobStatus m ver desiredStage r1 ext r2 = (abortGlobal m, Some st, false)
     /\ xreb_aborted (abortGlobal m) = true
     /\ abort_pushes (abortGlobal m) = S (abort_pushes m))
  /\ (SmapVersion st = ver -> RebVersion st = ver ->
      GlobRebID st = globRebID m -> Aborted st = true ->
     checkGlobStatus m ver desiredStage r1 ext r2 = (xreb_Abort m, Some st, false)
     /\ xreb_aborted (xreb_Abort m) = true
     /\ abort_pushes (xreb_Abort m) = abort_pushes m).
Proof.
  intros Hp. rewrite (checkGlobStatus_polled _ ver desiredStage _ _ _ _ Hp).
  unfold checkGlobStatus. split.
  - intros Hnew. split; [|split; reflexivity].
    destruct Hnew as [Hn | [Hn | Hn]].
    + destruct (Z.gtb_spec (SmapVersion st) ver); [|lia]. reflexivity.
    + destruct (Z.gtb_spec (RebVersion st) ver); [|lia].
      rewrite orb_true_r. reflexivity.
    + destruct (_ || _); [reflexivity|].
      destruct (Z.gtb_spec (GlobRebID st) (globRebID m)); [|lia]. reflexivity.
  - intros Hs Hr Hg Ha. split; [|split; reflexivity].
    rewrite Hs, Hr, Hg, Ha.
    destruct (Z.gtb_spec ver ver); [lia|].
    destruct (Z.gtb_spec (globRebID m) (globRebID m)); [lia|].
    destruct (Z.ltb_spec ver ver); [lia|].
    destruct (Z.ltb_spec (globRebID m) (globRebID m)); [lia|].
    rewrite Z.eqb_refl. reflexivity.
Qed.

(** The run of the counterexample, polled after one failed call: the
    retry brings the newer Smap version and the abort is broadcast. *)
Lemma checkGlobStatus_newer_epoch_witness :
  polled reb_run10 HealthErr false (HealthBody status_smap8 false) = Some status_smap8
  /\ newerEpoch reb_run10 7 status_smap8
  /\ checkGlobStatus reb_run10 7 rebStageFin HealthErr false (HealthBody status_smap8 false)
     = (abortGlobal reb_run10, Some status_smap8, false).
Proof.
  assert (Hp : polled reb_run10 HealthErr false (HealthBody status_smap8 false)
               = Some status_smap8) by reflexivity.
  assert (Hn : newerEpoch reb_run10 7 status_smap8) by (left; reflexivity).
  split; [exact Hp | split; [exact Hn |]].
  exact (proj1 (proj1 (checkGlobStatus_newer_epoch reb_run10 7 rebStageFin
                         HealthErr false (HealthBody status_smap8 false)
                         status_smap8 Hp) Hn)).
Defined.

End CheckGlobStatusFacts.

(** ** Rebalance: the EC slice-waiter registry *)

Section WaiterFacts.
Import Cmn Cluster Reb Samples.

Lemma find_slot_app_new slot h cts :
  find_slot slot (cts ++ [(slot, h)]) =
  match find_slot slot cts with Some h' => Some h' | None => Some h end.
Proof.
  unfold find_slot. induction cts as [|[s' h'] cts IH]; simpl.
  - rewrite Z.eqb_refl. reflexivity.
  - destruct (s' =? slot); [reflexivity | exact IH].
Qed.

(** C9: for every registry, uid and slot, a second [lookupCreate] with the
    same uid and slot returns the handle of the first call and leaves the
    outstanding counter (and the whole registry) as the first call left
    it, whatever the modes given. *)
Theorem lookupCreate_idempotent (wt : ctWaiter) (uid : string) (slot : Z) (mode mode' : nat) :
  let '(h1, wt1) := lookupCreate uid slot mode wt in
  let '(h2, wt2) := lookupCreate uid slot mode' wt1 in
  h2 = h1 /\ wt_waitFor wt2 = wt_waitFor wt1 /\ wt2 = wt1.
Proof.
  unfold lookupCreate.
  destruct (wt_objs wt !! uid) as [wo|] eqn:Hwo.
  - destruct (find_slot slot (wo_cts wo)) as [h|] eqn:Hfs.
    + rewrite Hwo, Hfs. auto.
    + simpl. rewrite lookup_insert_eq. simpl.
      rewrite find_slot_app_new, Hfs. auto.
  - simpl. rewrite lookup_insert_eq. simpl.
    unfold find_slot. simpl. rewrite Z.eqb_refl. simpl. auto.
Qed.

(** The steps of the ginkgo test "Checking EC slice waiter" that use
    [lookupCreate]: 14 x 3 distinct waiters are created; asking again
    returns the same handles; the counter stays at 42. *)
Example ECWaiter_test :
  let '(created, wt1) := lookupCreate_all test_slots newWaiter in
  let '(again, wt2) := lookupCreate_all test_slots wt1 in
  length created = 42%nat /\ NoDup created /\ again = created
  /\ wt_waitFor wt1 = 42 /\ wt_waitFor wt2 = 42
  /\ size (wt_objs wt2) = 14%nat.
Proof.
  vm_compute. repeat split; try reflexivity.
  apply NoDup_ListNoDup. repeat constructor; simpl; intuition discriminate.
Qed.

End WaiterFacts.

(** ** Rebalance: a failed send leaves no pending ack *)

Section SendFacts.
Import Cmn Cluster Reb Samples.

Lemma lom_Lock_Unlock lom s :
  js_rlocks (lom_Unlock lom (lom_Lock lom s)) !! Uname lom
  = Some (default 0 (js_rlocks s !! Uname lom)).
Proof.
  unfold lom_Unlock, lom_Lock. simpl. rewrite !lookup_insert_eq. simpl.
  f_equal. lia.
Qed.

(** C10: in [send] with addAck=true, when the object is loaded, is not a
    copy, has a checksum and opens, and the stream's Send returns an
    error [e], then [send] returns [e] and on return: the ack shard of the
    LOM is the shard before the call without an entry for the LOM's
    uname (entries of other objects and the other shards are as before),
    the in-queue counter is back to its value before the call, the opaque
    ack buffer has been freed, and the shared lock on the LOM is
    released. *)
Theorem send_failed_removes_ack
    (env : SendEnv) (lom : LOM) (s : JogState) (e : string) (q : gmap string LOM) :
  env_load env = None -> env_isCopy env = false ->
  env_cksum env = None -> env_open env = None ->
  env_send env = Some e ->
  lomAcks (js_mgr s) !! HkeyIdx lom = Some q ->
  in_int64 (inQueue (js_mgr s)) ->
  exists s',
    send env lom true s = Ret (s', Some e)
    /\ lomAcks (js_mgr s') = <[HkeyIdx lom := delete (Uname lom) q]> (lomAcks (js_mgr s))
    /\ (forall q', lomAcks (js_mgr s') !! HkeyIdx lom = Some q' -> q' !! Uname lom = None)
    /\ lomAcks (js_mgr s') !! HkeyIdx lom = Some (delete (Uname lom) q)
    /\ inQueue (js_mgr s') = inQueue (js_mgr s)
    /\ js_opaque s' = js_opaque s
    /\ js_rlocks s' !! Uname lom = Some (default 0 (js_rlocks s !! Uname lom)).
Proof.
  intros Hload Hcopy Hck Hopen Hsend Hq Hrange.
  assert (Hlen : (HkeyIdx lom < length (lomAcks (js_mgr s)))%nat)
    by (eapply lookup_lt_Some; exact Hq).
  unfold send, send_body. rewrite Hload, Hcopy, Hck, Hopen, Hsend.
  unfold ack_insert. simpl. rewrite Hq. simpl.
  unfold ack_delete. simpl.
  eexists. split; [reflexivity|].
  unfold send_deferred, mm_Free, with_mgr, mm_Alloc, lom_Lock, lom_Unlock. simpl.
  rewrite list_lookup_insert_eq by exact Hlen. simpl.
  rewrite list_insert_insert_eq, delete_insert_eq.
  assert (Hshard : <[HkeyIdx lom := delete (Uname lom) q]> (lomAcks (js_mgr s))
                   !! HkeyIdx lom = Some (delete (Uname lom) q))
    by (apply list_lookup_insert_eq; exact Hlen).
  repeat split.
  - intros q' Hq'. rewrite Hshard in Hq'. injection Hq' as <-.
    apply lookup_delete_eq.
  - exact Hshard.
  - apply add64_inc_dec. exact Hrange.
  - lia.
  - rewrite !lookup_insert_eq. simpl. f_equal. lia.
Qed.

(** A send of "ais/b/o7" that fails in the stream: no ack stays behind in
    shard 2 and three objects are in the queue as before. *)
Lemma send_failed_removes_ack_witness :
  exists s',
    send env_send_fails sample_lom true sample_jog = Ret (s', Some "stream terminated")
    /\ lomAcks (js_mgr s') !! 2%nat = Some (delete "ais/b/o7" ∅)
    /\ inQueue (js_mgr s') = 3.
Proof.
  destruct (send_failed_removes_ack env_send_fails sample_lom sample_jog
              "stream terminated" ∅) as (s' & Hs & _ & _ & Hq & Hi & _);
    try reflexivity.
  - unfold in_int64, int64_min, int64_max. simpl. lia.
  - exists s'. split; [exact Hs | split; [exact Hq | exact Hi]].
Defined.

End SendFacts.

(** ** Rebalance: waiting for quiescence *)

Section WaitQuiesceFacts.
Import Cmn Cluster Reb Samples.

Lemma activity_S m m' t trace j :
  laterx m' = false ->
  activity m (t :: trace) (S j) = activity m' trace j.
Proof.
  intros Hl. unfold activity. destruct j; simpl; [rewrite Hl|]; reflexivity.
Qed.

(** One pass of the loop: the CAS leaves [laterx] false, and the counter
    restarts from zero exactly when activity was recorded. *)
Lemma waitQuiesce_pass m t :
  let m1 := if tick_rx t then set_laterx true m else m in
  exists m2,
    laterx_CAS true false m1 = (m2, laterx m || tick_rx t)
    /\ laterx m2 = false
    /\ xreb_aborted m2 = xreb_aborted m.
Proof.
  unfold laterx_CAS.
  destruct (tick_rx t), (laterx m) eqn:Hl; simpl; try rewrite Hl; simpl;
    eexists; (split; [reflexivity|]); split; simpl; auto.
Qed.

Lemma waitQuiesce_loop_inv (N : Z) (has_cb : bool) :
  in_int64 N ->
  forall (trace : list QuiesceTick) (st st' : QuiesceLoop),
  waitQuiesce_loop N has_cb trace st = Ret st' ->
  0 <= ql_quiescent st ->
  xreb_aborted (ql_mgr st) = ql_aborted st ->
  exists c : nat,
    ql_passes st' = (ql_passes st + c)%nat
    /\ (0 <= ql_quiescent st' /\ ql_quiescent st' <= ql_quiescent st + Z.of_nat c)
    /\ (forall j : nat, (j < c)%nat -> activity (ql_mgr st) trace j = true ->
          ql_quiescent st' <= Z.of_nat c - 1 - Z.of_nat j)
    /\ (ql_broke st' = false -> ql_aborted st' = false -> N <= ql_quiescent st')
    /\ (ql_broke st' = true ->
          (c = 0%nat /\ ql_broke st = true)
          \/ (has_cb = true /\ ql_aborted st' = false /\
              exists t, (1 <= c)%nat /\ trace !! (c - 1)%nat = Some t /\ tick_cb t = true))
    /\ (forall (j : nat) t, trace !! j = Some t -> tick_abort t = true -> (c <= j + 1)%nat)
    /\ (ql_aborted st = true -> c = 0%nat)
    /\ (c = 0%nat -> st' = st)
    /\ (forall t, (1 <= c)%nat -> trace !! (c - 1)%nat = Some t -> ql_broke st' = false ->
          tick_abort t = true -> ql_aborted st' = true).
Proof.
  intros HN.
  assert (Hstop : forall st : QuiesceLoop,
            (ql_quiescent st <? N) && negb (ql_aborted st) = false ->
            0 <= ql_quiescent st ->
            forall trace : list QuiesceTick,
            exists c : nat,
              ql_passes st = (ql_passes st + c)%nat
              /\ (0 <= ql_quiescent st /\ ql_quiescent st <= ql_quiescent st + Z.of_nat c)
              /\ (forall j : nat, (j < c)%nat -> activity (ql_mgr st) trace j = true ->
                    ql_quiescent st <= Z.of_nat c - 1 - Z.of_nat j)
              /\ (ql_broke st = false -> ql_aborted st = false -> N <= ql_quiescent st)
              /\ (ql_broke st = true ->
                    (c = 0%nat /\ ql_broke st = true)
                    \/ (has_cb = true /\ ql_aborted st = false /\
                        exists t, (1 <= c)%nat /\ trace !! (c - 1)%nat = Some t
                                  /\ tick_cb t = true))
              /\ (forall (j : nat) t, trace !! j = Some t -> tick_abort t = true ->
                    (c <= j + 1)%nat)
              /\ (ql_aborted st = true -> c = 0%nat)
              /\ (c = 0%nat -> st = st)
              /\ (forall t, (1 <= c)%nat -> trace !! (c - 1)%nat = Some t ->
                    ql_broke st = false -> tick_abort t = true -> ql_aborted st = true)).
  { intros st Hc Hq trace. exists 0%nat.
    split; [lia|]. split; [lia|]. split; [intros; lia|].
    split.
    { intros _ Ha. rewrite Ha in Hc. simpl in Hc. rewrite andb_true_r in Hc.
      apply Z.ltb_ge in Hc. exact Hc. }
    split; [intros Hb; left; auto|]. split; [intros; lia |].
    split; [intros; reflexivity|]. split; [intros; reflexivity | intros; lia]. }
  induction trace as [|t trace IH]; intros st st' Hrun Hq Hab.
  - simpl in Hrun.
    destruct ((ql_quiescent st <? N) && negb (ql_aborted st)) eqn:Hc; [discriminate|].
    injection Hrun as <-. apply Hstop; assumption.
  - simpl in Hrun.
    destruct ((ql_quiescent st <? N) && negb (ql_aborted st)) eqn:Hc.
    2:{ injection Hrun as <-. apply Hstop; assumption. }
    apply andb_true_iff in Hc as [Hlt Hna].
    apply Z.ltb_lt in Hlt. apply negb_true_iff in Hna.
    destruct (waitQuiesce_pass (ql_mgr st) t) as (m2 & Hcas & Hlx & Hxa).
    cbv zeta in Hcas. rewrite Hcas in Hrun.
    set (act0 := laterx (ql_mgr st) || tick_rx t) in *.
    assert (Hact0 : activity (ql_mgr st) (t :: trace) 0 = act0) by reflexivity.
    assert (Hq1 : (if negb act0 then add64 (ql_quiescent st) 1 else 0)
                  = (if act0 then 0 else ql_quiescent st + 1)).
    { destruct act0; simpl; [reflexivity|].
      unfold add64. apply wrap64_id.
      unfold in_int64, int64_min, int64_max in *. lia. }
    rewrite Hq1 in Hrun.
    destruct (has_cb && tick_cb t) eqn:Hcb.
    + injection Hrun as <-. simpl. exists 1%nat.
      apply andb_true_iff in Hcb as [Hh Ht].
      split; [lia|]. split; [destruct act0; lia|].
      split.
      { intros j Hj Ha. assert (j = 0%nat) as -> by lia.
        change (act0 = true) in Ha. rewrite Ha. lia. }
      split; [intros Hb; discriminate|].
      split.
      { intros _. right. split; [exact Hh|]. split; [exact Hna|].
        exists t. simpl. auto. }
      split; [intros; lia |]. split; [intros Ha; congruence|].
      split; [intros; lia | intros; discriminate].
    + unfold AbortedAfter in Hrun.
      apply IH in Hrun; simpl.
      2:{ simpl. destruct act0; lia. }
      2:{ simpl. reflexivity. }
      destruct Hrun as (c & Hp & Hqb & Hreset & Hexit & Hbroke & Habort & Hstart
                        & Hzero & Hlast).
      simpl in *. exists (S c).
      split; [lia|]. split; [destruct act0; lia|].
      split.
      { intros j Hj Ha. destruct j as [|j].
        - change (act0 = true) in Ha. rewrite Ha in Hqb. lia.
        - rewrite (activity_S _ (set_aborted (xreb_aborted m2 || tick_abort t) m2)) in Ha
            by (simpl; exact Hlx).
          specialize (Hreset j ltac:(lia) Ha). lia. }
      split; [exact Hexit|].
      split.
      { intros Hb. right.
        destruct (Hbroke Hb) as [[_ Hf] | (Hh & Ha & t' & Hc1 & Hl & Ht)];
          [discriminate|].
        split; [exact Hh|]. split; [exact Ha|].
        exists t'. split; [lia|]. split; [|exact Ht].
        replace (S c - 1)%nat with (S (c - 1))%nat by lia. exact Hl. }
      split.
      { intros j t' Hl Ht. destruct j as [|j].
        - simpl in Hl. injection Hl as <-.
          rewrite Ht, orb_true_r in Hstart. specialize (Hstart eq_refl). lia.
        - simpl in Hl. specialize (Habort j t' Hl Ht). lia. }
      split; [intros Ha; congruence|]. split; [intros; lia|].
      intros t' _ Hl Hb Ht. destruct c as [|c].
      * simpl in Hl. injection Hl as <-. rewrite (Hzero eq_refl). simpl.
        rewrite Ht. apply orb_true_r.
      * apply (Hlast t'); [lia | | exact Hb | exact Ht].
        replace (S c - 1)%nat with c by lia.
        replace (S (S c) - 1)%nat with (S c) in Hl by lia. exact Hl.
Qed.

Lemma waitQuiesce_loop_quiet (N : Z) (has_cb : bool) (m : Manager) :
  in_int64 N -> xreb_aborted m = false -> laterx m = false ->
  forall (k : nat) (q : Z) (p : nat),
  0 <= q -> q + Z.of_nat k = N ->
  waitQuiesce_loop N has_cb (repeat (mkQuiesceTick false false false) k)
    (mkQuiesceLoop m q false p false)
  = Ret (mkQuiesceLoop m N false (p + k) false).
Proof.
  intros HN Hab Hlx. induction k as [|k IH]; intros q p Hq Hk.
  - simpl. replace (q <? N) with false by (symmetry; apply Z.ltb_ge; lia).
    simpl. do 2 f_equal; lia.
  - simpl. replace (q <? N) with true by (symmetry; apply Z.ltb_lt; lia).
    simpl. unfold laterx_CAS. rewrite Hlx. simpl.
    rewrite andb_false_r. unfold AbortedAfter. rewrite Hab. simpl.
    replace (set_aborted false m) with m
      by (destruct m; simpl in *; subst; reflexivity).
    replace (add64 q 1) with (q + 1)
      by (symmetry; apply wrap64_id;
          unfold in_int64, int64_min, int64_max in *; lia).
    rewrite IH by lia. do 2 f_equal; lia.
Qed.

(** When nothing is received and nobody aborts, the wait returns "not
    aborted" after exactly the N passes of a trace of N quiet ticks. *)
Lemma waitQuiesce_quiet_returns (config : Config) (maxWait : Z) (has_cb : bool) (m : Manager) :
  0 < maxWait -> CplaneOperation (Timeout config) <> 0 ->
  0 <= maxQuiet_of config maxWait ->
  xreb_aborted m = false -> laterx m = false ->
  waitQuiesce config maxWait has_cb
    (repeat (mkQuiesceTick false false false) (Z.to_nat (maxQuiet_of config maxWait))) m
  = Ret (m, false).
Proof.
  intros Hw Hs HN Hab Hlx. unfold waitQuiesce, waitQuiesce_run.
  replace (maxWait >? 0) with true by (symmetry; apply Z.gtb_lt; lia).
  replace (CplaneOperation (Timeout config) =? 0) with false
    by (symmetry; apply Z.eqb_neq; exact Hs).
  simpl. rewrite Hab.
  rewrite (waitQuiesce_loop_quiet (maxQuiet_of config maxWait) has_cb m);
    [reflexivity | apply wrap64_range | exact Hab | exact Hlx | lia | lia].
Qed.




End WaitQuiesceFacts.

(** ** Rebalance: waiting for push notifications *)

Section WaitForPushReqsFacts.
Import Cmn Cluster Reb Samples.

Section Loop.
Variables (self : string) (smap : Smap) (stage : N).
Variables (maxMissing sleep maxWait : Z).

Let cnt (o : PushObs) : Z := nodesNotInStage self smap stage o.

(** The poll neither returns nor times out: the run is not aborted, at
    least [maxMissing] targets are missing and the stage is past
    EC-namespace. *)
Let waits (o : PushObs) : Prop :=
  obs_aborted o = false /\ maxMissing <= cnt o /\ (rebStageECNamespace < stage)%N.

Lemma waitForPushReqs_loop_inv :
  forall (trace : list PushObs) (curWait : Z) (polls : nat) (b : bool) (n : nat),
  waitForPushReqs_loop self smap stage maxMissing sleep maxWait trace curWait polls
    = Ret (b, n) ->
  exists c : nat,
    n = (polls + c)%nat
    /\ (forall (j : nat) o, (j + 1 < c)%nat -> trace !! j = Some o -> waits o)
    /\ (b = true ->
        exists o, (1 <= c)%nat /\ trace !! (c - 1)%nat = Some o
                  /\ (obs_aborted o = true \/ cnt o = 0))
    /\ (b = false ->
        (forall (j : nat) o, (j < c)%nat -> trace !! j = Some o -> waits o)
        \/ exists o, (1 <= c)%nat /\ trace !! (c - 1)%nat = Some o
                     /\ obs_aborted o = false /\ cnt o <> 0
                     /\ (cnt o < maxMissing \/ (stage <= rebStageECNamespace)%N))
    /\ ((stage <= rebStageECNamespace)%N -> (c <= 1)%nat)
    /\ (0 <= sleep -> in_int64 (maxWait + sleep) -> 0 <= curWait ->
        forall j : nat, (j < c)%nat -> curWait + Z.of_nat j * sleep < maxWait).
Proof.
  induction trace as [|o trace IH]; intros curWait polls b n Hrun; simpl in Hrun.
  - destruct (curWait <? maxWait); [discriminate|].
    injection Hrun as <- <-. exists 0%nat.
    split; [lia|]. split; [intros; lia|]. split; [discriminate|].
    split; [intros _; left; intros; lia|]. split; intros; lia.
  - destruct (Z.ltb_spec curWait maxWait) as [Hlt|Hge].
    2:{ injection Hrun as <- <-. exists 0%nat.
        split; [lia|]. split; [intros; lia|]. split; [discriminate|].
        split; [intros _; left; intros; lia|]. split; intros; lia. }
    destruct (obs_aborted o) eqn:Hab.
    { injection Hrun as <- <-. exists 1%nat.
      split; [lia|]. split; [intros; lia|].
      split; [intros _; exists o; simpl; auto|].
      split; [discriminate|]. split; [intros; lia|].
      intros _ _ _ j Hj. assert (j = 0%nat) as -> by lia. lia. }
    fold (cnt o) in Hrun.
    destruct ((cnt o <? maxMissing) || (stage <=? rebStageECNamespace)%N) eqn:Hdec.
    { injection Hrun as <- <-. exists 1%nat.
      split; [lia|]. split; [intros; lia|].
      split.
      { intros Hz. apply Z.eqb_eq in Hz. exists o. simpl. auto. }
      split.
      { intros Hz. apply Z.eqb_neq in Hz. right. exists o. simpl.
        split; [lia|]. split; [reflexivity|]. split; [exact Hab|].
        split; [exact Hz|].
        apply orb_true_iff in Hdec as [Hd|Hd];
          [left; apply Z.ltb_lt; exact Hd | right; apply N.leb_le; exact Hd]. }
      split; [intros; lia|].
      intros _ _ _ j Hj. assert (j = 0%nat) as -> by lia. lia. }
    apply orb_false_iff in Hdec as [Hd1 Hd2].
    apply Z.ltb_ge in Hd1. apply N.leb_gt in Hd2.
    assert (Hw : waits o) by (unfold waits; auto).
    apply IH in Hrun. destruct Hrun as (c & Hn & Hearly & Htrue & Hfalse & Hfirst & Htime).
    exists (S c). split; [lia|].
    split.
    { intros j o' Hj Hl. destruct j as [|j]; simpl in Hl.
      - injection Hl as <-. exact Hw.
      - apply (Hearly j); [lia | exact Hl]. }
    split.
    { intros Hb. destruct (Htrue Hb) as (o' & Hc & Hl & Ho).
      exists o'. split; [lia|]. split; [|exact Ho].
      replace (S c - 1)%nat with (S (c - 1))%nat by lia. exact Hl. }
    split.
    { intros Hb. destruct (Hfalse Hb) as [Hall | (o' & Hc & Hl & Ho)].
      - left. intros j o' Hj Hl. destruct j as [|j]; simpl in Hl.
        + injection Hl as <-. exact Hw.
        + apply (Hall j); [lia | exact Hl].
      - right. exists o'. split; [lia|]. split; [|exact Ho].
        replace (S c - 1)%nat with (S (c - 1))%nat by lia. exact Hl. }
    split; [intros Hs; lia|].
    intros Hs Hr Hc j Hj.
    assert (Hadd : add64 curWait sleep = curWait + sleep).
    { apply wrap64_id. unfold in_int64, int64_min, int64_max in *. lia. }
    destruct j as [|j]; [lia|].
    rewrite Hadd in Htime. specialize (Htime Hs Hr ltac:(lia) j ltac:(lia)). lia.
Qed.

(** With a positive sleep the loop returns once the polls recorded cover
    the timeout. *)
Lemma waitForPushReqs_loop_returns :
  0 < sleep -> in_int64 (maxWait + sleep) ->
  forall (trace : list PushObs) (curWait : Z) (polls : nat),
  0 <= curWait ->
  maxWait <= curWait + Z.of_nat (length trace) * sleep ->
  exists b n,
    waitForPushReqs_loop self smap stage maxMissing sleep maxWait trace curWait polls
      = Ret (b, n).
Proof.
  intros Hs Hr. induction trace as [|o trace IH]; intros curWait polls Hc Hlen; simpl.
  - simpl in Hlen. destruct (Z.ltb_spec curWait maxWait); [lia|]. eauto.
  - destruct (Z.ltb_spec curWait maxWait) as [Hlt|]; [|eauto].
    destruct (obs_aborted o); [eauto|].
    destruct (_ || _); [eauto|].
    assert (Hadd : add64 curWait sleep = curWait + sleep).
    { apply wrap64_id. unfold in_int64, int64_min, int64_max in *. lia. }
    rewrite Hadd. apply IH; [lia|]. simpl length in Hlen. lia.
Qed.

End Loop.



(** With a positive tick and enough recorded polls to cover the timeout,
    [waitForPushReqs] returns. *)
Lemma waitForPushReqs_returns
    (self : string) (config : Config) (smap : Smap) (stage : N)
    (timeout : option Z) (trace : list PushObs) :
  let sleep := mul64 (CplaneOperation (Timeout config)) 2 in
  let maxWait := match timeout with Some t => t | None => Minute end in
  0 < sleep -> in_int64 (maxWait + sleep) ->
  maxWait <= Z.of_nat (length trace) * sleep ->
  exists b, waitForPushReqs self config smap stage timeout trace = Ret b.
Proof.
  intros sleep maxWait Hs Hr Hlen.
  destruct (waitForPushReqs_loop_returns self smap stage
              (Z.quot (Z.of_nat (size (Tmap smap))) 2) sleep maxWait Hs Hr
              trace 0 0%nat ltac:(lia) ltac:(lia)) as (b & n & Hrun).
  exists b. unfold waitForPushReqs, waitForPushReqs_run.
  fold sleep. unfold defaultWaitTime. fold maxWait. rewrite Hrun. reflexivity.
Qed.


End WaitForPushReqsFacts.

(** ** Stream collector: the heap operations *)

Section CollectorHeapFacts.
Import Cmn GoHeap Transport Samples.

Lemma bind_Ret {A B} (a : A) (f : A -> Res B) : (Ret a ≫= f) = f a.
Proof. reflexivity. Qed.

Lemma heap_step_refl gc : heap_step gc gc.
Proof. unfold heap_step. auto 10. Qed.

Lemma heap_step_trans gc1 gc2 gc3 :
  heap_step gc1 gc2 -> heap_step gc2 gc3 -> heap_step gc1 gc3.
Proof.
  intros (Hs1 & He1 & Hl1 & Hm1 & Hv1) (Hs2 & He2 & Hl2 & Hm2 & Hv2).
  unfold heap_step. split; [congruence|]. split; [congruence|].
  split; [congruence|]. split.
  - intros p. rewrite Hm2. apply Hm1.
  - intros p. rewrite Hv2. apply Hv1.
Qed.

Lemma heap_small_step gc gc' : heap_step gc gc' -> heap_small gc -> heap_small gc'.
Proof. intros (_ & _ & Hl & _) Hs. unfold heap_small in *. rewrite Hl. exact Hs. Qed.

Lemma heap_at_nat gc (i : nat) p :
  heap gc !! i = Some p -> heap_at (Z.of_nat i) gc = Ret p.
Proof.
  intros Hp. unfold heap_at.
  destruct (Z.ltb_spec (Z.of_nat i) 0); [lia|]. rewrite Nat2Z.id, Hp. reflexivity.
Qed.

Lemma view_set_index i s : view (set_index i s) = view s.
Proof. reflexivity. Qed.

Lemma gc_Less_ok gc (i j : nat) :
  heap_indexed gc ->
  (i < length (heap gc))%nat -> (j < length (heap gc))%nat ->
  exists b, gc_Less (Z.of_nat i) (Z.of_nat j) gc = Ret b.
Proof.
  intros Hix Hi Hj.
  destruct (lookup_lt_is_Some_2 _ _ Hi) as [pi Hpi].
  destruct (lookup_lt_is_Some_2 _ _ Hj) as [pj Hpj].
  destruct (Hix _ _ Hpi) as (si & Hsi & _).
  destruct (Hix _ _ Hpj) as (sj & Hsj & _).
  unfold gc_Less. rewrite (heap_at_nat _ _ _ Hpi), bind_Ret.
  rewrite (heap_at_nat _ _ _ Hpj), bind_Ret.
  unfold deref. rewrite Hsi, bind_Ret, Hsj, bind_Ret. eauto.
Qed.

Lemma gc_Swap_ok gc (i j : nat) :
  heap_indexed gc ->
  (i < length (heap gc))%nat -> (j < length (heap gc))%nat ->
  exists gc', gc_Swap (Z.of_nat i) (Z.of_nat j) gc = Ret gc'
              /\ heap_indexed gc' /\ heap_step gc gc'.
Proof.
  intros Hix Hi Hj.
  destruct (lookup_lt_is_Some_2 _ _ Hi) as [pi Hpi].
  destruct (lookup_lt_is_Some_2 _ _ Hj) as [pj Hpj].
  destruct (Hix _ _ Hpi) as (si & Hsi & Hii).
  destruct (Hix _ _ Hpj) as (sj & Hsj & Hjj).
  assert (Hinj : forall (a b : nat) p, heap gc !! a = Some p -> heap gc !! b = Some p -> a = b).
  { intros a b p Ha Hb. destruct (Hix _ _ Ha) as (s1 & Hs1 & H1).
    destruct (Hix _ _ Hb) as (s2 & Hs2 & H2). rewrite Hs1 in Hs2.
    injection Hs2 as <-. lia. }
  unfold gc_Swap. rewrite (heap_at_nat _ _ _ Hpi), bind_Ret.
  rewrite (heap_at_nat _ _ _ Hpj), bind_Ret. rewrite !Nat2Z.id.
  unfold deref, modify. simpl. rewrite Hsj, bind_Ret. simpl.
  rewrite lookup_alter. rewrite Hsj.
  assert (Hpi' : exists si', (if decide (pj = pi) then set_index (Z.of_nat i) <$> Some sj
                              else store gc !! pi) = Some si').
  { destruct (decide (pj = pi)); [simpl; eauto | rewrite Hsi; eauto]. }
  destruct Hpi' as [si' Hsi']. rewrite Hsi', bind_Ret.
  eexists. split; [reflexivity|].
  set (h' := <[j := pi]> (<[i := pj]> (heap gc))).
  assert (Hh' : forall k, h' !! k = if decide (k = j) then Some pi
                                    else if decide (k = i) then Some pj
                                    else heap gc !! k).
  { intros k. unfold h'. rewrite list_lookup_insert.
    rewrite length_insert.
    destruct (decide (j = k /\ (j < length (heap gc))%nat)) as [[-> _]|Hn].
    - rewrite decide_True by reflexivity. reflexivity.
    - rewrite decide_False by (intros ->; apply Hn; auto).
      rewrite list_lookup_insert.
      destruct (decide (i = k /\ (i < length (heap gc))%nat)) as [[-> _]|Hn'].
      + rewrite decide_True by reflexivity. reflexivity.
      + rewrite decide_False by (intros ->; apply Hn'; auto). reflexivity. }
  split.
  - (* the indices follow the swap *)
    intros k p Hk. simpl in Hk. fold h' in Hk. rewrite Hh' in Hk. simpl.
    rewrite !lookup_alter.
    destruct (decide (k = j)) as [->|Hkj].
    + injection Hk as <-. rewrite decide_True by reflexivity.
      destruct (decide (pj = pi)) as [->|Hne].
      * rewrite Hsj. simpl. eauto.
      * rewrite Hsi. simpl. eauto.
    + destruct (decide (k = i)) as [->|Hki].
      * injection Hk as <-.
        assert (pi <> pj) by (intros ->; apply Hkj; eapply Hinj; eauto).
        rewrite decide_False by assumption.
        rewrite decide_True by reflexivity. rewrite Hsj. simpl. eauto.
      * assert (pi <> p) by (intros ->; apply Hki; eapply Hinj; eauto).
        assert (pj <> p) by (intros ->; apply Hkj; eapply Hinj; eauto).
        rewrite !decide_False by assumption. apply Hix. exact Hk.
  - unfold heap_step. simpl. fold h'.
    split; [reflexivity|]. split; [reflexivity|].
    split; [unfold h'; rewrite !length_insert; reflexivity|].
    split.
    + intros p. rewrite !list_elem_of_lookup. split.
      * intros [k Hk]. rewrite Hh' in Hk.
        destruct (decide (k = j)); [injection Hk as <-; eauto|].
        destruct (decide (k = i)); [injection Hk as <-; eauto|]. eauto.
      * intros [k Hk].
        destruct (decide (k = i)) as [->|Hki].
        { exists j. rewrite Hh', decide_True by reflexivity. by simplify_eq. }
        destruct (decide (k = j)) as [->|Hkj].
        { exists i. rewrite Hh', decide_False by auto. rewrite decide_True by reflexivity.
          by simplify_eq. }
        exists k. rewrite Hh', !decide_False by assumption. exact Hk.
    + intros p. unfold sview. simpl. rewrite !lookup_alter.
      destruct (decide (pi = p)) as [<-|].
      * destruct (decide (pj = pi)) as [->|].
        -- rewrite Hsj. reflexivity.
        -- rewrite Hsi. reflexivity.
      * destruct (decide (pj = p)) as [<-|]; [|reflexivity].
        rewrite Hsj. reflexivity.
Qed.

Lemma add64_small a b :
  - 2 ^ 63 <= a + b < 2 ^ 63 -> add64 a b = a + b.
Proof.
  intros Hr. apply wrap64_id. unfold in_int64, int64_min, int64_max. lia.
Qed.

Lemma child_index (i : nat) :
  Z.of_nat i < 2 ^ 62 -> add64 (mul64 2 (Z.of_nat i)) 1 = Z.of_nat (2 * i + 1).
Proof.
  intros Hi. unfold mul64. rewrite wrap64_id
    by (unfold in_int64, int64_min, int64_max; lia).
  rewrite add64_small by lia. lia.
Qed.

Ltac heap_methods := cbn [Less Swap Len collector_sort].

Lemma down_loop_S (fuel : nat) (i n : Z) (gc : collector) :
  down_loop (S fuel) i n gc =
  let j1 := add64 (mul64 2 i) 1 in
  if (j1 >=? n) || (j1 <? 0) then Ret (gc, i)
  else
    j ← (if add64 j1 1 <? n
         then lt ← gc_Less (add64 j1 1) j1 gc; Ret (if (lt : bool) then add64 j1 1 else j1)
         else Ret j1);
    lt ← gc_Less j i gc;
    if negb lt then Ret (gc, i)
    else gc' ← gc_Swap i j gc; down_loop fuel j n gc'.
Proof. reflexivity. Qed.

Lemma up_loop_S (fuel : nat) (j : Z) (gc : collector) :
  up_loop (S fuel) j gc =
  let i := Z.quot (add64 j (-1)) 2 in
  if i =? j then Ret gc
  else
    lt ← gc_Less j i gc;
    if negb lt then Ret gc
    else gc' ← gc_Swap i j gc; up_loop fuel i gc'.
Proof. reflexivity. Qed.

Lemma down_loop_ok :
  forall (fuel : nat) (gc : collector) (i n : nat),
  heap_indexed gc -> heap_small gc ->
  (n <= length (heap gc))%nat -> (i <= length (heap gc))%nat ->
  (n - i < fuel)%nat ->
  exists gc' i', down_loop fuel (Z.of_nat i) (Z.of_nat n) gc = Ret (gc', i')
                 /\ heap_indexed gc' /\ heap_step gc gc'.
Proof.
  induction fuel as [|fuel IH]; intros gc i n Hix Hsm Hn Hi Hfuel; [lia|].
  rewrite down_loop_S. cbv zeta.
  rewrite child_index by (unfold heap_small in Hsm; lia).
  destruct (Z.geb_spec (Z.of_nat (2 * i + 1)) (Z.of_nat n)) as [Hge|Hlt].
  { cbn [orb]. exists gc, (Z.of_nat i). auto using heap_step_refl. }
  destruct (Z.ltb_spec (Z.of_nat (2 * i + 1)) 0) as [|_]; [lia|]. cbn [orb].
  rewrite add64_small by (unfold heap_small in Hsm; lia).
  replace (Z.of_nat (2 * i + 1) + 1) with (Z.of_nat (2 * i + 2)) by lia.
  assert (Hj : exists j : nat,
            (if Z.of_nat (2 * i + 2) <? Z.of_nat n
             then lt ← gc_Less (Z.of_nat (2 * i + 2)) (Z.of_nat (2 * i + 1)) gc;
                  Ret (if (lt : bool) then Z.of_nat (2 * i + 2)
                       else Z.of_nat (2 * i + 1))
             else Ret (Z.of_nat (2 * i + 1))) = Ret (Z.of_nat j)
            /\ (i < j)%nat /\ (j < n)%nat).
  { destruct (Z.ltb_spec (Z.of_nat (2 * i + 2)) (Z.of_nat n)) as [Hlt2|].
    - destruct (gc_Less_ok gc (2 * i + 2) (2 * i + 1) Hix ltac:(lia) ltac:(lia))
        as [b Hb].
      rewrite Hb, bind_Ret. destruct b.
      + exists (2 * i + 2)%nat. split; [reflexivity | lia].
      + exists (2 * i + 1)%nat. split; [reflexivity | lia].
    - exists (2 * i + 1)%nat. split; [reflexivity | lia]. }
  destruct Hj as (j & -> & Hij & Hjn). rewrite bind_Ret.
  destruct (gc_Less_ok gc j i Hix ltac:(lia) ltac:(lia)) as [b Hb].
  rewrite Hb, bind_Ret. destruct b; cbn [negb].
  2:{ exists gc, (Z.of_nat i). auto using heap_step_refl. }
  destruct (gc_Swap_ok gc i j Hix ltac:(lia) ltac:(lia)) as (gc1 & Hsw & Hix1 & Hst1).
  rewrite Hsw, bind_Ret.
  assert (Hlen : length (heap gc1) = length (heap gc)) by apply Hst1.
  destruct (IH gc1 j n Hix1 (heap_small_step _ _ Hst1 Hsm) ltac:(lia) ltac:(lia)
              ltac:(lia)) as (gc' & i' & Hd & Hix' & Hst').
  exists gc', i'. split; [exact Hd|]. split; [exact Hix'|].
  eapply heap_step_trans; eassumption.
Qed.

Lemma up_loop_ok :
  forall (fuel : nat) (gc : collector) (j : nat),
  heap_indexed gc -> heap_small gc ->
  (j < length (heap gc))%nat -> (j < fuel)%nat ->
  exists gc', up_loop fuel (Z.of_nat j) gc = Ret gc'
              /\ heap_indexed gc' /\ heap_step gc gc'.
Proof.
  induction fuel as [|fuel IH]; intros gc j Hix Hsm Hj Hfuel; [lia|].
  rewrite up_loop_S. cbv zeta.
  rewrite add64_small by (unfold heap_small in Hsm; lia).
  destruct j as [|j].
  { exists gc. auto using heap_step_refl. }
  assert (Hpar : Z.quot (Z.of_nat (S j) + -1) 2 = Z.of_nat (j / 2)).
  { rewrite Z.quot_div_nonneg by lia. rewrite Nat2Z.inj_div. f_equal. lia. }
  rewrite Hpar.
  assert (Hlt : (j / 2 < S j)%nat).
  { pose proof (Nat.Div0.div_le_upper_bound j 2 j). lia. }
  destruct (Z.eqb_spec (Z.of_nat (j / 2)) (Z.of_nat (S j))) as [|_]; [lia|].
  destruct (gc_Less_ok gc (S j) (j / 2) Hix ltac:(lia) ltac:(lia)) as [b Hb].
  rewrite Hb, bind_Ret. destruct b; cbn [negb].
  2:{ exists gc. auto using heap_step_refl. }
  destruct (gc_Swap_ok gc (j / 2) (S j) Hix ltac:(lia) ltac:(lia))
    as (gc1 & Hsw & Hix1 & Hst1).
  rewrite Hsw, bind_Ret.
  assert (Hlen : length (heap gc1) = length (heap gc)) by apply Hst1.
  destruct (IH gc1 (j / 2)%nat Hix1 (heap_small_step _ _ Hst1 Hsm) ltac:(lia)
              ltac:(lia)) as (gc' & Hu & Hix' & Hst').
  exists gc'. split; [exact Hu|]. split; [exact Hix'|].
  eapply heap_step_trans; eassumption.
Qed.

(** [heap.Fix] at a valid index neither panics nor runs out of steps; it
    keeps [heap[i].index == i] and changes nothing but the order of the
    heap array and the stored indices. *)
Lemma Fix_ok (gc : collector) (i : nat) :
  heap_indexed gc -> heap_small gc -> (i < length (heap gc))%nat ->
  exists gc', Fix (Z.of_nat i) gc = Ret gc' /\ heap_indexed gc' /\ heap_step gc gc'.
Proof.
  intros Hix Hsm Hi. unfold Fix, down. heap_methods. unfold gc_Len.
  rewrite Nat2Z.id.
  destruct (down_loop_ok (S (length (heap gc))) gc i (length (heap gc)) Hix Hsm
              ltac:(lia) ltac:(lia) ltac:(lia)) as (gc1 & i' & Hd & Hix1 & Hst1).
  rewrite Hd, !bind_Ret.
  destruct (negb (i' >? Z.of_nat i)).
  - assert (Hlen : length (heap gc1) = length (heap gc)) by apply Hst1.
    unfold up. rewrite Nat2Z.id.
    destruct (up_loop_ok (S i) gc1 i Hix1 (heap_small_step _ _ Hst1 Hsm) ltac:(lia)
                ltac:(lia)) as (gc' & Hu & Hix' & Hst').
    exists gc'. split; [exact Hu|]. split; [exact Hix'|].
    eapply heap_step_trans; eassumption.
  - exists gc1. auto.
Qed.

End CollectorHeapFacts.

(** ** Stream collector: one tick *)

Section CollectorDoFacts.
Import Cmn GoHeap Transport Samples.

Variables tickUnit tickMarker : Z.

Lemma deref_Some gc p s : store gc !! p = Some s -> deref p gc = Ret s.
Proof. intros Hs. unfold deref. rewrite Hs. reflexivity. Qed.

Lemma sview_Some gc p v :
  sview gc p = Some v -> exists s, store gc !! p = Some s /\ view s = v.
Proof.
  unfold sview. destruct (store gc !! p) as [s|]; [|discriminate].
  intros [= <-]. eauto.
Qed.

(** A state that differs from [gc] by the map entry, the events and the
    stream stored at [p], whose index is kept. *)
Lemma stream_step_intro gc gc' p s s' g del evs :
  heap_indexed gc ->
  store gc !! p = Some s ->
  heap gc' = heap gc ->
  streams gc' = match del with Some k => delete k (streams gc) | None => streams gc end ->
  events gc' = events gc ++ evs ->
  store gc' !! p = Some s' ->
  time_index s' = time_index s -> view s' = g (view s) ->
  (forall q, q <> p -> store gc' !! q = store gc !! q) ->
  stream_step gc gc' p g del evs.
Proof.
  intros Hix Hs Hh Hst Hev Hs' Hidx Hview Hoth. unfold stream_step.
  split.
  { intros i q Hq. rewrite Hh in Hq. destruct (Hix i q Hq) as (sq & Hsq & Hi).
    destruct (decide (q = p)) as [->|Hne].
    - exists s'. split; [exact Hs'|]. rewrite Hidx.
      rewrite Hs in Hsq. injection Hsq as <-. exact Hi.
    - exists sq. rewrite (Hoth q Hne). auto. }
  split; [rewrite Hh; reflexivity|].
  split; [intros q; rewrite Hh; reflexivity|].
  split; [exact Hst|]. split; [exact Hev|].
  intros q. unfold sview. destruct (decide (q = p)) as [->|Hne].
  - rewrite Hs', Hs. simpl. rewrite Hview. reflexivity.
  - rewrite (Hoth q Hne). reflexivity.
Qed.

Lemma stream_step_heap gc gc1 gc2 p g del evs :
  stream_step gc gc1 p g del evs -> heap_indexed gc2 -> heap_step gc1 gc2 ->
  stream_step gc gc2 p g del evs.
Proof.
  intros (Hix & Hl & Hm & Hst & Hev & Hv) Hix2 (Hs2 & He2 & Hl2 & Hm2 & Hv2).
  unfold stream_step. split; [exact Hix2|]. split; [congruence|].
  split; [intros q; rewrite Hm2; apply Hm|].
  split; [congruence|]. split; [congruence|].
  intros q. rewrite Hv2. apply Hv.
Qed.

Lemma stream_step_id gc p g :
  heap_indexed gc ->
  (forall v, sview gc p = Some v -> g v = v) ->
  stream_step gc gc p g None [].
Proof.
  intros Hix Hg. unfold stream_step. split; [exact Hix|].
  split; [reflexivity|]. split; [reflexivity|]. split; [reflexivity|].
  split; [rewrite app_nil_r; reflexivity|].
  intros q. destruct (decide (q = p)) as [->|]; [|reflexivity].
  destruct (sview gc p) as [v|] eqn:Hv; [|reflexivity]. simpl. rewrite (Hg v eq_refl).
  reflexivity.
Qed.

(** [gc.update(s, ticks)] for a stream in the heap and [ticks >= 0]. *)
Lemma gc_update_step gc p s ticks :
  heap_indexed gc -> heap_small gc -> store gc !! p = Some s -> p ∈ heap gc ->
  0 <= ticks ->
  exists gc', gc_update p ticks gc = Ret gc'
              /\ stream_step gc gc' p (set_ticks ticks) None [].
Proof.
  intros Hix Hsm Hs Hin Hticks.
  apply list_elem_of_lookup in Hin as [i Hi].
  destruct (Hix i p Hi) as (s0 & Hs0 & Hidx). rewrite Hs in Hs0. injection Hs0 as <-.
  unfold gc_update. rewrite (deref_Some _ _ _ Hs), bind_Ret.
  destruct (Z.geb_spec ticks 0) as [_|]; [|lia]. cbn [negb].
  assert (Hs1 : store (modify p (set_ticks ticks) gc) !! p = Some (set_ticks ticks s)).
  { unfold modify. simpl. rewrite lookup_alter_eq, Hs. reflexivity. }
  rewrite (deref_Some _ _ _ Hs1), bind_Ret. cbn [time_index set_ticks].
  assert (Hstep1 : stream_step gc (modify p (set_ticks ticks) gc) p (set_ticks ticks) None []).
  { eapply (stream_step_intro gc _ p s (set_ticks ticks s)); try reflexivity; try assumption.
    - simpl. rewrite app_nil_r. reflexivity.
    - intros q Hq. unfold modify. simpl. apply lookup_alter_ne. auto. }
  rewrite Hidx.
  destruct (Fix_ok (modify p (set_ticks ticks) gc) i) as (gc' & HF & Hix' & Hst').
  - apply Hstep1.
  - exact Hsm.
  - simpl. eapply lookup_lt_Some. exact Hi.
  - exists gc'. split; [exact HF|]. eapply stream_step_heap; eassumption.
Qed.

Lemma stream_step_ext gc gc' p g g' del evs :
  (forall v, sview gc p = Some v -> g v = g' v) ->
  stream_step gc gc' p g del evs -> stream_step gc gc' p g' del evs.
Proof.
  intros Hg (Hix & Hl & Hm & Hst & Hev & Hv). unfold stream_step.
  repeat (split; [assumption|]).
  intros q. rewrite Hv. destruct (decide (q = p)); [|reflexivity].
  destruct (sview gc p) as [v|]; [|reflexivity]. simpl. rewrite (Hg v eq_refl).
  reflexivity.
Qed.

Lemma stream_step_trans gc gc1 gc2 p g1 g2 del evs :
  stream_step gc gc1 p g1 None [] -> stream_step gc1 gc2 p g2 del evs ->
  stream_step gc gc2 p (g2 ∘ g1) del evs.
Proof.
  intros (Hix1 & Hl1 & Hm1 & Hst1 & Hev1 & Hv1) (Hix2 & Hl2 & Hm2 & Hst2 & Hev2 & Hv2).
  unfold stream_step. split; [exact Hix2|]. split; [congruence|].
  split; [intros q; rewrite Hm2; apply Hm1|].
  split; [rewrite Hst2, Hst1; reflexivity|].
  split; [rewrite Hev2, Hev1, app_nil_r; reflexivity|].
  intros q. rewrite Hv2. destruct (decide (q = p)) as [->|].
  - rewrite Hv1. rewrite decide_True by reflexivity.
    destruct (sview gc p); reflexivity.
  - rewrite Hv1. rewrite decide_False by assumption. reflexivity.
Qed.

(** The first loop of [do] on one stream. *)
Lemma do_first_step gc p s :
  heap_indexed gc -> heap_small gc -> store gc !! p = Some s ->
  (expires s = true -> workCh_closed s = false) ->
  (terminated s = false -> sessST s = active ->
     1 <= time_ticks s <= int64_max /\ p ∈ heap gc) ->
  exists gc', do_first p gc = Ret gc'
    /\ stream_step gc gc' p first_view
         (if expires s then Some (lid s) else None) (first_events p s).
Proof.
  intros Hix Hsm Hs Hclosed Hready.
  unfold do_first. rewrite (deref_Some _ _ _ Hs), bind_Ret.
  destruct (terminated s) eqn:Ht.
  - set (t := add64 (time_ticks s) (-1)).
    assert (Hs1 : store (modify p (set_ticks t) gc) !! p = Some (set_ticks t s)).
    { unfold modify. simpl. rewrite lookup_alter_eq, Hs. reflexivity. }
    rewrite (deref_Some _ _ _ Hs1), bind_Ret. cbn [time_ticks set_ticks workCh_closed
      lid workCh term_err].
    assert (Hexp : expires s = (t <=? 0)) by (unfold expires; rewrite Ht; reflexivity).
    unfold first_events. rewrite Hexp.
    destruct (t <=? 0) eqn:Hle.
    + rewrite (Hclosed Hexp).
      eexists. split; [reflexivity|].
      eapply (stream_step_intro gc _ p s); try eassumption.
      * reflexivity.
      * reflexivity.
      * simpl. rewrite <- app_assoc. reflexivity.
      * unfold modify, emit, set_streams. simpl.
        rewrite !lookup_alter_eq, Hs. reflexivity.
      * reflexivity.
      * unfold first_view, view. simpl. rewrite Ht. unfold expires. simpl.
        rewrite Ht. fold t. rewrite Hle. reflexivity.
      * intros q Hq. unfold modify, emit, set_streams. simpl.
        rewrite !lookup_alter_ne by auto. reflexivity.
    + eexists. split; [reflexivity|].
      eapply (stream_step_intro gc _ p s); try eassumption.
      * reflexivity.
      * reflexivity.
      * simpl. rewrite app_nil_r. reflexivity.
      * reflexivity.
      * unfold first_view, view. simpl. rewrite Ht. unfold expires. simpl.
        rewrite Ht. fold t. rewrite Hle. reflexivity.
      * intros q Hq. unfold modify. simpl. rewrite lookup_alter_ne by auto. reflexivity.
  - assert (Hexp : expires s = false) by (unfold expires; rewrite Ht; reflexivity).
    unfold first_events. rewrite Hexp.
    destruct (decide (sessST s = active)) as [Hact|Hina].
    + destruct (Hready eq_refl Hact) as [Hticks Hin].
      assert (Hdec : add64 (time_ticks s) (-1) = time_ticks s - 1).
      { rewrite add64_small; unfold int64_max in *; lia. }
      destruct (gc_update_step gc p s (add64 (time_ticks s) (-1)) Hix Hsm Hs Hin
                  ltac:(lia)) as (gc' & Hup & Hstep).
      exists gc'. split; [exact Hup|].
      eapply stream_step_ext; [|exact Hstep].
      intros v Hv. apply sview_Some in Hv as (s0 & Hs0 & <-).
      rewrite Hs in Hs0. injection Hs0 as <-.
      unfold first_view, view. simpl. rewrite Ht.
      rewrite decide_True by exact Hact. reflexivity.
    + exists gc. split; [reflexivity|].
      apply stream_step_id; [exact Hix|].
      intros v Hv. apply sview_Some in Hv as (s0 & Hs0 & <-).
      rewrite Hs in Hs0. injection Hs0 as <-.
      unfold first_view, view. simpl. rewrite Ht.
      rewrite decide_False by exact Hina. reflexivity.
Qed.

(** The second loop of [do] on one stream. *)
Lemma do_second_step gc p s :
  heap_indexed gc -> heap_small gc -> store gc !! p = Some s ->
  (time_ticks s <= 0 ->
     p ∈ heap gc /\ 0 <= Z.quot (time_idleOut s) tickUnit /\ workCh_closed s = false) ->
  exists gc', do_second tickUnit tickMarker p gc = Ret gc'
    /\ stream_step gc gc' p (second_view tickUnit tickMarker) None [].
Proof.
  intros Hix Hsm Hs Hidle.
  unfold do_second. rewrite (deref_Some _ _ _ Hs), bind_Ret.
  destruct (Z.gtb_spec (time_ticks s) 0) as [Hpos|Hle].
  { exists gc. split; [reflexivity|].
    apply stream_step_id; [exact Hix|].
    intros v Hv. apply sview_Some in Hv as (s0 & Hs0 & <-).
    rewrite Hs in Hs0. injection Hs0 as <-.
    unfold second_view, view. simpl.
    destruct (Z.gtb_spec (time_ticks s) 0); [reflexivity | lia]. }
  destruct (Hidle Hle) as (Hin & Hq & Hopen).
  destruct (gc_update_step gc p s _ Hix Hsm Hs Hin Hq) as (gc1 & Hup & Hstep1).
  rewrite Hup, bind_Ret.
  assert (Hv1 : sview gc1 p = Some (set_ticks (Z.quot (time_idleOut s) tickUnit) (view s))).
  { destruct Hstep1 as (_ & _ & _ & _ & _ & Hv). rewrite Hv.
    rewrite decide_True by reflexivity. unfold sview. rewrite Hs. reflexivity. }
  apply sview_Some in Hv1 as (s1 & Hs1 & Hview1).
  rewrite (deref_Some _ _ _ Hs1), bind_Ret.
  assert (Hix1 : heap_indexed gc1) by apply Hstep1.
  assert (Hposted : time_posted s1 = time_posted s)
    by (apply (f_equal time_posted) in Hview1; exact Hview1).
  assert (Hwork : workCh s1 = workCh s)
    by (apply (f_equal workCh) in Hview1; exact Hview1).
  assert (Hsess : sessST s1 = sessST s)
    by (apply (f_equal sessST) in Hview1; exact Hview1).
  assert (Hcl : workCh_closed s1 = workCh_closed s)
    by (apply (f_equal workCh_closed) in Hview1; exact Hview1).
  rewrite Hposted, Hwork, Hsess, Hcl, Hopen.
  assert (Hfin : forall (F : Stream -> Stream) gc2,
            gc2 = modify p F gc1 ->
            (forall x, time_index (F x) = time_index x) ->
            (forall x, view (F x) = F (view x)) ->
            F (set_ticks (Z.quot (time_idleOut s) tickUnit) (view s))
              = second_view tickUnit tickMarker (view s) ->
            stream_step gc gc2 p (second_view tickUnit tickMarker) None []).
  { intros F gc2 -> HFi HFv HF.
    eapply stream_step_ext; [|eapply (stream_step_trans gc gc1 _ p _ F); [exact Hstep1|]].
    - intros v Hv. apply sview_Some in Hv as (s0 & Hs0 & <-).
      rewrite Hs in Hs0. injection Hs0 as <-. exact HF.
    - eapply (stream_step_intro gc1 _ p s1 (F s1)); try eassumption; try reflexivity.
      + simpl. rewrite app_nil_r. reflexivity.
      + unfold modify. simpl. rewrite lookup_alter_eq, Hs1. reflexivity.
      + apply HFi.
      + apply HFv.
      + intros q Hne. unfold modify. simpl. apply lookup_alter_ne. auto. }
  assert (Hsv : forall x, second_view tickUnit tickMarker (view s) = x ->
                  second_view tickUnit tickMarker (view s) = x) by auto.
  destruct (Z.gtb_spec (time_posted s) 0) as [Hp|Hp].
  { eexists. split; [reflexivity|].
    apply (Hfin (set_posted 0)); try reflexivity.
    unfold second_view, view. simpl.
    destruct (Z.gtb_spec (time_ticks s) 0); [lia|].
    destruct (Z.gtb_spec (time_posted s) 0); [reflexivity | lia]. }
  destruct ((Z.of_nat (length (workCh s)) =? 0) && bool_decide (sessST s = active)) eqn:Hq0.
  - eexists. split; [reflexivity|].
    unfold modify. simpl. rewrite !alter_alter_eq.
    apply (Hfin (set_workCh (workCh s ++ [tickMarkerObj tickMarker]) false
                   ∘ set_sessST inactive ∘ set_posted 0)); try reflexivity.
    unfold second_view, view. simpl.
    destruct (Z.gtb_spec (time_ticks s) 0); [lia|].
    destruct (Z.gtb_spec (time_posted s) 0); [lia|].
    rewrite Hq0. reflexivity.
  - eexists. split; [reflexivity|].
    apply (Hfin (set_posted 0)); try reflexivity.
    unfold second_view, view. simpl.
    destruct (Z.gtb_spec (time_ticks s) 0); [lia|].
    destruct (Z.gtb_spec (time_posted s) 0); [lia|].
    rewrite Hq0. reflexivity.
Qed.

End CollectorDoFacts.

(** ** Stream collector: ranging over the registered streams *)

Section CollectorRangeFacts.
Import Cmn GoHeap Transport Samples.

Variable tickUnit : Z.

Lemma registered_inj gc k k' p :
  collector_ok tickUnit gc ->
  streams gc !! k = Some p -> streams gc !! k' = Some p -> k = k'.
Proof.
  intros Hok Hk Hk'.
  destruct (ok_lid _ _ Hok k p Hk) as (v & Hv & <-).
  destruct (ok_lid _ _ Hok k' p Hk') as (v' & Hv' & <-).
  congruence.
Qed.

Lemma events_of_app p gc gc' evs :
  events gc' = events gc ++ evs ->
  events_of p gc' = events_of p gc ++ List.filter (about p) evs.
Proof. intros He. unfold events_of. rewrite He. apply List.filter_app. Qed.

(** A step on a registered stream keeps the collector well formed when
    it either removes the stream's entry or keeps the stream's lid, idle
    timeout, termination flag and open queue. *)
Lemma collector_ok_step gc gc' k p v g (dl : bool) evs :
  collector_ok tickUnit gc ->
  streams gc !! k = Some p -> sview gc p = Some v ->
  stream_step gc gc' p g (if dl then Some k else None) evs ->
  (dl = false ->
     lid (g v) = lid v /\ (workCh_closed v = false -> workCh_closed (g v) = false)
     /\ time_idleOut (g v) = time_idleOut v /\ terminated (g v) = terminated v) ->
  collector_ok tickUnit gc'.
Proof.
  intros Hok Hk Hv (Hix & Hl & Hm & Hst & Hev & Hsv) Hg.
  assert (Hreg : forall k' p', streams gc' !! k' = Some p' ->
            streams gc !! k' = Some p' /\ (dl = true -> k' <> k)).
  { intros k' p' Hk'. rewrite Hst in Hk'. destruct dl.
    - apply lookup_delete_Some in Hk' as [Hne Hk']. auto.
    - split; [exact Hk' | discriminate]. }
  assert (Hsame : forall k' p' v', streams gc' !! k' = Some p' -> sview gc' p' = Some v' ->
            exists v0, sview gc p' = Some v0 /\ lid v' = lid v0
                       /\ workCh_closed v' = false
                       /\ time_idleOut v' = time_idleOut v0
                       /\ terminated v' = terminated v0).
  { intros k' p' v' Hk' Hv'. destruct (Hreg k' p' Hk') as [Hk0 Hne].
    rewrite Hsv in Hv'. destruct (decide (p' = p)) as [->|Hp].
    - rewrite Hv in Hv'. simpl in Hv'. injection Hv' as <-.
      assert (k' = k) as -> by (eapply registered_inj; eassumption).
      destruct dl; [exfalso; apply Hne; reflexivity|].
      destruct (Hg eq_refl) as (H1 & H2 & H3 & H4).
      specialize (H2 (ok_open _ _ Hok k p v Hk Hv)). exists v. auto.
    - exists v'. split; [exact Hv'|]. split; [reflexivity|].
      split; [eapply (ok_open _ _ Hok); eassumption|]. auto. }
  split.
  - exact Hix.
  - unfold heap_small in *. rewrite Hl. apply (ok_small _ _ Hok).
  - intros k' p' Hk'. destruct (Hreg k' p' Hk') as [Hk0 Hne].
    destruct (ok_lid _ _ Hok k' p' Hk0) as (v0 & Hv0 & Hlid).
    rewrite Hsv. destruct (decide (p' = p)) as [->|Hp].
    + rewrite Hv. simpl. exists (g v). split; [reflexivity|].
      assert (k' = k) as -> by (eapply registered_inj; eassumption).
      destruct dl; [exfalso; apply Hne; reflexivity|].
      destruct (Hg eq_refl) as (H1 & _). rewrite H1.
      rewrite Hv in Hv0. injection Hv0 as <-. exact Hlid.
    + exists v0. auto.
  - intros k' p' v' Hk' Hv' Hterm.
    destruct (Hsame k' p' v' Hk' Hv') as (v0 & Hv0 & _ & _ & _ & Ht).
    apply Hm. eapply (ok_inheap _ _ Hok k' p' v0); [apply Hreg; exact Hk' | exact Hv0 |].
    congruence.
  - intros k' p' v' Hk' Hv'.
    destruct (Hsame k' p' v' Hk' Hv') as (v0 & _ & _ & Hc & _). exact Hc.
  - intros k' p' v' Hk' Hv'.
    destruct (Hsame k' p' v' Hk' Hv') as (v0 & Hv0 & _ & _ & Hi & _). rewrite Hi.
    eapply (ok_idle _ _ Hok k' p' v0); [apply Hreg; exact Hk' | exact Hv0].
Qed.

Section Range.
Variable body : nat -> collector -> Res collector.
Variable g : Stream -> Stream.
Variable dl : Stream -> bool.
Variable ev : nat -> Stream -> list Event.
Variable pre : Stream -> Prop.

Hypothesis body_step :
  forall gc k p v,
    collector_ok tickUnit gc -> streams gc !! k = Some p -> sview gc p = Some v ->
    pre v ->
    exists gc', body p gc = Ret gc'
                /\ stream_step gc gc' p g (if dl v then Some k else None) (ev p v).
Hypothesis g_keeps :
  forall v, dl v = false ->
    lid (g v) = lid v /\ (workCh_closed v = false -> workCh_closed (g v) = false)
    /\ time_idleOut (g v) = time_idleOut v /\ terminated (g v) = terminated v.
Hypothesis ev_about :
  forall p q v, List.filter (about q) (ev p v) = if decide (q = p) then ev p v else [].

(** Ranging over the map in the order [ord]: every registered stream
    whose key is in [ord] is stepped exactly once, the others are left
    alone. *)
Lemma range_streams_ok :
  forall (ord : list string) (gc : collector),
  NoDup ord -> collector_ok tickUnit gc ->
  (forall k p v, k ∈ ord -> streams gc !! k = Some p -> sview gc p = Some v -> pre v) ->
  exists gc',
    range_streams body ord gc = Ret gc'
    /\ collector_ok tickUnit gc'
    /\ (forall k p v, streams gc !! k = Some p -> sview gc p = Some v ->
          (k ∈ ord ->
             sview gc' p = Some (g v)
             /\ streams gc' !! k = (if dl v then None else Some p)
             /\ events_of p gc' = events_of p gc ++ ev p v)
          /\ (k ∉ ord ->
             sview gc' p = Some v /\ streams gc' !! k = Some p
             /\ events_of p gc' = events_of p gc))
    /\ (forall k, streams gc !! k = None -> streams gc' !! k = None)
    /\ (forall p, (forall k, streams gc !! k <> Some p) ->
          sview gc' p = sview gc p /\ events_of p gc' = events_of p gc).
Proof.
  induction ord as [|k0 ord IH]; intros gc Hnd Hok Hpre.
  { exists gc. split; [reflexivity|]. split; [exact Hok|].
    split.
    { intros k p v Hk Hv. split.
      - intros Hin. apply elem_of_nil in Hin. contradiction.
      - auto. }
    auto. }
  apply NoDup_cons in Hnd as [Hk0 Hnd]. simpl.
  destruct (streams gc !! k0) as [p0|] eqn:Hp0.
  2:{ destruct (IH gc Hnd Hok) as (gc' & Hrun & Hok' & Hreg & Hnone & Hunreg).
      { intros k p v Hin. apply Hpre. apply elem_of_cons. auto. }
      exists gc'. split; [exact Hrun|]. split; [exact Hok'|].
      split; [|auto].
      intros k p v Hk Hv. destruct (Hreg k p v Hk Hv) as [Hin Hout].
      assert (k <> k0) by congruence.
      split.
      - intros Hc. apply elem_of_cons in Hc as [->|Hc]; [contradiction|]. auto.
      - intros Hc. apply Hout. intros Hc'. apply Hc. apply elem_of_cons. auto. }
  destruct (ok_lid _ _ Hok k0 p0 Hp0) as (v0 & Hv0 & Hlid0).
  destruct (body_step gc k0 p0 v0 Hok Hp0 Hv0) as (gc1 & Hb & Hstep).
  { eapply Hpre; [apply elem_of_cons; left; reflexivity | eassumption..]. }
  rewrite Hb, bind_Ret.
  assert (Hok1 : collector_ok tickUnit gc1).
  { eapply collector_ok_step; try eassumption. apply g_keeps. }
  destruct Hstep as (_ & _ & _ & Hst1 & Hev1 & Hsv1).
  assert (Hstreams1 : forall k, k <> k0 -> streams gc1 !! k = streams gc !! k).
  { intros k Hne. rewrite Hst1. destruct (dl v0); [|reflexivity].
    apply lookup_delete_ne. auto. }
  assert (Hother : forall k p, k <> k0 -> streams gc !! k = Some p -> p <> p0).
  { intros k p Hne Hk ->. apply Hne. exact (registered_inj gc k k0 p0 Hok Hk Hp0). }
  assert (Hevs1 : forall q, events_of q gc1
                    = events_of q gc ++ (if decide (q = p0) then ev p0 v0 else [])).
  { intros q. rewrite (events_of_app q gc gc1 _ Hev1), ev_about. reflexivity. }
  destruct (IH gc1 Hnd Hok1) as (gc' & Hrun & Hok' & Hreg & Hnone & Hunreg).
  { intros k p v Hin Hk Hv.
    assert (Hne : k <> k0) by (intros ->; contradiction).
    rewrite (Hstreams1 k Hne) in Hk.
    rewrite Hsv1, decide_False in Hv by (eapply Hother; eassumption).
    eapply Hpre; [apply elem_of_cons; right; exact Hin | eassumption..]. }
  exists gc'. split; [exact Hrun|]. split; [exact Hok'|].
  assert (Hdone : sview gc' p0 = Some (g v0)
                  /\ streams gc' !! k0 = (if dl v0 then None else Some p0)
                  /\ events_of p0 gc' = events_of p0 gc ++ ev p0 v0).
  { assert (Hv1 : sview gc1 p0 = Some (g v0)).
    { rewrite Hsv1, decide_True by reflexivity. rewrite Hv0. reflexivity. }
    assert (He1 : events_of p0 gc1 = events_of p0 gc ++ ev p0 v0).
    { rewrite Hevs1, decide_True by reflexivity. reflexivity. }
    destruct (dl v0) eqn:Hdl.
    - assert (Hgone : forall k, streams gc1 !! k <> Some p0).
      { intros k Hk. rewrite Hst1 in Hk. apply lookup_delete_Some in Hk as [Hne Hk].
        apply Hne. exact (registered_inj gc k0 k p0 Hok Hp0 Hk). }
      destruct (Hunreg p0 Hgone) as [Hs He].
      split; [congruence|]. split; [|congruence].
      apply Hnone. rewrite Hst1. apply lookup_delete_eq.
    - assert (Hk1 : streams gc1 !! k0 = Some p0) by (rewrite Hst1; exact Hp0).
      destruct (Hreg k0 p0 (g v0) Hk1 Hv1) as [_ Hout].
      destruct (Hout Hk0) as (Hs & Hk' & He).
      split; [exact Hs|]. split; [exact Hk'|]. congruence. }
  split.
  { intros k p v Hk Hv. destruct (decide (k = k0)) as [->|Hne].
    - rewrite Hp0 in Hk. injection Hk as <-. rewrite Hv0 in Hv. injection Hv as <-.
      split; [intros _; exact Hdone|].
      intros Hc. exfalso. apply Hc. apply elem_of_cons. auto.
    - assert (Hp : p <> p0) by (eapply Hother; eassumption).
      assert (Hk1 : streams gc1 !! k = Some p) by (rewrite Hstreams1; assumption).
      assert (Hv1 : sview gc1 p = Some v)
        by (rewrite Hsv1, decide_False by exact Hp; exact Hv).
      assert (He1 : events_of p gc1 = events_of p gc).
      { rewrite Hevs1, decide_False by exact Hp. apply app_nil_r. }
      destruct (Hreg k p v Hk1 Hv1) as [Hin Hout]. rewrite <- He1.
      split.
      + intros Hc. apply elem_of_cons in Hc as [->|Hc]; [contradiction|]. auto.
      + intros Hc. apply Hout. intros Hc'. apply Hc. apply elem_of_cons. auto. }
  split.
  { intros k Hk. apply Hnone. destruct (decide (k = k0)) as [->|Hne]; [congruence|].
    rewrite Hstreams1; assumption. }
  intros p Hp.
  assert (Hne : p <> p0) by (intros ->; apply (Hp k0); exact Hp0).
  destruct (Hunreg p) as [Hs He].
  { intros k Hk. destruct (decide (k = k0)) as [->|Hk0'].
    - rewrite Hst1 in Hk. destruct (dl v0).
      + rewrite lookup_delete_eq in Hk. discriminate.
      + apply (Hp k0). exact Hk.
    - rewrite Hstreams1 in Hk by assumption. apply (Hp k). exact Hk. }
  rewrite Hs, He, Hsv1, Hevs1, !decide_False by exact Hne.
  rewrite app_nil_r. auto.
Qed.

End Range.

End CollectorRangeFacts.

(** ** Stream collector: what a tick does to a registered stream *)

Section CollectorTickFacts.
Import Cmn GoHeap Transport Samples.

Variables tickUnit tickMarker : Z.

Lemma first_events_about p q v :
  List.filter (about q) (first_events p v)
  = if decide (q = p) then first_events p v else [].
Proof.
  unfold first_events. destruct (expires v); [|destruct (decide (q = p)); reflexivity].
  cbn [List.filter about].
  destruct (decide (q = p)) as [->|Hne].
  - rewrite Nat.eqb_refl. f_equal.
    induction (workCh v) as [|o l IH]; [reflexivity|].
    cbn [map List.filter about]. rewrite Nat.eqb_refl, IH. reflexivity.
  - replace (p =? q)%nat with false by (symmetry; apply Nat.eqb_neq; auto).
    induction (workCh v) as [|o l IH]; [reflexivity|].
    cbn [map List.filter about].
    replace (p =? q)%nat with false by (symmetry; apply Nat.eqb_neq; auto).
    exact IH.
Qed.

Lemma first_view_keeps v :
  expires v = false ->
  lid (first_view v) = lid v
  /\ (workCh_closed v = false -> workCh_closed (first_view v) = false)
  /\ time_idleOut (first_view v) = time_idleOut v
  /\ terminated (first_view v) = terminated v.
Proof.
  intros Hexp. unfold first_view. rewrite Hexp.
  destruct (terminated v) eqn:Ht; [simpl; auto|].
  destruct (decide (sessST v = active)); simpl; auto.
Qed.

Lemma second_view_keeps v :
  lid (second_view tickUnit tickMarker v) = lid v
  /\ (workCh_closed v = false -> workCh_closed (second_view tickUnit tickMarker v) = false)
  /\ time_idleOut (second_view tickUnit tickMarker v) = time_idleOut v
  /\ terminated (second_view tickUnit tickMarker v) = terminated v.
Proof.
  unfold second_view.
  destruct (time_ticks v >? 0); [auto|].
  destruct (time_posted v >? 0); [simpl; auto|].
  destruct (_ && _); simpl; auto.
Qed.

(** The first loop steps every registered stream once. *)
Lemma range_first_ok (ord : list string) (gc : collector) :
  NoDup ord -> collector_ok tickUnit gc -> ticks_left gc ->
  exists gc',
    range_streams do_first ord gc = Ret gc'
    /\ collector_ok tickUnit gc'
    /\ (forall k p v, streams gc !! k = Some p -> sview gc p = Some v ->
          (k ∈ ord ->
             sview gc' p = Some (first_view v)
             /\ streams gc' !! k = (if expires v then None else Some p)
             /\ events_of p gc' = events_of p gc ++ first_events p v)
          /\ (k ∉ ord ->
             sview gc' p = Some v /\ streams gc' !! k = Some p
             /\ events_of p gc' = events_of p gc))
    /\ (forall k, streams gc !! k = None -> streams gc' !! k = None)
    /\ (forall p, (forall k, streams gc !! k <> Some p) ->
          sview gc' p = sview gc p /\ events_of p gc' = events_of p gc).
Proof.
  intros Hnd Hok Hleft.
  apply (range_streams_ok tickUnit do_first first_view expires first_events
           (fun v => terminated v = false -> sessST v = active ->
                     1 <= time_ticks v <= int64_max)); try assumption.
  - intros gc0 k p v Hok0 Hk Hv Hpre.
    destruct (ok_lid _ _ Hok0 k p Hk) as (v' & Hv' & Hlid).
    rewrite Hv in Hv'. injection Hv' as <-.
    apply sview_Some in Hv as (s & Hs & <-).
    destruct (do_first_step gc0 p s (ok_indexed _ _ Hok0) (ok_small _ _ Hok0) Hs)
      as (gc' & Hrun & Hstep).
    + intros _. apply (ok_open _ _ Hok0 k p (view s) Hk).
      unfold sview. rewrite Hs. reflexivity.
    + intros Ht Ha. split; [apply Hpre; assumption|].
      apply (ok_inheap _ _ Hok0 k p (view s) Hk); [|exact Ht].
      unfold sview. rewrite Hs. reflexivity.
    + exists gc'. split; [exact Hrun|]. rewrite <- Hlid. exact Hstep.
  - apply first_view_keeps.
  - intros p q v. apply first_events_about.
  - intros k p v _ Hk Hv. apply (Hleft k p v Hk Hv).
Qed.

(** The second loop steps every registered stream once; a terminated
    stream still registered must have ticks left. *)
Lemma range_second_ok (ord : list string) (gc : collector) :
  NoDup ord -> collector_ok tickUnit gc ->
  (forall k p v, streams gc !! k = Some p -> sview gc p = Some v ->
     time_ticks v <= 0 -> terminated v = false) ->
  exists gc',
    range_streams (do_second tickUnit tickMarker) ord gc = Ret gc'
    /\ collector_ok tickUnit gc'
    /\ (forall k p v, streams gc !! k = Some p -> sview gc p = Some v ->
          (k ∈ ord ->
             sview gc' p = Some (second_view tickUnit tickMarker v)
             /\ streams gc' !! k = Some p
             /\ events_of p gc' = events_of p gc ++ [])
          /\ (k ∉ ord ->
             sview gc' p = Some v /\ streams gc' !! k = Some p
             /\ events_of p gc' = events_of p gc))
    /\ (forall k, streams gc !! k = None -> streams gc' !! k = None)
    /\ (forall p, (forall k, streams gc !! k <> Some p) ->
          sview gc' p = sview gc p /\ events_of p gc' = events_of p gc).
Proof.
  intros Hnd Hok Hterm.
  apply (range_streams_ok tickUnit (do_second tickUnit tickMarker)
           (second_view tickUnit tickMarker) (fun _ => false) (fun _ _ => [])
           (fun v => time_ticks v <= 0 -> terminated v = false)); try assumption.
  - intros gc0 k p v Hok0 Hk Hv Hpre.
    apply sview_Some in Hv as (s & Hs & <-).
    assert (Hvs : sview gc0 p = Some (view s)) by (unfold sview; rewrite Hs; reflexivity).
    destruct (do_second_step tickUnit tickMarker gc0 p s
                (ok_indexed _ _ Hok0) (ok_small _ _ Hok0) Hs)
      as (gc' & Hrun & Hstep).
    + intros Hle. split; [|split].
      * apply (ok_inheap _ _ Hok0 k p (view s) Hk Hvs). apply Hpre. exact Hle.
      * apply (ok_idle _ _ Hok0 k p (view s) Hk Hvs).
      * apply (ok_open _ _ Hok0 k p (view s) Hk Hvs).
    + exists gc'. split; [exact Hrun | exact Hstep].
  - intros v _. apply second_view_keeps.
  - intros p q v. destruct (decide (q = p)); reflexivity.
  - intros k p v _ Hk Hv. apply (Hterm k p v Hk Hv).
Qed.

Lemma view_fields s x :
  view s = x ->
  lid s = lid x /\ time_idleOut s = time_idleOut x /\ time_posted s = time_posted x
  /\ time_ticks s = time_ticks x /\ sessST s = sessST x /\ terminated s = terminated x
  /\ term_err s = term_err x /\ workCh s = workCh x
  /\ workCh_closed s = workCh_closed x.
Proof. intros <-. repeat split. Qed.

(** One tick of a well-formed collector neither panics nor blocks; it
    leaves the collector well formed (in particular, [heap[i].index == i]
    still holds), and every registered stream has gone through the first
    loop and, unless it was removed there, through the second. *)
Lemma do_ok (gc : collector) (ord1 ord2 : list string) :
  collector_ok tickUnit gc -> ticks_left gc ->
  NoDup ord1 -> NoDup ord2 ->
  (forall k, is_Some (streams gc !! k) -> k ∈ ord1) ->
  exists gc',
    do tickUnit tickMarker ord1 ord2 gc = Ret gc'
    /\ collector_ok tickUnit gc'
    /\ forall k p v, streams gc !! k = Some p -> sview gc p = Some v ->
         events_of p gc' = events_of p gc ++ first_events p v
         /\ (expires v = true ->
               streams gc' !! k = None /\ sview gc' p = Some (first_view v))
         /\ (expires v = false ->
               streams gc' !! k = Some p
               /\ (k ∈ ord2 ->
                    sview gc' p = Some (second_view tickUnit tickMarker (first_view v)))
               /\ (k ∉ ord2 -> sview gc' p = Some (first_view v))).
Proof.
  intros Hok Hleft Hnd1 Hnd2 Hcover.
  destruct (range_first_ok ord1 gc Hnd1 Hok Hleft)
    as (gc1 & Hrun1 & Hok1 & Hreg1 & Hnone1 & Hunreg1).
  assert (Hback : forall k p v1, streams gc1 !! k = Some p -> sview gc1 p = Some v1 ->
            exists v, streams gc !! k = Some p /\ sview gc p = Some v
                      /\ expires v = false /\ v1 = first_view v).
  { intros k p v1 Hk Hv1.
    destruct (streams gc !! k) as [p0|] eqn:Hk0.
    2:{ rewrite (Hnone1 k Hk0) in Hk. discriminate. }
    destruct (ok_lid _ _ Hok k p0 Hk0) as (v0 & Hv0 & _).
    destruct (Hreg1 k p0 v0 Hk0 Hv0) as [Hin _].
    destruct (Hin (Hcover k ltac:(rewrite Hk0; eauto))) as (Hs & Hst & _).
    rewrite Hk in Hst. destruct (expires v0) eqn:Hexp; [discriminate|].
    injection Hst as ->. exists v0. rewrite Hs in Hv1. injection Hv1 as <-. auto. }
  destruct (range_second_ok ord2 gc1 Hnd2 Hok1)
    as (gc2 & Hrun2 & Hok2 & Hreg2 & Hnone2 & Hunreg2).
  { intros k p v1 Hk Hv1 Hle.
    destruct (Hback k p v1 Hk Hv1) as (v & _ & _ & Hexp & ->).
    destruct (first_view_keeps v Hexp) as (_ & _ & _ & Ht). rewrite Ht.
    destruct (terminated v) eqn:Htv; [|reflexivity].
    exfalso. unfold first_view in Hle. rewrite Htv, Hexp in Hle. simpl in Hle.
    unfold expires in Hexp. rewrite Htv in Hexp. simpl in Hexp.
    apply Z.leb_gt in Hexp. lia. }
  exists gc2. split; [unfold do; rewrite Hrun1, bind_Ret; exact Hrun2|].
  split; [exact Hok2|].
  intros k p v Hk Hv.
  destruct (Hreg1 k p v Hk Hv) as [Hin1 _].
  destruct (Hin1 (Hcover k ltac:(rewrite Hk; eauto))) as (Hs1 & Hst1 & He1).
  destruct (expires v) eqn:Hexp.
  - assert (Hgone : forall k', streams gc1 !! k' <> Some p).
    { intros k' Hk'. destruct (Hback k' p _ Hk' Hs1) as (v' & Hk0 & Hv' & Hexp' & _).
      rewrite Hv in Hv'. injection Hv' as <-. congruence. }
    destruct (Hunreg2 p Hgone) as [Hs2 He2].
    split; [congruence|]. split; [|discriminate].
    intros _. split; [apply Hnone2; exact Hst1 | congruence].
  - destruct (Hreg2 k p _ Hst1 Hs1) as [Hin2 Hout2].
    split.
    { destruct (decide (k ∈ ord2)) as [Hi|Ho].
      - destruct (Hin2 Hi) as (_ & _ & He2). rewrite app_nil_r in He2. congruence.
      - destruct (Hout2 Ho) as (_ & _ & He2). congruence. }
    split; [discriminate|]. intros _.
    split.
    { destruct (decide (k ∈ ord2)) as [Hi|Ho].
      - apply (Hin2 Hi).
      - apply (Hout2 Ho). }
    split.
    + intros Hi. apply (Hin2 Hi).
    + intros Ho. apply (Hout2 Ho).
Qed.

End CollectorTickFacts.

(** ** Stream collector: registering a stream *)

Section CollectorAddFacts.
Import Cmn GoHeap Transport Samples.

Variable tickUnit : Z.

(** Nothing registered, nothing in the heap. *)
Lemma collector_ok_empty (gc : collector) :
  streams gc = ∅ -> heap gc = [] -> collector_ok tickUnit gc.
Proof.
  intros Hs Hh. split.
  - intros i p Hi. rewrite Hh in Hi. rewrite lookup_nil in Hi. discriminate.
  - unfold heap_small. rewrite Hh. simpl. lia.
  - intros k p Hk. rewrite Hs, lookup_empty in Hk. discriminate.
  - intros k p v Hk. rewrite Hs, lookup_empty in Hk. discriminate.
  - intros k p v Hk. rewrite Hs, lookup_empty in Hk. discriminate.
  - intros k p v Hk. rewrite Hs, lookup_empty in Hk. discriminate.
Qed.

(** [ctrl{s, true}] for a stream that is not in the collector yet: the
    stream is registered under its lid and pushed on the heap; the
    collector stays well formed ([heap[i].index == i] included) and no
    other stream changes, its index apart. *)
Lemma ctrl_add_ok (gc : collector) (p : nat) (s : Stream) :
  collector_ok tickUnit gc ->
  store gc !! p = Some s -> p ∉ heap gc -> streams gc !! lid s = None ->
  workCh_closed s = false -> 0 <= Z.quot (time_idleOut s) tickUnit ->
  Z.of_nat (length (heap gc)) + 1 < 2 ^ 62 ->
  exists gc',
    ctrl_add p gc = Ret gc'
    /\ collector_ok tickUnit gc'
    /\ streams gc' = <[lid s := p]> (streams gc)
    /\ events gc' = events gc
    /\ (forall q, sview gc' q = sview gc q)
    /\ (forall q, q ∈ heap gc' <-> q ∈ heap gc \/ q = p).
Proof.
  intros Hok Hs Hfresh Hnew Hopen Hidle Hsmall.
  unfold ctrl_add. rewrite (deref_Some _ _ _ Hs), bind_Ret, Hnew.
  unfold Push, gc_Push.
  set (gc1 := set_streams (<[lid s := p]> (streams gc)) gc).
  assert (Hs1 : store gc1 !! p = Some s) by exact Hs.
  rewrite (deref_Some _ _ _ Hs1), bind_Ret.
  set (l := length (heap gc)).
  set (gc2 := set_heap (heap (modify p (set_index (gc_Len gc1)) gc1) ++ [p])
                (modify p (set_index (gc_Len gc1)) gc1)).
  assert (Hheap2 : heap gc2 = heap gc ++ [p]) by reflexivity.
  assert (Hstore2 : store gc2 = alter (set_index (Z.of_nat l)) p (store gc)) by reflexivity.
  assert (Hix2 : heap_indexed gc2).
  { intros i q Hi. rewrite Hheap2 in Hi. rewrite Hstore2.
    apply lookup_app_Some in Hi as [Hi | [Hge Hi]].
    - assert (q <> p) by (intros ->; apply Hfresh; eapply list_elem_of_lookup_2; eauto).
      rewrite lookup_alter_ne by auto. apply (ok_indexed _ _ Hok). exact Hi.
    - destruct (i - length (heap gc))%nat as [|?] eqn:Hd; [|discriminate].
      injection Hi as <-. rewrite lookup_alter_eq, Hs. simpl.
      eexists. split; [reflexivity|]. simpl. unfold l. lia. }
  assert (Hsm2 : heap_small gc2).
  { unfold heap_small. rewrite Hheap2, length_app. simpl. lia. }
  assert (Hlen2 : length (heap gc2) = S l)
    by (rewrite Hheap2, length_app; simpl; unfold l; lia).
  change (gc_Len gc1) with (Z.of_nat l).
  destruct (Fix_ok gc2 l Hix2 Hsm2 ltac:(lia)) as (gc3 & HF & Hix3 & Hst3).
  fold gc2. rewrite HF, bind_Ret.
  assert (Hlen3 : length (heap gc3) = S l) by (rewrite <- Hlen2; apply Hst3).
  cbn [Len collector_sort]. unfold gc_Len. rewrite Hlen3.
  rewrite add64_small by lia.
  replace (Z.of_nat (S l) + -1) with (Z.of_nat l) by lia.
  unfold up. rewrite Nat2Z.id.
  destruct (up_loop_ok (S l) gc3 l Hix3 (heap_small_step _ _ Hst3 Hsm2) ltac:(lia)
              ltac:(lia)) as (gc4 & Hu & Hix4 & Hst4).
  exists gc4. split; [exact Hu|].
  pose proof (heap_step_trans _ _ _ Hst3 Hst4) as (Hstr & Hev & Hlen & Hmem & Hsv).
  assert (Hsv' : forall q, sview gc4 q = sview gc q).
  { intros q. rewrite Hsv. unfold sview. rewrite Hstore2.
    rewrite lookup_alter. destruct (decide (p = q)) as [<-|]; [|reflexivity].
    rewrite Hs. reflexivity. }
  assert (Hmem' : forall q, q ∈ heap gc4 <-> q ∈ heap gc \/ q = p).
  { intros q. rewrite Hmem, Hheap2, elem_of_app, list_elem_of_singleton. reflexivity. }
  assert (Hstr' : streams gc4 = <[lid s := p]> (streams gc)) by exact Hstr.
  assert (Hreg : forall k q, streams gc4 !! k = Some q ->
            (k = lid s /\ q = p) \/ (k <> lid s /\ streams gc !! k = Some q)).
  { intros k q Hk. rewrite Hstr' in Hk. apply lookup_insert_Some in Hk.
    destruct Hk as [[<- <-]|[Hne Hk]]; auto. }
  assert (Hvs : sview gc p = Some (view s)) by (unfold sview; rewrite Hs; reflexivity).
  split.
  { split.
    - exact Hix4.
    - eapply heap_small_step; [|exact Hsm2]. eapply heap_step_trans; eassumption.
    - intros k q Hk. rewrite Hsv'. destruct (Hreg k q Hk) as [[-> ->]|[_ Hk0]].
      + exists (view s). auto.
      + apply (ok_lid _ _ Hok). exact Hk0.
    - intros k q v Hk Hv Ht. rewrite Hsv' in Hv. apply Hmem'.
      destruct (Hreg k q Hk) as [[-> ->]|[_ Hk0]]; [auto|].
      left. eapply (ok_inheap _ _ Hok); eassumption.
    - intros k q v Hk Hv. rewrite Hsv' in Hv.
      destruct (Hreg k q Hk) as [[-> ->]|[_ Hk0]].
      + rewrite Hvs in Hv. injection Hv as <-. exact Hopen.
      + eapply (ok_open _ _ Hok); eassumption.
    - intros k q v Hk Hv. rewrite Hsv' in Hv.
      destruct (Hreg k q Hk) as [[-> ->]|[_ Hk0]].
      + rewrite Hvs in Hv. injection Hv as <-. exact Hidle.
      + eapply (ok_idle _ _ Hok); eassumption. }
  split; [exact Hstr'|]. split; [exact Hev|]. split; [exact Hsv' | exact Hmem'].
Qed.

(** Registering a stream with ticks left keeps [ticks_left]. *)
Lemma ctrl_add_ticks_left (gc gc' : collector) (p : nat) (s : Stream) :
  ticks_left gc -> store gc !! p = Some s ->
  streams gc' = <[lid s := p]> (streams gc) ->
  (forall q, sview gc' q = sview gc q) ->
  (terminated s = false -> sessST s = active -> 1 <= time_ticks s <= int64_max) ->
  ticks_left gc'.
Proof.
  intros Hleft Hs Hstr Hsv Hnew k q v Hk Hv. rewrite Hsv in Hv. rewrite Hstr in Hk.
  apply lookup_insert_Some in Hk as [[<- <-]|[_ Hk]].
  - unfold sview in Hv. rewrite Hs in Hv. injection Hv as <-. exact Hnew.
  - eapply Hleft; eassumption.
Qed.

End CollectorAddFacts.

(** ** Stream collector: the claims about a tick *)

Section CollectorClaims.
Import Cmn GoHeap Transport Samples.

Variables tickUnit tickMarker : Z.

(** C5: on the collector tick that takes the ticks of a registered,
    active stream from 1 to 0, the stream becomes inactive if and only if
    its work queue is empty and its posted counter is zero, and otherwise
    stays active with its queue untouched; either way its ticks are reset
    to idleOut/tickUnit and its posted counter is swapped to zero, and on
    the transition a tickMarker frame is put on the queue. This holds for
    every well-formed collector and in whatever order the two loops range
    over the stream map. *)
Theorem do_idle_transition
    (gc : collector) (ord1 ord2 : list string) (k : string) (p : nat) (s : Stream) :
  collector_ok tickUnit gc -> ticks_left gc ->
  NoDup ord1 -> NoDup ord2 ->
  (forall k', is_Some (streams gc !! k') -> k' ∈ ord1) -> k ∈ ord2 ->
  streams gc !! k = Some p -> store gc !! p = Some s ->
  terminated s = false -> sessST s = active ->
  time_ticks s = 1 -> 0 <= time_posted s ->
  exists gc' s',
    do tickUnit tickMarker ord1 ord2 gc = Ret gc'
    /\ streams gc' !! k = Some p /\ store gc' !! p = Some s'
    /\ time_ticks s' = Z.quot (time_idleOut s) tickUnit
    /\ time_posted s' = 0
    /\ (sessST s' = inactive <-> workCh s = [] /\ time_posted s = 0)
    /\ (sessST s' = inactive -> workCh s' = [tickMarkerObj tickMarker])
    /\ (sessST s' <> inactive -> sessST s' = active /\ workCh s' = workCh s).
Proof.
  intros Hok Hleft Hnd1 Hnd2 Hcover Hin2 Hk Hs Hterm Hact Hticks Hposted.
  assert (Hv : sview gc p = Some (view s)) by (unfold sview; rewrite Hs; reflexivity).
  destruct (do_ok tickUnit tickMarker gc ord1 ord2 Hok Hleft Hnd1 Hnd2 Hcover)
    as (gc' & Hrun & _ & Hall).
  destruct (Hall k p (view s) Hk Hv) as (_ & _ & Hkeep).
  assert (Hexp : expires (view s) = false)
    by (unfold expires; simpl; rewrite Hterm; reflexivity).
  destruct (Hkeep Hexp) as (Hk' & Hsv' & _). specialize (Hsv' Hin2).
  apply sview_Some in Hsv' as (s' & Hs' & Hview').
  exists gc', s'. split; [exact Hrun|]. split; [exact Hk'|]. split; [exact Hs'|].
  assert (Hfirst : first_view (view s) = set_ticks 0 (view s)).
  { unfold first_view. simpl. rewrite Hterm, Hticks.
    rewrite decide_True by exact Hact. reflexivity. }
  rewrite Hfirst in Hview'. unfold second_view in Hview'. simpl in Hview'.
  rewrite Hact in Hview'. rewrite bool_decide_eq_true_2 in Hview' by reflexivity.
  rewrite andb_true_r in Hview'.
  destruct (Z.gtb_spec (time_posted s) 0) as [Hpos|Hzero].
  { apply view_fields in Hview' as (_ & _ & Hp' & Ht' & Hst' & _ & _ & Hw' & _).
    simpl in *. split; [exact Ht'|]. split; [exact Hp'|].
    rewrite Hst', Hw', Hact. split; [split; [discriminate | lia]|].
    split; [discriminate | auto]. }
  destruct (workCh s) as [|o q] eqn:Hq; simpl in Hview';
    apply view_fields in Hview' as (_ & _ & Hp' & Ht' & Hst' & _ & _ & Hw' & _);
    simpl in *.
  - split; [exact Ht'|]. split; [exact Hp'|]. rewrite Hst', Hw'.
    split; [split; [intros _; split; [reflexivity | lia] | reflexivity]|].
    split; [reflexivity | congruence].
  - split; [exact Ht'|]. split; [exact Hp'|]. rewrite Hst', Hw', Hact.
    split; [split; [discriminate | intros [? _]; discriminate]|].
    split; [discriminate | auto].
Qed.

(** C7, amended: on every collector tick the ticks of each registered
    terminated stream are decremented; when they reach zero or less the
    stream is removed from the collector's stream map, its queue is
    closed first and then drained, each remaining frame being completed
    (objDone) with the stream's stored termination error, or with an
    "unknown reason" error when none was stored; otherwise the stream
    stays registered with its queue untouched. *)
Theorem do_terminated_stream
    (gc : collector) (ord1 ord2 : list string) (k : string) (p : nat) (s : Stream) :
  collector_ok tickUnit gc -> ticks_left gc ->
  NoDup ord1 -> NoDup ord2 ->
  (forall k', is_Some (streams gc !! k') -> k' ∈ ord1) ->
  streams gc !! k = Some p -> store gc !! p = Some s ->
  terminated s = true -> in_int64 (time_ticks s - 1) ->
  exists gc' s',
    do tickUnit tickMarker ord1 ord2 gc = Ret gc'
    /\ store gc' !! p = Some s'
    /\ time_ticks s' = time_ticks s - 1
    /\ (time_ticks s - 1 <= 0 ->
        streams gc' !! k = None
        /\ workCh s' = [] /\ workCh_closed s' = true
        /\ term_err s' = Some (term_error s)
        /\ events_of p gc'
           = events_of p gc
             ++ EvClose p :: map (fun o => EvObjDone p o (term_error s)) (workCh s))
    /\ (0 < time_ticks s - 1 ->
        streams gc' !! k = Some p
        /\ workCh s' = workCh s /\ workCh_closed s' = workCh_closed s
        /\ term_err s' = term_err s
        /\ events_of p gc' = events_of p gc)
    /\ (term_err s = None -> term_error s = "unknown reason")
    /\ (forall e, term_err s = Some e -> term_error s = e).
Proof.
  intros Hok Hleft Hnd1 Hnd2 Hcover Hk Hs Hterm Hrange.
  assert (Hv : sview gc p = Some (view s)) by (unfold sview; rewrite Hs; reflexivity).
  destruct (do_ok tickUnit tickMarker gc ord1 ord2 Hok Hleft Hnd1 Hnd2 Hcover)
    as (gc' & Hrun & _ & Hall).
  destruct (Hall k p (view s) Hk Hv) as (Hev & Hgone & Hkeep).
  assert (Hdec : add64 (time_ticks s) (-1) = time_ticks s - 1)
    by (apply wrap64_id; exact Hrange).
  assert (Hexp : expires (view s) = (time_ticks s - 1 <=? 0)).
  { unfold expires. simpl. rewrite Hterm, Hdec. reflexivity. }
  assert (Hfirst : first_view (view s)
            = if time_ticks s - 1 <=? 0
              then set_workCh [] true
                     (set_term_err (Some (term_error s))
                        (set_ticks (time_ticks s - 1) (view s)))
              else set_ticks (time_ticks s - 1) (view s)).
  { unfold first_view. rewrite Hexp. simpl. rewrite Hterm, Hdec. reflexivity. }
  unfold first_events in Hev. rewrite Hexp in Hev, Hgone, Hkeep.
  rewrite Hfirst in Hgone, Hkeep.
  assert (Herr : (term_err s = None -> term_error s = "unknown reason")
                 /\ (forall e, term_err s = Some e -> term_error s = e)).
  { unfold term_error. split; [intros ->; reflexivity | intros e ->; reflexivity]. }
  destruct (Z.leb_spec (time_ticks s - 1) 0) as [Hle|Hgt].
  - destruct (Hgone eq_refl) as [Hk' Hsv'].
    apply sview_Some in Hsv' as (s' & Hs' & Hview').
    apply view_fields in Hview' as (_ & _ & _ & Ht' & _ & _ & He' & Hw' & Hc').
    exists gc', s'. split; [exact Hrun|]. split; [exact Hs'|]. split; [exact Ht'|].
    split; [|split; [intros; lia | exact Herr]].
    intros _. auto.
  - destruct (Hkeep eq_refl) as (Hk' & Hin2 & Hout2).
    assert (Hsv' : sview gc' p = Some (set_ticks (time_ticks s - 1) (view s))).
    { destruct (decide (k ∈ ord2)) as [Hi|Ho]; [|exact (Hout2 Ho)].
      rewrite (Hin2 Hi). unfold second_view. simpl.
      destruct (Z.gtb_spec (time_ticks s - 1) 0); [reflexivity | lia]. }
    apply sview_Some in Hsv' as (s' & Hs' & Hview').
    apply view_fields in Hview' as (_ & _ & _ & Ht' & _ & _ & He' & Hw' & Hc').
    exists gc', s'. split; [exact Hrun|]. split; [exact Hs'|]. split; [exact Ht'|].
    split; [intros; lia|]. split; [|exact Herr].
    intros _. rewrite app_nil_r in Hev. auto.
Qed.

End CollectorClaims.

(** ** Stream collector: sample runs *)

Section CollectorExamples.
Import Cmn GoHeap Transport Samples.

Lemma ctrl_add_ok_eq (tickUnit : Z) (gc gc' : collector) (p : nat) (s : Stream) :
  collector_ok tickUnit gc -> ticks_left gc ->
  ctrl_add p gc = Ret gc' ->
  store gc !! p = Some s -> p ∉ heap gc -> streams gc !! lid s = None ->
  workCh_closed s = false -> 0 <= Z.quot (time_idleOut s) tickUnit ->
  Z.of_nat (length (heap gc)) + 1 < 2 ^ 62 ->
  (terminated s = false -> sessST s = active -> 1 <= time_ticks s <= int64_max) ->
  collector_ok tickUnit gc' /\ ticks_left gc'
  /\ streams gc' = <[lid s := p]> (streams gc).
Proof.
  intros Hok Hleft Hrun Hs Hfresh Hnew Hopen Hidle Hsmall Hready.
  destruct (ctrl_add_ok tickUnit gc p s Hok Hs Hfresh Hnew Hopen Hidle Hsmall)
    as (gc0 & Hrun0 & Hok0 & Hstr & _ & Hsv & _).
  rewrite Hrun in Hrun0. injection Hrun0 as <-.
  split; [exact Hok0|]. split; [|exact Hstr].
  eapply ctrl_add_ticks_left; eassumption.
Qed.

Lemma idle_gc1_ok :
  collector_ok Second idle_gc1 /\ ticks_left idle_gc1
  /\ streams idle_gc1 = <["a" := 1%nat]> ∅.
Proof.
  apply (ctrl_add_ok_eq Second idle_store idle_gc1 1 (mk_stream "a" (3 * Second) 1)).
  - apply collector_ok_empty; reflexivity.
  - intros k p v Hk. change (streams idle_store) with (∅ : gmap string nat) in Hk.
    rewrite lookup_empty in Hk. discriminate.
  - vm_compute. reflexivity.
  - vm_compute. reflexivity.
  - intros Hin. apply elem_of_nil in Hin. exact Hin.
  - reflexivity.
  - reflexivity.
  - vm_compute. discriminate.
  - vm_compute. reflexivity.
  - intros _ _. vm_compute. split; discriminate.
Qed.

Lemma idle_gc2_ok :
  collector_ok Second idle_gc2 /\ ticks_left idle_gc2
  /\ streams idle_gc2 = <["b" := 2%nat]> (<["a" := 1%nat]> ∅).
Proof.
  destruct idle_gc1_ok as (Hok & Hleft & Hstr). rewrite <- Hstr.
  apply (ctrl_add_ok_eq Second idle_gc1 idle_gc2 2
           (set_index 0 (mk_stream "b" (3 * Second) 3))); try assumption.
  - vm_compute. reflexivity.
  - vm_compute. reflexivity.
  - intros Hin. change (heap idle_gc1) with [1%nat] in Hin.
    apply list_elem_of_singleton in Hin. discriminate.
  - vm_compute. reflexivity.
  - reflexivity.
  - vm_compute. discriminate.
  - vm_compute. reflexivity.
  - intros _ _. vm_compute. split; discriminate.
Qed.

Lemma term_gc_ok :
  collector_ok Second term_gc /\ ticks_left term_gc
  /\ streams term_gc = <["t" := 1%nat]> ∅.
Proof.
  apply (ctrl_add_ok_eq Second term_store term_gc 1 term_stream).
  - apply collector_ok_empty; reflexivity.
  - intros k p v Hk. change (streams term_store) with (∅ : gmap string nat) in Hk.
    rewrite lookup_empty in Hk. discriminate.
  - vm_compute. reflexivity.
  - vm_compute. reflexivity.
  - intros Hin. apply elem_of_nil in Hin. exact Hin.
  - reflexivity.
  - reflexivity.
  - vm_compute. discriminate.
  - vm_compute. reflexivity.
  - intros Ht. discriminate.
Qed.

Lemma NoDup_two (a b : string) : a <> b -> NoDup [a; b].
Proof.
  intros Hne. apply NoDup_cons. split.
  - intros Hin. apply list_elem_of_singleton in Hin. contradiction.
  - apply NoDup_singleton.
Qed.

(** "a" has one tick left, an empty queue and nothing posted: the tick
    makes it inactive, queues the tickMarker frame and resets its ticks
    to three. *)
Lemma do_idle_transition_witness :
  exists gc' s',
    do Second int64_min ["a"; "b"] ["b"; "a"] idle_gc2 = Ret gc'
    /\ store gc' !! 1%nat = Some s'
    /\ sessST s' = inactive
    /\ workCh s' = [tickMarkerObj int64_min]
    /\ time_ticks s' = 3.
Proof.
  destruct idle_gc2_ok as (Hok & Hleft & Hstr).
  destruct (do_idle_transition Second int64_min idle_gc2 ["a"; "b"] ["b"; "a"]
              "a" 1 (mk_stream "a" (3 * Second) 1) Hok Hleft)
    as (gc' & s' & Hrun & _ & Hs' & Ht & _ & Hiff & Hq & _).
  - apply NoDup_two. discriminate.
  - apply NoDup_two. discriminate.
  - intros k' [q Hq]. rewrite Hstr in Hq.
    apply lookup_insert_Some in Hq as [[<- _]|[_ Hq]];
      [apply elem_of_cons; right; apply elem_of_cons; left; reflexivity|].
    apply lookup_insert_Some in Hq as [[<- _]|[_ Hq]];
      [apply elem_of_cons; left; reflexivity|].
    rewrite lookup_empty in Hq. discriminate.
  - apply elem_of_cons; right; apply elem_of_cons; left; reflexivity.
  - rewrite Hstr. reflexivity.
  - vm_compute. reflexivity.
  - reflexivity.
  - reflexivity.
  - reflexivity.
  - simpl. lia.
  - exists gc', s'. split; [exact Hrun|]. split; [exact Hs'|].
    assert (Hin : sessST s' = inactive) by (apply Hiff; split; reflexivity).
    split; [exact Hin|]. split; [exact (Hq Hin)|]. rewrite Ht. reflexivity.
Defined.

(** C7, as stated, fails on the order: the tick that removes the
    terminated stream "t" closes its queue before the two queued frames
    are completed, not after. *)
Lemma do_closes_before_draining :
  exists gc',
    do Second int64_min ["t"] ["t"] term_gc = Ret gc'
    /\ streams gc' !! "t" = None
    /\ events gc' = [EvClose 1; EvObjDone 1 frame1 "unknown reason";
                     EvObjDone 1 frame2 "unknown reason"]
    /\ events gc' <> drain_then_close.
Proof.
  eexists. split; [vm_compute; reflexivity|].
  split; [reflexivity|]. split; [reflexivity | discriminate].
Qed.

(** The terminated stream "t" of the counterexample: its last tick
    removes it, and its two frames are completed with "unknown reason"
    after the close. *)
Lemma do_terminated_stream_witness :
  exists gc' s',
    do Second int64_min ["t"] ["t"] term_gc = Ret gc'
    /\ store gc' !! 1%nat = Some s'
    /\ streams gc' !! "t" = None
    /\ workCh s' = [] /\ workCh_closed s' = true
    /\ events_of 1 gc'
       = [EvClose 1; EvObjDone 1 frame1 "unknown reason";
          EvObjDone 1 frame2 "unknown reason"].
Proof.
  destruct term_gc_ok as (Hok & Hleft & Hstr).
  destruct (do_terminated_stream Second int64_min term_gc ["t"] ["t"] "t" 1
              term_stream Hok Hleft)
    as (gc' & s' & Hrun & Hs' & _ & Hexp & _).
  - apply NoDup_singleton.
  - apply NoDup_singleton.
  - intros k' [q Hq]. rewrite Hstr in Hq.
    apply lookup_insert_Some in Hq as [[<- _]|[_ Hq]];
      [apply elem_of_cons; left; reflexivity|].
    rewrite lookup_empty in Hq. discriminate.
  - rewrite Hstr. reflexivity.
  - vm_compute. reflexivity.
  - reflexivity.
  - vm_compute. split; discriminate.
  - destruct (Hexp ltac:(simpl; lia)) as (Hgone & Hw & Hc & _ & Hev).
    exists gc', s'. split; [exact Hrun|]. split; [exact Hs'|].
    split; [exact Hgone|]. split; [exact Hw|]. split; [exact Hc|]. exact Hev.
Defined.

(** C6 fails on the code: "a", "b" and "c" (idle timeout of three ticks)
    are registered one tick apart; after the tick that follows the
    registration of "c" the indices are right ([heap[i].index == i]) but
    the heap array is not sorted by ticks: heap[1] has three ticks left
    and heap[2] has two. *)
Theorem staggered_heap_not_sorted :
  exists gc,
    staggered_run = Ret gc
    /\ heap_indices gc = [Some 0; Some 1; Some 2]
    /\ heap_ticks gc = [Some 1; Some 3; Some 2]
    /\ exists (i : nat) (t t' : Z),
         heap_ticks gc !! i = Some (Some t)
         /\ heap_ticks gc !! (i + 1)%nat = Some (Some t')
         /\ t' < t.
Proof.
  eexists. split; [vm_compute; reflexivity|].
  split; [reflexivity|]. split; [reflexivity|].
  exists 1%nat, 3, 2. split; [reflexivity|]. split; [reflexivity | lia].
Qed.

End CollectorExamples.


(* ===================================================================== *)
(** * Further properties of the code                                      *)
(* ===================================================================== *)

(** ** EC: slice sizes and slice release *)

Section EcMoreFacts.
Import Cmn Ec Samples.

(** X1: for a non-negative file size and a positive number of slices
    (with fileSize + slices - 1 representable), [SliceSize] returns the
    least size [n] such that [slices] slices of [n] bytes hold the file:
    slices * n >= fileSize > slices * (n - 1). *)
Theorem SliceSize_least_cover (fileSize slices : Z) :
  0 <= fileSize -> 0 < slices -> in_int64 (fileSize + slices - 1) ->
  exists n,
    SliceSize fileSize slices = Ret n
    /\ fileSize <= slices * n
    /\ slices * (n - 1) < fileSize.
Proof.
  intros Hf Hs Hr. unfold SliceSize.
  destruct (Z.eqb_spec slices 0) as [|_]; [lia|].
  unfold add64 at 1. unfold add64. rewrite wrap64_add_l.
  replace (fileSize + slices + -1) with (fileSize + slices - 1) by lia.
  rewrite (wrap64_id _ Hr). unfold quot64.
  rewrite Z.quot_div_nonneg by lia.
  pose proof (Z.div_mod (fileSize + slices - 1) slices ltac:(lia)) as Hdm.
  pose proof (Z.mod_pos_bound (fileSize + slices - 1) slices Hs) as Hmod.
  assert (Hq : 0 <= (fileSize + slices - 1) / slices) by (apply Z.div_pos; lia).
  rewrite wrap64_id.
  2:{ unfold in_int64, int64_min, int64_max in *. split; [lia|].
      assert ((fileSize + slices - 1) / slices <= fileSize + slices - 1)
        by (apply Z.div_le_upper_bound; nia).
      lia. }
  eexists. split; [reflexivity|]. split; nia.
Qed.

(** A 10-byte object in 4 slices: 3 bytes each. *)
Lemma SliceSize_least_cover_witness :
  exists n, SliceSize 10 4 = Ret n /\ 10 <= 4 * n /\ 4 * (n - 1) < 10.
Proof.
  apply (SliceSize_least_cover 10 4); unfold in_int64, int64_min, int64_max; lia.
Defined.

Lemma release_freed_noop (r : option nat) (c : Z) :
  forall m : nat,
  release_times m (mkSlice None r c "") = Ret (mkSlice None r c "", []).
Proof.
  induction m as [|m IH]; [reflexivity|].
  cbn [release_times]. unfold slice_release. simpl. rewrite IH. reflexivity.
Qed.

(** X2: an in-memory slice (an SGL, no temporary file) holding [n >= 1]
    references is untouched by its first [n - 1] releases, is freed by
    the [n]-th (the SGL is freed once and the reader closed), and every
    further release does nothing: the SGL is never freed twice. *)
Theorem release_frees_once (sgl : nat) (reader : option nat) (n : Z) (m : nat) :
  1 <= n < 2 ^ 31 ->
  release_times m (mkSlice (Some (ObjSGL (Some sgl))) reader n "")
  = if Z.of_nat m <? n
    then Ret (mkSlice (Some (ObjSGL (Some sgl))) reader (n - Z.of_nat m) "", [])
    else Ret (mkSlice None reader 0 "", sgl_free_events sgl reader).
Proof.
  revert n. induction m as [|m IH]; intros n Hn.
  - destruct (Z.ltb_spec (Z.of_nat 0) n); [|lia].
    cbn [release_times]. change (Z.of_nat 0) with 0. rewrite Z.sub_0_r. reflexivity.
  - cbn [release_times]. unfold slice_release. cbn [sl_obj sl_workFQN sl_refCnt sl_reader].
    rewrite bool_decide_eq_true_2 by discriminate. cbn [orb].
    assert (Hw : wrap32 (n - 1) = n - 1).
    { unfold wrap32. rewrite Z.mod_small; lia. }
    rewrite Hw.
    destruct (Z.ltb_spec (n - 1) 1) as [Hlast|Hmore].
    + assert (n = 1) as -> by lia.
      destruct (Z.ltb_spec (Z.of_nat (S m)) 1) as [|_]; [lia|].
      unfold slice_free, sgl_free_events. destruct reader; simpl;
        rewrite release_freed_noop; reflexivity.
    + rewrite bind_Ret. cbv beta iota. rewrite (IH (n - 1)) by lia.
      destruct (Z.ltb_spec (Z.of_nat m) (n - 1));
        destruct (Z.ltb_spec (Z.of_nat (S m)) n); try lia.
      * replace (n - Z.of_nat (S m)) with (n - 1 - Z.of_nat m) by lia. reflexivity.
      * reflexivity.
Qed.

(** A slice with three references: two releases leave it alone, the
    third frees it, the fourth and fifth do nothing more. *)
Lemma release_frees_once_witness :
  release_times 2 sgl_slice
    = Ret (mkSlice (Some (ObjSGL (Some 7%nat))) (Some 8%nat) 1 "", [])
  /\ release_times 5 sgl_slice
    = Ret (mkSlice None (Some 8%nat) 0 "", [EvSGLFree 7; EvReaderClose 8]).
Proof.
  split.
  - exact (release_frees_once 7 (Some 8%nat) 3 2 ltac:(lia)).
  - exact (release_frees_once 7 (Some 8%nat) 3 5 ltac:(lia)).
Defined.

End EcMoreFacts.

(** ** Rebalance: more on polling a peer *)

Section CheckGlobStatusMoreFacts.
Import Cmn Cluster Reb Samples.

Lemma set_aborted_same m : set_aborted (xreb_aborted m) m = m.
Proof. destruct m; reflexivity. Qed.

Lemma checkGlobStatus_ok_inv m ver stage r1 ext r2 m' status :
  checkGlobStatus m ver stage r1 ext r2 = (m', status, true) ->
  m' = m
  /\ exists st, status = Some st /\ polled m r1 ext r2 = Some st
       /\ SmapVersion st = ver /\ RebVersion st = ver
       /\ GlobRebID st = globRebID m /\ Aborted st = false
       /\ (stage <= Stage st)%N.
Proof.
  assert (Hbody : forall st m0,
            (let tver := SmapVersion st in
             let rver := RebVersion st in
             if (tver >? ver) || (rver >? ver) then (abortGlobal m0, Some st, false)
             else if GlobRebID st >? globRebID m0 then (abortGlobal m0, Some st, false)
             else if (tver <? ver) || (rver <? ver) then (m0, Some st, false)
             else if GlobRebID st <? globRebID m0 then (m0, Some st, false)
             else if (GlobRebID st =? globRebID m0) && Aborted st
                  then (xreb_Abort m0, Some st, false)
             else if (stage <=? Stage st)%N then (m0, Some st, true)
             else (m0, Some st, false)) = (m', status, true) ->
            m' = m0 /\ status = Some st
            /\ SmapVersion st = ver /\ RebVersion st = ver
            /\ GlobRebID st = globRebID m0 /\ Aborted st = false
            /\ (stage <= Stage st)%N).
  { intros st m0. cbv zeta.
    destruct (Z.gtb_spec (SmapVersion st) ver); [discriminate|].
    destruct (Z.gtb_spec (RebVersion st) ver); [discriminate|]. cbn [orb].
    destruct (Z.gtb_spec (GlobRebID st) (globRebID m0)); [discriminate|].
    destruct (Z.ltb_spec (SmapVersion st) ver); [discriminate|].
    destruct (Z.ltb_spec (RebVersion st) ver); [discriminate|]. cbn [orb].
    destruct (Z.ltb_spec (GlobRebID st) (globRebID m0)); [discriminate|].
    assert (Hg : GlobRebID st = globRebID m0) by lia.
    rewrite Hg, Z.eqb_refl. cbn [andb].
    destruct (Aborted st); [discriminate|].
    destruct (N.leb_spec stage (Stage st)); [|discriminate].
    intros [= <- <-]. repeat split; try lia; auto. }
  unfold checkGlobStatus, polled.
  destruct r1 as [|st1 [|]].
  - unfold AbortedAfter. destruct (xreb_aborted m || ext) eqn:Hab; [discriminate|].
    apply orb_false_iff in Hab as [Hab ->].
    replace (set_aborted false m) with m by (rewrite <- Hab; symmetry; apply set_aborted_same).
    destruct r2 as [|st2 [|]]; try discriminate.
    intros H. apply Hbody in H as (-> & -> & H). split; [reflexivity|]. eauto.
  - discriminate.
  - intros H. apply Hbody in H as (-> & -> & H). split; [reflexivity|]. eauto.
Qed.

(** X3: when [checkGlobStatus] answers ok, the local manager is exactly
    as before the call, and the status it returns is the one polled from
    the peer, which is in the same epoch as the local run (same Smap and
    rebalance versions, same globRebID), has not aborted, and has
    reached the desired stage. *)
Theorem checkGlobStatus_ok
    (m : Manager) (ver : Z) (stage : N) (r1 : HealthReply) (ext : bool)
    (r2 : HealthReply) (m' : Manager) (status : option Status) :
  checkGlobStatus m ver stage r1 ext r2 = (m', status, true) ->
  m' = m
  /\ exists st, status = Some st /\ polled m r1 ext r2 = Some st
       /\ SmapVersion st = ver /\ RebVersion st = ver
       /\ GlobRebID st = globRebID m /\ Aborted st = false
       /\ (stage <= Stage st)%N.
Proof. apply checkGlobStatus_ok_inv. Qed.

(** A peer in the run's epoch that has reached "fin". *)
Lemma checkGlobStatus_ok_witness :
  checkGlobStatus reb_run10 7 rebStageFin (HealthBody status_fin false) false HealthErr
    = (reb_run10, Some status_fin, true)
  /\ polled reb_run10 (HealthBody status_fin false) false HealthErr = Some status_fin.
Proof.
  assert (H : checkGlobStatus reb_run10 7 rebStageFin (HealthBody status_fin false)
                false HealthErr = (reb_run10, Some status_fin, true)) by reflexivity.
  split; [exact H|].
  destruct (checkGlobStatus_ok _ _ _ _ _ _ _ _ H) as (_ & st & [= <-] & Hp & _).
  exact Hp.
Defined.

(** X4: a peer that is behind (its Smap version, rebalance version and
    globRebID are not greater than the local ones and at least one is
    smaller) never makes [checkGlobStatus] abort: the manager is left as
    it is and the answer is "not yet", whatever stage is awaited. *)
Theorem checkGlobStatus_stale_keeps_waiting
    (m : Manager) (ver : Z) (stage : N) (r1 : HealthReply) (ext : bool)
    (r2 : HealthReply) (st : Status) :
  polled m r1 ext r2 = Some st ->
  SmapVersion st <= ver -> RebVersion st <= ver -> GlobRebID st <= globRebID m ->
  SmapVersion st < ver \/ RebVersion st < ver \/ GlobRebID st < globRebID m ->
  checkGlobStatus m ver stage r1 ext r2 = (m, Some st, false).
Proof.
  intros Hp Hs Hr Hg Hold.
  rewrite (checkGlobStatus_polled _ ver stage _ _ _ _ Hp). unfold checkGlobStatus.
  destruct (Z.gtb_spec (SmapVersion st) ver); [lia|].
  destruct (Z.gtb_spec (RebVersion st) ver); [lia|]. cbn [orb].
  destruct (Z.gtb_spec (GlobRebID st) (globRebID m)); [lia|].
  destruct (Z.ltb_spec (SmapVersion st) ver); [reflexivity|].
  destruct (Z.ltb_spec (RebVersion st) ver); [reflexivity|]. cbn [orb].
  destruct (Z.ltb_spec (GlobRebID st) (globRebID m)); [reflexivity|]. lia.
Qed.

(** The run with globRebID 10 under Smap v7 polls a peer still at v6. *)
Lemma checkGlobStatus_stale_keeps_waiting_witness :
  checkGlobStatus reb_run10 7 rebStageFin (HealthBody status_smap6 false) false HealthErr
  = (reb_run10, Some status_smap6, false).
Proof.
  apply (checkGlobStatus_stale_keeps_waiting reb_run10 7 rebStageFin
           (HealthBody status_smap6 false) false HealthErr status_smap6);
    [reflexivity | simpl; lia | simpl; lia | simpl; lia | left; simpl; lia].
Defined.

Lemma checkGlobStatus_effect_inv m ver stage r1 ext r2 :
  let m' := (checkGlobStatus m ver stage r1 ext r2).1.1 in
  (m' = m \/ m' = xreb_Abort m \/ m' = abortGlobal m)
  /\ ((checkGlobStatus m ver stage r1 ext r2).2 = true -> m' = m).
Proof.
  cbv zeta. split.
  2:{ intros Hok.
      destruct (checkGlobStatus m ver stage r1 ext r2) as [[m' status] ok] eqn:Hc.
      simpl in *. subst ok. apply checkGlobStatus_ok_inv in Hc as [-> _]. reflexivity. }
  assert (Hbody : forall st m0 (r : Manager * option Status * bool),
            r = (let tver := SmapVersion st in
             let rver := RebVersion st in
             if (tver >? ver) || (rver >? ver) then (abortGlobal m0, Some st, false)
             else if GlobRebID st >? globRebID m0 then (abortGlobal m0, Some st, false)
             else if (tver <? ver) || (rver <? ver) then (m0, Some st, false)
             else if GlobRebID st <? globRebID m0 then (m0, Some st, false)
             else if (GlobRebID st =? globRebID m0) && Aborted st
                  then (xreb_Abort m0, Some st, false)
             else if (stage <=? Stage st)%N then (m0, Some st, true)
             else (m0, Some st, false)) ->
            r.1.1 = m0 \/ r.1.1 = xreb_Abort m0 \/ r.1.1 = abortGlobal m0).
  { intros st m0 r ->. cbv zeta.
    repeat match goal with
           | |- context [if ?c then _ else _] => destruct c
           end; simpl; auto. }
  unfold checkGlobStatus.
  destruct r1 as [|st1 [|]].
  - unfold AbortedAfter. destruct (xreb_aborted m) eqn:Hab; cbn [orb].
    + left. simpl. rewrite <- Hab. apply set_aborted_same.
    + destruct ext; simpl.
      * right; left. reflexivity.
      * replace (set_aborted false m) with m
          by (rewrite <- Hab; symmetry; apply set_aborted_same).
        destruct r2 as [|st2 [|]]; simpl; auto.
        apply (Hbody st2 m _ eq_refl).
  - simpl. auto.
  - apply (Hbody st1 m _ eq_refl).
Qed.

(** X5: whatever the peer answers, [checkGlobStatus] changes the local
    manager in one of three ways only: not at all, by a local abort, or
    by a global abort (abort and broadcast). It never clears an abort,
    and it leaves globRebID, the activity flag, the in-queue counter and
    the pending acks as they are. *)
Theorem checkGlobStatus_only_aborts
    (m : Manager) (ver : Z) (stage : N) (r1 : HealthReply) (ext : bool)
    (r2 : HealthReply) :
  let m' := (checkGlobStatus m ver stage r1 ext r2).1.1 in
  (m' = m \/ m' = xreb_Abort m \/ m' = abortGlobal m)
  /\ (xreb_aborted m = true -> xreb_aborted m' = true)
  /\ (abort_pushes m <= abort_pushes m')%nat
  /\ globRebID m' = globRebID m /\ laterx m' = laterx m
  /\ inQueue m' = inQueue m /\ lomAcks m' = lomAcks m.
Proof.
  cbv zeta.
  destruct (checkGlobStatus_effect_inv m ver stage r1 ext r2) as [H _].
  cbv zeta in H. split; [exact H|].
  destruct H as [-> | [-> | ->]]; simpl; repeat split; auto; lia.
Qed.

End CheckGlobStatusMoreFacts.

(** ** Rebalance: waiting for a peer to reach a stage *)

Section WaitStageFacts.
Import Cmn Cluster Reb Samples.

Variables (ver : Z) (stage : N) (sleep maxwt : Z).

Lemma waitStage_loop_inv :
  forall (trace : list StagePoll) (curwt : Z) (m : Manager) (passes : nat)
         (m' : Manager) (b : bool) (n : nat),
  waitStage_loop ver stage sleep maxwt trace curwt m passes = Ret (m', b, n) ->
  exists c : nat,
    n = (passes + c)%nat
    /\ (b = true ->
        m' = m /\ exists t, (1 <= c)%nat /\ trace !! (c - 1)%nat = Some t /\ reached ver stage m t)
    /\ (0 <= sleep -> in_int64 (maxwt + sleep) -> 0 <= curwt ->
        (forall j : nat, (j < c)%nat -> curwt + Z.of_nat j * sleep < maxwt)
        /\ (b = false -> xreb_aborted m' = false ->
            m' = m /\ maxwt <= curwt + Z.of_nat c * sleep)).
Proof.
  induction trace as [|t trace IH]; intros curwt m passes m' b n Hrun; simpl in Hrun.
  - destruct (Z.ltb_spec curwt maxwt); [discriminate|].
    injection Hrun as <- <- <-. exists 0%nat.
    split; [lia|]. split; [discriminate|].
    intros _ _ _. split; [intros; lia|]. intros _ _. split; [reflexivity | lia].
  - destruct (Z.ltb_spec curwt maxwt) as [Hlt|Hge].
    2:{ injection Hrun as <- <- <-. exists 0%nat.
        split; [lia|]. split; [discriminate|].
        intros _ _ _. split; [intros; lia|]. intros _ _. split; [reflexivity | lia]. }
    destruct (sp_inStage t) eqn:Hin.
    { injection Hrun as <- <- <-. exists 1%nat.
      split; [lia|].
      split; [intros _; split; [reflexivity|]; exists t; simpl; unfold reached; auto|].
      intros _ _ _. split; [|discriminate].
      intros j Hj. assert (j = 0%nat) as -> by lia. lia. }
    destruct (checkGlobStatus m ver stage (sp_r1 t) (sp_ext t) (sp_r2 t))
      as [[m1 status] ok] eqn:Hc.
    pose proof (checkGlobStatus_effect_inv m ver stage (sp_r1 t) (sp_ext t) (sp_r2 t))
      as [Heff _]. cbv zeta in Heff. rewrite Hc in Heff. simpl in Heff.
    destruct ok.
    { apply checkGlobStatus_ok_inv in Hc
        as (-> & st & -> & Hp & Hs & Hr & Hg & Ha & Hst).
      cbn [andb] in Hrun.
      destruct (N.leb_spec stage (Stage st)); [|lia].
      injection Hrun as <- <- <-. exists 1%nat.
      split; [lia|].
      split.
      { intros _. split; [reflexivity|]. exists t. simpl.
        split; [lia|]. split; [reflexivity|]. right. exists st. auto 10. }
      intros _ _ _. split; [|discriminate].
      intros j Hj. assert (j = 0%nat) as -> by lia. lia. }
    cbn [andb] in Hrun.
    destruct (xreb_aborted m1) eqn:Hab1.
    { injection Hrun as <- <- <-. exists 1%nat.
      split; [lia|]. split; [discriminate|].
      intros _ _ _. split; [|intros _ Hna; congruence].
      intros j Hj. assert (j = 0%nat) as -> by lia. lia. }
    assert (m1 = m) as ->.
    { destruct Heff as [-> | [-> | ->]]; [reflexivity | discriminate..]. }
    unfold AbortedAfter in Hrun. rewrite Hab1 in Hrun. cbn [orb] in Hrun.
    destruct (sp_abort t).
    { injection Hrun as <- <- <-. exists 1%nat.
      split; [lia|]. split; [discriminate|].
      intros _ _ _. split; [|intros _ Hna; discriminate].
      intros j Hj. assert (j = 0%nat) as -> by lia. lia. }
    replace (set_aborted false m) with m in Hrun
      by (rewrite <- Hab1; symmetry; apply set_aborted_same).
    apply IH in Hrun as (c & Hn & Htrue & Htime).
    exists (S c). split; [lia|].
    split.
    { intros Hb. destruct (Htrue Hb) as (Hm & t' & Hc1 & Hl & Hr).
      split; [exact Hm|]. exists t'. split; [lia|]. split; [|exact Hr].
      replace (S c - 1)%nat with (S (c - 1))%nat by lia. exact Hl. }
    intros Hs Hr Hcw.
    assert (Hadd : add64 curwt sleep = curwt + sleep).
    { apply wrap64_id. unfold in_int64, int64_min, int64_max in *. lia. }
    rewrite Hadd in Htime. destruct (Htime Hs Hr ltac:(lia)) as [Hbound Hfalse].
    split.
    + intros j Hj. destruct j as [|j]; [lia|].
      specialize (Hbound j ltac:(lia)). lia.
    + intros Hb Hna. destruct (Hfalse Hb Hna) as [Hm Hout]. split; [exact Hm | lia].
Qed.

End WaitStageFacts.

Section WaitStageTheorems.
Import Cmn Cluster Reb Samples.

(** X6: [waitStage] answers true only when its last pass found the peer
    in the awaited stage - through the stage registry (push
    notification), or through a status poll of a peer that is in the
    run's epoch, has not aborted and reports a stage at least the awaited
    one - and then the local manager is as it was at the call. *)
Theorem waitStage_true_reached
    (config : Config) (ver : Z) (stage : N) (trace : list StagePoll)
    (m m' : Manager) (n : nat) :
  waitStage_run config ver stage trace m = Ret (m', true, n) ->
  waitStage config ver stage trace m = Ret (m', true)
  /\ m' = m
  /\ exists t, (1 <= n)%nat /\ trace !! (n - 1)%nat = Some t /\ reached ver stage m t.
Proof.
  intros Hrun. split; [unfold waitStage; rewrite Hrun; reflexivity|].
  unfold waitStage_run in Hrun.
  apply waitStage_loop_inv in Hrun as (c & Hn & Htrue & _).
  simpl in Hn. subst c. exact (Htrue eq_refl).
Qed.

(** The peer is behind on the first pass and has pushed its stage by the
    second. *)
Lemma waitStage_true_reached_witness :
  waitStage quiesce_config 7 rebStageFin [poll_stale; poll_pushed] reb_run10
  = Ret (reb_run10, true).
Proof.
  apply (waitStage_true_reached quiesce_config 7 rebStageFin [poll_stale; poll_pushed]
           reb_run10 reb_run10 2).
  vm_compute; reflexivity.
Defined.

(** X7: with a non-negative tick and a deadline that does not overflow,
    [waitStage] polls only while the time waited is below the deadline
    DestRetryTime + DestRetryTime/2, and it gives up (answers false)
    only when the run is aborted or the deadline is used up; in the
    latter case the manager is as it was at the call. *)
Theorem waitStage_false_aborted_or_timeout
    (config : Config) (ver : Z) (stage : N) (trace : list StagePoll)
    (m m' : Manager) (b : bool) (n : nat) :
  waitStage_run config ver stage trace m = Ret (m', b, n) ->
  0 <= waitStage_sleep config ->
  in_int64 (waitStage_maxwt config + waitStage_sleep config) ->
  (forall j : nat, (j < n)%nat ->
     Z.of_nat j * waitStage_sleep config < waitStage_maxwt config)
  /\ (b = false ->
      xreb_aborted m' = true
      \/ (m' = m /\ waitStage_maxwt config <= Z.of_nat n * waitStage_sleep config)).
Proof.
  intros Hrun Hs Hr. unfold waitStage_run in Hrun.
  apply waitStage_loop_inv in Hrun as (c & Hn & _ & Htime).
  simpl in Hn. subst c. destruct (Htime Hs Hr ltac:(lia)) as [Hbound Hfalse].
  split.
  - intros j Hj. specialize (Hbound j Hj). lia.
  - intros Hb. destruct (xreb_aborted m') eqn:Ha; [left; reflexivity|].
    right. destruct (Hfalse Hb eq_refl) as [Hm Hout]. split; [exact Hm | lia].
Qed.

(** Forty-five polls of a peer that stays behind use up the three
    minutes of the default configuration. *)
Lemma waitStage_false_aborted_or_timeout_witness :
  waitStage_run quiesce_config 7 rebStageFin (replicate 45 poll_stale) reb_run10
    = Ret (reb_run10, false, 45%nat)
  /\ waitStage_maxwt quiesce_config <= 45 * waitStage_sleep quiesce_config.
Proof.
  assert (H : waitStage_run quiesce_config 7 rebStageFin (replicate 45 poll_stale) reb_run10
              = Ret (reb_run10, false, 45%nat)) by (vm_compute; reflexivity).
  split; [exact H|].
  destruct (waitStage_false_aborted_or_timeout _ _ _ _ _ _ _ _ H) as [_ Hf];
    [vm_compute; discriminate | vm_compute; split; discriminate|].
  destruct (Hf eq_refl) as [Ha | [_ Ht]]; [discriminate Ha | exact Ht].
Defined.

End WaitStageTheorems.

(** ** Rebalance: broadcasts and counting the peers *)

Section CountingFacts.
Import Cmn Cluster Reb Samples.

Lemma values_of_map (smap : Smap) (P : Snode -> Prop) :
  Forall P (map_to_list (Tmap smap)).*2
  <-> forall id si, Tmap smap !! id = Some si -> P si.
Proof.
  rewrite Forall_forall. split.
  - intros H id si Hl. apply H. apply list_elem_of_fmap.
    exists (id, si). split; [reflexivity|]. by apply elem_of_map_to_list.
  - intros H si Hin. apply list_elem_of_fmap in Hin as ([id si'] & -> & Hin).
    apply elem_of_map_to_list in Hin. eapply H. exact Hin.
Qed.

Lemma values_of_map_length (smap : Smap) :
  length (map_to_list (Tmap smap)).*2 = size (Tmap smap).
Proof. by rewrite length_fmap, length_map_to_list. Qed.

Lemma wrap32_id x : - 2 ^ 31 <= x < 2 ^ 31 -> wrap32 x = x.
Proof.
  intros Hx. unfold wrap32. rewrite Z.mod_small; lia.
Qed.

Lemma bcast_fold (self : string) (cb : Snode -> bool) (l : list Snode) (c : Z) :
  0 <= c -> c + Z.of_nat (length l) < 2 ^ 31 ->
  c <= fold_left (bcast_body self cb) l c <= c + Z.of_nat (length l)
  /\ (fold_left (bcast_body self cb) l c = c
      <-> Forall (fun si => DaemonID si <> self -> cb si = true) l).
Proof.
  revert c. induction l as [|si l IH]; intros c Hc Hlen.
  - simpl. split; [lia|]. split; [constructor | reflexivity].
  - cbn [fold_left length] in *.
    assert (Hbody : (bcast_body self cb c si = c
                     /\ (DaemonID si <> self -> cb si = true))
                    \/ (bcast_body self cb c si = c + 1
                        /\ DaemonID si <> self /\ cb si = false)).
    { unfold bcast_body. destruct (String.eqb_spec (DaemonID si) self) as [He|Hne].
      - left. split; [reflexivity | intros; contradiction].
      - destruct (cb si) eqn:Hcb; simpl.
        + left. auto.
        + right. rewrite wrap32_id by lia. auto. }
    destruct Hbody as [[-> Hgood] | (-> & Hne & Hcb)].
    + destruct (IH c ltac:(lia) ltac:(lia)) as [Hr Hiff].
      split; [lia|]. rewrite Hiff. split.
      * intros H. constructor; assumption.
      * intros H. by inversion H.
    + destruct (IH (c + 1) ltac:(lia) ltac:(lia)) as [Hr _].
      split; [lia|]. split; [lia|].
      intros H. inversion H as [|? ? Hh _]; subst.
      rewrite (Hh Hne) in Hcb. discriminate.
Qed.

Lemma nodesNotInStage_fold (self : string) (stage : N) (o : PushObs)
    (l : list Snode) (c : Z) :
  c <= fold_left (nodesNotInStage_body self stage o) l c <= c + Z.of_nat (length l)
  /\ (fold_left (nodesNotInStage_body self stage o) l c = c
      <-> Forall (fun si => DaemonID si <> self ->
                   obs_inStage o (DaemonID si) stage = true
                   /\ (stage = rebStageECDetect -> obs_nodeData o (DaemonID si) = true)) l).
Proof.
  revert c. induction l as [|si l IH]; intros c.
  - simpl. split; [lia|]. split; [constructor | reflexivity].
  - cbn [fold_left length] in *.
    assert (Hbody : (nodesNotInStage_body self stage o c si = c
                     /\ (DaemonID si <> self ->
                         obs_inStage o (DaemonID si) stage = true
                         /\ (stage = rebStageECDetect ->
                             obs_nodeData o (DaemonID si) = true)))
                    \/ (nodesNotInStage_body self stage o c si = c + 1
                        /\ DaemonID si <> self
                        /\ (obs_inStage o (DaemonID si) stage = false
                            \/ (stage = rebStageECDetect
                                /\ obs_nodeData o (DaemonID si) = false)))).
    { unfold nodesNotInStage_body.
      destruct (String.eqb_spec (DaemonID si) self) as [He|Hne].
      - left. split; [reflexivity | intros; contradiction].
      - destruct (obs_inStage o (DaemonID si) stage) eqn:Hin; simpl.
        2:{ right. auto. }
        destruct (N.eqb_spec stage rebStageECDetect) as [Hs|Hs]; simpl.
        + destruct (obs_nodeData o (DaemonID si)) eqn:Hnd; simpl.
          * left. auto.
          * right. auto.
        + left. split; [reflexivity|]. intros _. split; [reflexivity|].
          intros; contradiction. }
    destruct Hbody as [[-> Hgood] | (-> & Hne & Hbad)].
    + destruct (IH c) as [Hr Hiff].
      split; [lia|]. rewrite Hiff. split.
      * intros H. constructor; assumption.
      * intros H. by inversion H.
    + destruct (IH (c + 1)) as [Hr _].
      split; [lia|]. split; [lia|].
      intros H. inversion H as [|? ? Hh _]; subst.
      destruct (Hh Hne) as [Hin Hnd].
      destruct Hbad as [Hbad | [Hs Hbad]]; [congruence|].
      rewrite (Hnd Hs) in Hbad. discriminate.
Qed.

(** X8: with fewer than 2^31 targets in the cluster map, the error
    count of [bcast] lies between 0 and the number of targets, and it
    is 0 exactly when the callback succeeded for every target other
    than this one (the callback's answer for this target itself does
    not matter). *)
Theorem bcast_zero_iff_all_ok (self : string) (smap : Smap) (cb : Snode -> bool) :
  Z.of_nat (size (Tmap smap)) < 2 ^ 31 ->
  0 <= bcast self smap cb <= Z.of_nat (size (Tmap smap))
  /\ (bcast self smap cb = 0
      <-> forall id si, Tmap smap !! id = Some si -> DaemonID si <> self -> cb si = true).
Proof.
  intros Hsize. unfold bcast.
  destruct (bcast_fold self cb (map_to_list (Tmap smap)).*2 0) as [Hr Hiff];
    [lia | rewrite values_of_map_length; lia |].
  rewrite values_of_map_length in Hr. split; [lia|].
  rewrite Hiff. apply values_of_map.
Qed.

(** Among ten targets seen from "t0", the callback fails for "t0" only. *)
Lemma bcast_zero_iff_all_ok_witness :
  bcast "t0" ten_targets (fun si => negb (String.eqb (DaemonID si) "t0")) = 0.
Proof.
  apply (bcast_zero_iff_all_ok "t0" ten_targets
           (fun si => negb (String.eqb (DaemonID si) "t0"))).
  - vm_compute. reflexivity.
  - intros id si _ Hne. apply negb_true_iff. by apply String.eqb_neq.
Defined.

(** X9: the count returned by [nodesNotInStage] lies between 0 and the
    number of targets, and it is 0 exactly when every target other than
    this one is in the stage according to the stage registry and, when
    the stage is "EC detect", has also delivered its EC node data. *)
Theorem nodesNotInStage_zero_iff_all_reached
    (self : string) (smap : Smap) (stage : N) (o : PushObs) :
  0 <= nodesNotInStage self smap stage o <= Z.of_nat (size (Tmap smap))
  /\ (nodesNotInStage self smap stage o = 0
      <-> forall id si, Tmap smap !! id = Some si -> DaemonID si <> self ->
            obs_inStage o (DaemonID si) stage = true
            /\ (stage = rebStageECDetect -> obs_nodeData o (DaemonID si) = true)).
Proof.
  unfold nodesNotInStage.
  destruct (nodesNotInStage_fold self stage o (map_to_list (Tmap smap)).*2 0)
    as [Hr Hiff].
  rewrite values_of_map_length in Hr. split; [lia|].
  rewrite Hiff.
  apply (values_of_map smap
           (fun si => DaemonID si <> self ->
              obs_inStage o (DaemonID si) stage = true
              /\ (stage = rebStageECDetect -> obs_nodeData o (DaemonID si) = true))).
Qed.

End CountingFacts.

(** ** Rebalance: pinging a target, waiting for an event, quiescence *)

Section PingWaitFacts.
Import Cmn Cluster Reb Samples.

Lemma pingTarget_loop_returns (ver : Z) (n : nat) :
  forall (trace : list PingTry) (calls : nat),
  (n <= length trace)%nat ->
  exists b k, pingTarget_loop ver n trace calls = Ret (b, k).
Proof.
  induction n as [|n IH]; intros trace calls Hlen; simpl.
  - eauto.
  - destruct trace as [|t trace]; [simpl in Hlen; lia|].
    destruct (ping_ok t); [eauto|].
    destruct (ping_nver t >? ver); [eauto|].
    apply IH. simpl in Hlen. lia.
Qed.

Lemma pingTarget_loop_inv (ver : Z) (n : nat) :
  forall (trace : list PingTry) (calls : nat) (b : bool) (k : nat),
  pingTarget_loop ver (S n) trace calls = Ret (b, k) ->
  exists c : nat,
    k = (calls + S c)%nat /\ (c <= n)%nat
    /\ (forall j t, (j < c)%nat -> trace !! j = Some t ->
          ping_ok t = false /\ ping_nver t <= ver)
    /\ exists t, trace !! c = Some t
         /\ if b then ping_ok t = true
            else ping_ok t = false /\ (ver < ping_nver t \/ c = n).
Proof.
  induction n as [|n IH]; intros trace calls b k Hrun.
  - cbn [pingTarget_loop] in Hrun. destruct trace as [|t trace]; [discriminate|].
    exists 0%nat. split.
    { destruct (ping_ok t); [|destruct (ping_nver t >? ver)];
        injection Hrun as <- <-; lia. }
    split; [lia|]. split; [intros; lia|].
    exists t. split; [reflexivity|].
    destruct (ping_ok t) eqn:Hok; [by injection Hrun as <- <-|].
    destruct (ping_nver t >? ver); injection Hrun as <- <-; auto.
  - remember (S n) as n1. cbn [pingTarget_loop] in Hrun.
    destruct trace as [|t trace]; [discriminate|].
    destruct (ping_ok t) eqn:Hok.
    { injection Hrun as <- <-. exists 0%nat. split; [lia|]. split; [lia|].
      split; [intros; lia|]. exists t. auto. }
    destruct (Z.gtb_spec (ping_nver t) ver) as [Hgt|Hle].
    { injection Hrun as <- <-. exists 0%nat. split; [lia|]. split; [lia|].
      split; [intros; lia|]. exists t. split; [reflexivity|]. split; [exact Hok|].
      left. lia. }
    subst n1. apply IH in Hrun as (c & Hk & Hc & Hbefore & t' & Hl & Hlast).
    exists (S c). split; [lia|]. split; [lia|]. split.
    + intros j tj Hj Hlj. destruct j as [|j].
      * injection Hlj as <-. split; [exact Hok | lia].
      * apply (Hbefore j tj); [lia | exact Hlj].
    + exists t'. split; [exact Hl|].
      destruct b; [exact Hlast|].
      destruct Hlast as [Hf [Hn | Hn]]; (split; [exact Hf|]); [left; exact Hn | right; lia].
Qed.

Lemma set_aborted_false (m : Manager) :
  false = xreb_aborted m -> set_aborted false m = m.
Proof. intros H. rewrite H. apply set_aborted_same. Qed.

Lemma waitEvent_loop_inv (sleep toWait : Z) :
  forall (trace : list EventTick) (waited : Z) (aborted : bool) (m : Manager)
         (passes : nat) (m' : Manager) (a : bool) (n : nat),
  waitEvent_loop sleep toWait trace waited aborted m passes = Ret (m', a, n) ->
  aborted = xreb_aborted m ->
  a = xreb_aborted m'
  /\ (m' = m \/ m' = xreb_Abort m)
  /\ exists c : nat,
       n = (passes + c)%nat
       /\ (c = 0%nat <-> aborted = true)
       /\ (forall j t, (S j < c)%nat -> trace !! j = Some t -> et_cb t = false)
       /\ (a = false ->
           m' = m
           /\ exists t, (1 <= c)%nat /\ trace !! (c - 1)%nat = Some t
                /\ (et_cb t = true \/ (et_cb t = false /\ 0 < toWait)))
       /\ (0 <= sleep -> 0 <= waited -> waited <= toWait -> 0 < toWait ->
           in_int64 (toWait + sleep) ->
           (forall j : nat, (S j < c)%nat -> waited + Z.of_nat (S j) * sleep <= toWait)
           /\ (a = false ->
               forall t, trace !! (c - 1)%nat = Some t -> et_cb t = false ->
               toWait < waited + Z.of_nat c * sleep)).
Proof.
  induction trace as [|t trace IH]; intros waited aborted m passes m' a n Hrun Hab;
    cbn [waitEvent_loop] in Hrun.
  - destruct aborted; [|discriminate]. injection Hrun as <- <- <-.
    split; [exact Hab|]. split; [auto|]. exists 0%nat.
    split; [lia|]. split; [tauto|]. split; [intros; lia|].
    split; [discriminate|]. intros _ _ _ _ _. split; [intros; lia | discriminate].
  - destruct aborted; cbn [negb] in Hrun.
    { injection Hrun as <- <- <-.
      split; [exact Hab|]. split; [auto|]. exists 0%nat.
      split; [lia|]. split; [tauto|]. split; [intros; lia|].
      split; [discriminate|]. intros _ _ _ _ _. split; [intros; lia | discriminate]. }
    destruct (et_cb t) eqn:Hcb.
    { injection Hrun as <- <- <-.
      split; [exact Hab|]. split; [auto|]. exists 1%nat.
      split; [lia|]. split; [split; [lia | discriminate]|].
      split; [intros; lia|].
      split.
      { intros _. split; [reflexivity|]. exists t. simpl. auto. }
      intros _ _ _ _ _. split; [intros; lia|].
      intros _ t' Ht' Hcb'. simpl in Ht'. injection Ht' as <-. congruence. }
    unfold AbortedAfter in Hrun. rewrite <- Hab in Hrun. cbn [orb] in Hrun.
    destruct (Z.gtb_spec toWait 0) as [Hto|Hto]; cbn [andb] in Hrun.
    + destruct (Z.gtb_spec (add64 waited sleep) toWait) as [Hout|Hin].
      * injection Hrun as <- <- <-.
        split; [reflexivity|].
        split.
        { destruct (et_abort t); [right | left]; [reflexivity|].
          by apply set_aborted_false. }
        exists 1%nat. split; [lia|]. split; [split; [lia | discriminate]|].
        split; [intros; lia|].
        split.
        { intros Ha. simpl in Ha. rewrite Ha. split; [by apply set_aborted_false|].
          exists t. simpl. split; [lia|]. split; [reflexivity|]. right. split; [exact Hcb | lia]. }
        intros Hs Hw Hle Hpos Hr. split; [intros; lia|].
        intros _ _ _ _.
        assert (Hadd : add64 waited sleep = waited + sleep).
        { apply wrap64_id. unfold in_int64, int64_min, int64_max in *. lia. }
        rewrite Hadd in Hout. lia.
      * destruct (et_abort t) eqn:Hext.
        { (* aborted during the sleep: the next pass leaves the loop *)
          destruct trace as [|t2 trace2]; cbn [waitEvent_loop negb] in Hrun;
            injection Hrun as <- <- <-;
            (split; [reflexivity|]; split; [right; reflexivity|];
             exists 1%nat; split; [lia|]; split; [split; [lia | discriminate]|];
             split; [intros; lia|]; split; [discriminate|];
             intros _ _ _ _ _; split; [intros; lia | discriminate]). }
        replace (set_aborted false m) with m in Hrun
          by (symmetry; by apply set_aborted_false).
        apply IH in Hrun as (Ha & Hm & c & Hn & Hzero & Hbefore & Hfalse & Htime);
          [|exact Hab].
        assert (Hc : (1 <= c)%nat).
        { destruct c; [|lia]. destruct Hzero as [Hz _]. specialize (Hz eq_refl). discriminate. }
        split; [exact Ha|]. split; [exact Hm|].
        exists (S c). split; [lia|]. split; [split; [lia | discriminate]|].
        split.
        { intros j tj Hj Hl. destruct j as [|j]; [by injection Hl as <-|].
          apply (Hbefore j tj); [lia | exact Hl]. }
        split.
        { intros Haf. destruct (Hfalse Haf) as (Hm' & t' & _ & Hl & Hw).
          split; [exact Hm'|]. exists t'. split; [lia|]. split; [|exact Hw].
          replace (S c - 1)%nat with (S (c - 1)) by lia. exact Hl. }
        intros Hs Hw Hle Hpos Hr.
        assert (Hadd : add64 waited sleep = waited + sleep).
        { apply wrap64_id. unfold in_int64, int64_min, int64_max in *. lia. }
        rewrite Hadd in Htime, Hin.
        destruct (Htime Hs ltac:(lia) ltac:(lia) ltac:(lia) Hr) as [Hb Hf].
        split.
        -- intros j Hj. destruct j as [|j]; [lia|].
           specialize (Hb j ltac:(lia)). lia.
        -- intros Haf t' Hl Hcb'.
           replace (S c - 1)%nat with (S (c - 1)) in Hl by lia.
           specialize (Hf Haf t' Hl Hcb'). lia.
    + destruct (et_abort t) eqn:Hext.
      { destruct trace as [|t2 trace2]; cbn [waitEvent_loop negb] in Hrun;
          injection Hrun as <- <- <-;
          (split; [reflexivity|]; split; [right; reflexivity|];
           exists 1%nat; split; [lia|]; split; [split; [lia | discriminate]|];
           split; [intros; lia|]; split; [discriminate|];
           intros _ _ _ _ _; split; [intros; lia | discriminate]). }
      replace (set_aborted false m) with m in Hrun
        by (symmetry; by apply set_aborted_false).
      apply IH in Hrun as (Ha & Hm & c & Hn & Hzero & Hbefore & Hfalse & Htime);
        [|exact Hab].
      assert (Hc : (1 <= c)%nat).
      { destruct c; [|lia]. destruct Hzero as [Hz _]. specialize (Hz eq_refl). discriminate. }
      split; [exact Ha|]. split; [exact Hm|].
      exists (S c). split; [lia|]. split; [split; [lia | discriminate]|].
      split.
      { intros j tj Hj Hl. destruct j as [|j]; [by injection Hl as <-|].
        apply (Hbefore j tj); [lia | exact Hl]. }
      split.
      { intros Haf. destruct (Hfalse Haf) as (Hm' & t' & _ & Hl & Hw).
        split; [exact Hm'|]. exists t'. split; [lia|]. split; [|exact Hw].
        replace (S c - 1)%nat with (S (c - 1)) by lia. exact Hl. }
      intros Hs Hw Hle Hpos Hr. lia.
Qed.

Lemma nodesQuiescent_loop_inv (self : string) (localQ : bool) (ver : Z) (locStage : N)
    (poll : string -> HealthReply * bool * HealthReply) :
  forall (nodes : list Snode) (m m' : Manager),
  nodesQuiescent_loop self localQ ver locStage poll nodes m = (m', true) ->
  m' = m
  /\ Forall (fun si =>
       (DaemonID si = self -> localQ = true)
       /\ exists st, polled m (poll (DaemonID si)).1.1 (poll (DaemonID si)).1.2
                       (poll (DaemonID si)).2 = Some st
            /\ Quiescent st = true
            /\ SmapVersion st = ver /\ RebVersion st = ver
            /\ GlobRebID st = globRebID m /\ Aborted st = false
            /\ (locStage <= Stage st)%N) nodes.
Proof.
  induction nodes as [|si nodes IH]; intros m m' Hrun; cbn [nodesQuiescent_loop] in Hrun.
  - injection Hrun as <-. split; [reflexivity | constructor].
  - destruct (String.eqb_spec (DaemonID si) self) as [He|Hne];
      destruct localQ eqn:HQ; cbn [andb negb] in Hrun; try discriminate.
    all: destruct (poll (DaemonID si)) as [[r1 ext] r2] eqn:Hp.
    all: destruct (checkGlobStatus m ver locStage r1 ext r2) as [[m1 status] ok] eqn:Hc.
    all: destruct ok; cbn [negb orb] in Hrun; [|discriminate].
    all: apply checkGlobStatus_ok_inv in Hc
           as (-> & st & -> & Hpolled & Hs & Hr & Hg & Ha & Hst).
    all: destruct (Quiescent st) eqn:Hq; cbn [negb] in Hrun; [|discriminate].
    all: apply IH in Hrun as [-> Hall].
    all: split; [reflexivity|]; constructor; [|exact Hall].
    all: split; [intros; congruence || reflexivity|].
    all: exists st; rewrite Hp; simpl; auto 10.
Qed.

End PingWaitFacts.

Section PingWaitTheorems.
Import Cmn Cluster Reb Samples.

(** X10: given the outcome of three attempts, [pingTarget] returns, and
    whenever it returns it has made between one and three Health calls;
    every call but the last one failed while the Smap version was still
    not newer than the run's; it answers true exactly when the last call
    made succeeded, and it answers false either because a newer Smap
    version was seen after the failure or because the third call failed
    too. *)
Theorem pingTarget_last_call (ver : Z) (trace : list PingTry) :
  ((3 <= length trace)%nat -> exists b k, pingTarget ver trace = Ret (b, k))
  /\ forall (b : bool) (k : nat),
     pingTarget ver trace = Ret (b, k) ->
     (1 <= k <= 3)%nat
     /\ (forall j t, (S j < k)%nat -> trace !! j = Some t ->
           ping_ok t = false /\ ping_nver t <= ver)
     /\ exists t, trace !! (k - 1)%nat = Some t
          /\ if b then ping_ok t = true
             else ping_ok t = false /\ (ver < ping_nver t \/ k = 3%nat).
Proof.
  split; [apply pingTarget_loop_returns|].
  intros b k Hrun. unfold pingTarget in Hrun.
  apply pingTarget_loop_inv in Hrun as (c & -> & Hc & Hbefore & t & Hl & Hlast).
  simpl. split; [lia|]. split.
  - intros j tj Hj. apply Hbefore. lia.
  - exists t. rewrite Nat.sub_0_r. split; [exact Hl|].
    destruct b; [exact Hlast|]. destruct Hlast as [Hf [Hn | ->]]; auto.
Qed.

(** The target answers the second Health call. *)
Lemma pingTarget_last_call_witness :
  exists b k, pingTarget 7 [mkPingTry false 7; mkPingTry true 7; mkPingTry true 7]
              = Ret (b, k).
Proof.
  apply (proj1 (pingTarget_last_call 7
                  [mkPingTry false 7; mkPingTry true 7; mkPingTry true 7])).
  simpl. lia.
Defined.

(** X11: when [waitEvent] returns, the flag it returns is the abort
    state of the xaction, and the only change it can have made to the
    manager is that abort. It makes no pass at all exactly when the
    xaction is aborted at the call, and the callback was false on every
    pass but the last. When it returns "not aborted", the manager is as
    at the call and the last pass either had the callback return true,
    or a positive [maxWait] was given: without [maxWait] (or with a
    non-positive one) only the callback or an abort ends the wait. *)
Theorem waitEvent_returns
    (config : Config) (maxWait : option Z) (trace : list EventTick)
    (m m' : Manager) (a : bool) (n : nat) :
  waitEvent config maxWait trace m = Ret (m', a, n) ->
  a = xreb_aborted m'
  /\ (m' = m \/ m' = xreb_Abort m)
  /\ (n = 0%nat <-> xreb_aborted m = true)
  /\ (forall j t, (S j < n)%nat -> trace !! j = Some t -> et_cb t = false)
  /\ (a = false ->
      m' = m
      /\ exists t, (1 <= n)%nat /\ trace !! (n - 1)%nat = Some t
           /\ (et_cb t = true
               \/ (et_cb t = false /\ exists w, maxWait = Some w /\ 0 < w))).
Proof.
  intros Hrun. unfold waitEvent in Hrun. cbv zeta in Hrun.
  apply waitEvent_loop_inv in Hrun
    as (Ha & Hm & c & Hn & Hzero & Hbefore & Hfalse & _); [|reflexivity].
  simpl in Hn. subst c.
  split; [exact Ha|]. split; [exact Hm|]. split; [exact Hzero|].
  split; [exact Hbefore|].
  intros Haf. destruct (Hfalse Haf) as (Hm' & t & Hn & Hl & Hw).
  split; [exact Hm'|]. exists t. split; [exact Hn|]. split; [exact Hl|].
  destruct Hw as [Hw | [Hcb Hw]]; [left; exact Hw|].
  right. split; [exact Hcb|]. destruct maxWait as [w|]; [eauto | lia].
Qed.

(** The callback turns true on the third pass. *)
Lemma waitEvent_returns_witness :
  waitEvent quiesce_config None
    [mkEventTick false false; mkEventTick false false; mkEventTick true false]
    quiesce_mgr = Ret (quiesce_mgr, false, 3%nat)
  /\ false = xreb_aborted quiesce_mgr.
Proof.
  assert (H : waitEvent quiesce_config None
                [mkEventTick false false; mkEventTick false false; mkEventTick true false]
                quiesce_mgr = Ret (quiesce_mgr, false, 3%nat)) by (vm_compute; reflexivity).
  split; [exact H|].
  exact (proj1 (waitEvent_returns _ _ _ _ _ _ _ H)).
Defined.

(** X12: with a non-negative tick and a positive [maxWait] such that
    [maxWait + tick] does not overflow, [waitEvent] starts a further
    pass only while the time waited is at most [maxWait], and when it
    returns "not aborted" although the callback was false on the last
    pass, the time waited (the number of passes times the tick) exceeds
    [maxWait]. *)
Theorem waitEvent_timeout
    (config : Config) (w : Z) (trace : list EventTick)
    (m m' : Manager) (a : bool) (n : nat) :
  waitEvent config (Some w) trace m = Ret (m', a, n) ->
  0 <= CplaneOperation (Timeout config) -> 0 < w ->
  in_int64 (w + CplaneOperation (Timeout config)) ->
  (forall j : nat, (S j < n)%nat ->
     Z.of_nat (S j) * CplaneOperation (Timeout config) <= w)
  /\ (a = false ->
      forall t, trace !! (n - 1)%nat = Some t -> et_cb t = false ->
      w < Z.of_nat n * CplaneOperation (Timeout config)).
Proof.
  intros Hrun Hs Hw Hr. unfold waitEvent in Hrun. cbv zeta in Hrun.
  apply waitEvent_loop_inv in Hrun
    as (_ & _ & c & Hn & _ & _ & _ & Htime); [|reflexivity].
  simpl in Hn. subst c.
  destruct (Htime Hs ltac:(lia) ltac:(lia) ltac:(lia) Hr) as [Hb Hf].
  split.
  - intros j Hj. specialize (Hb j Hj). lia.
  - intros Haf t Hl Hcb. specialize (Hf Haf t Hl Hcb). lia.
Qed.

(** With the 2 s tick and a [maxWait] of 5 s the wait ends on the third
    pass, after 6 s. *)
Lemma waitEvent_timeout_witness :
  waitEvent quiesce_config (Some (5 * Second)) (replicate 3 (mkEventTick false false))
    quiesce_mgr = Ret (quiesce_mgr, false, 3%nat)
  /\ 5 * Second < 3 * CplaneOperation (Timeout quiesce_config).
Proof.
  assert (H : waitEvent quiesce_config (Some (5 * Second))
                (replicate 3 (mkEventTick false false)) quiesce_mgr
              = Ret (quiesce_mgr, false, 3%nat)) by (vm_compute; reflexivity).
  split; [exact H|].
  destruct (waitEvent_timeout _ _ _ _ _ _ _ H) as [_ Hf];
    [vm_compute; discriminate | vm_compute; reflexivity
     | vm_compute; split; discriminate |].
  apply (Hf eq_refl (mkEventTick false false)); reflexivity.
Defined.

(** X13: [nodesQuiescent] answers true only when the local manager is
    left as it was, this target (if it is in the map) is itself
    quiescent, and for every target of the map the status poll obtained
    a status that reports quiescence, is in the run's epoch, has not
    aborted and is at least at the local stage. *)
Theorem nodesQuiescent_true
    (self : string) (localQ : bool) (smap : Smap) (locStage : N)
    (poll : string -> HealthReply * bool * HealthReply) (m m' : Manager) :
  nodesQuiescent self localQ smap locStage poll m = (m', true) ->
  m' = m
  /\ forall id si, Tmap smap !! id = Some si ->
       (DaemonID si = self -> localQ = true)
       /\ exists st, polled m (poll (DaemonID si)).1.1 (poll (DaemonID si)).1.2
                       (poll (DaemonID si)).2 = Some st
            /\ Quiescent st = true
            /\ SmapVersion st = Version smap /\ RebVersion st = Version smap
            /\ GlobRebID st = globRebID m /\ Aborted st = false
            /\ (locStage <= Stage st)%N.
Proof.
  intros Hrun. unfold nodesQuiescent in Hrun.
  apply nodesQuiescent_loop_inv in Hrun as [-> Hall].
  split; [reflexivity|].
  exact (proj1 (values_of_map smap _) Hall).
Qed.

(** All ten targets report the "fin" stage of the run and quiescence. *)
Lemma nodesQuiescent_true_witness :
  nodesQuiescent "t0" true ten_targets rebStageFin
    (fun _ => (HealthBody status_fin false, false, HealthErr)) reb_run10
  = (reb_run10, true)
  /\ forall id si, Tmap ten_targets !! id = Some si ->
       exists st, polled reb_run10 (HealthBody status_fin false) false HealthErr = Some st
                  /\ Quiescent st = true.
Proof.
  assert (H : nodesQuiescent "t0" true ten_targets rebStageFin
                (fun _ => (HealthBody status_fin false, false, HealthErr)) reb_run10
              = (reb_run10, true)) by (vm_compute; reflexivity).
  split; [exact H|].
  intros id si Hl.
  destruct (proj2 (nodesQuiescent_true _ _ _ _ _ _ _ H) id si Hl)
    as (_ & st & Hp & Hq & _).
  exists st. split; [exact Hp | exact Hq].
Defined.

End PingWaitTheorems.

(** ** Rebalance: sending an object and the completion callback *)

Section SendMoreFacts.
Import Cmn Cluster Reb Samples.

Lemma rlocks_Lock_Unlock (lom : LOM) (s : JogState) :
  js_rlocks (lom_Unlock lom (lom_Lock lom s))
  = <[Uname lom := default 0 (js_rlocks s !! Uname lom)]> (js_rlocks s).
Proof.
  unfold lom_Unlock, lom_Lock. simpl. rewrite lookup_insert_eq, insert_insert_eq.
  simpl. f_equal. lia.
Qed.

Lemma send_not_transmitted_inv (env : SendEnv) (lom : LOM) (addAck : bool)
    (s s' : JogState) (r : option string) :
  send env lom addAck s = Ret (s', r) ->
  is_Some r \/ env_isCopy env = true ->
  in_int64 (inQueue (js_mgr s)) ->
  js_rlocks s' = <[Uname lom := default 0 (js_rlocks s !! Uname lom)]> (js_rlocks s)
  /\ js_opaque s' = js_opaque s
  /\ inQueue (js_mgr s') = inQueue (js_mgr s)
  /\ laterx (js_mgr s') = laterx (js_mgr s)
  /\ xreb_aborted (js_mgr s') = xreb_aborted (js_mgr s)
  /\ globRebID (js_mgr s') = globRebID (js_mgr s)
  /\ length (lomAcks (js_mgr s')) = length (lomAcks (js_mgr s))
  /\ (addAck = false -> js_mgr s' = js_mgr s).
Proof.
  intros Hrun Hwhy Hq. unfold send, send_body in Hrun.
  pose proof (rlocks_Lock_Unlock lom s) as Hlocks.
  destruct (env_load env) as [e|].
  { simpl in Hrun. injection Hrun as <- <-. unfold send_deferred. simpl.
    rewrite <- Hlocks. auto 10. }
  destruct (env_isCopy env) eqn:Hcopy.
  { simpl in Hrun. injection Hrun as <- <-. unfold send_deferred. simpl.
    rewrite <- Hlocks. auto 10. }
  destruct (env_cksum env) as [e|].
  { simpl in Hrun. injection Hrun as <- <-. unfold send_deferred. simpl.
    rewrite <- Hlocks. auto 10. }
  destruct (env_open env) as [e|].
  { simpl in Hrun. injection Hrun as <- <-. unfold send_deferred. simpl.
    rewrite <- Hlocks. auto 10. }
  destruct (env_send env) as [e|].
  2:{ destruct addAck; [unfold ack_insert in Hrun; simpl in Hrun;
                        destruct (lomAcks (js_mgr s) !! HkeyIdx lom); [|discriminate]|];
        simpl in Hrun; injection Hrun as <- <-;
        destruct Hwhy as [[? [=]] | [=]]. }
  destruct addAck.
  - unfold ack_insert in Hrun. simpl in Hrun.
    destruct (lomAcks (js_mgr s) !! HkeyIdx lom) as [q|] eqn:Hsh; [|discriminate].
    simpl in Hrun. injection Hrun as <- <-.
    unfold send_deferred, ack_delete. simpl.
    assert (Hlen : (HkeyIdx lom < length (lomAcks (js_mgr s)))%nat)
      by (eapply lookup_lt_Some; exact Hsh).
    rewrite list_lookup_insert_eq by exact Hlen. simpl.
    rewrite !length_insert.
    split.
    { rewrite <- Hlocks. reflexivity. }
    split; [lia|]. split; [by apply add64_inc_dec|].
    split; [reflexivity|]. split; [reflexivity|]. split; [reflexivity|].
    split; [reflexivity | discriminate].
  - simpl in Hrun. injection Hrun as <- <-.
    unfold send_deferred. simpl.
    split.
    { rewrite <- Hlocks. reflexivity. }
    split; [lia|]. split; [by apply add64_inc_dec|].
    split; [reflexivity|]. split; [reflexivity|]. split; [reflexivity|].
    split; [reflexivity|]. intros _.
    rewrite add64_inc_dec by exact Hq. by destruct (js_mgr s).
Qed.

Lemma send_callback_inv (env : SendEnv) (lom : LOM) (s : JogState)
    (q : gmap string LOM) (st : RebStats) :
  env_load env = None -> env_isCopy env = false ->
  env_cksum env = None -> env_open env = None -> env_send env = None ->
  lomAcks (js_mgr s) !! HkeyIdx lom = Some q ->
  in_int64 (inQueue (js_mgr s)) ->
  exists s1 s2,
    send env lom true s = Ret (s1, None)
    /\ js_rlocks s1 !! Uname lom = Some (default 0 (js_rlocks s !! Uname lom) + 1)
    /\ js_opaque s1 = js_opaque s + 1
    /\ inQueue (js_mgr s1) = add64 (inQueue (js_mgr s)) 1
    /\ laterx (js_mgr s1) = true
    /\ lomAcks (js_mgr s1) !! HkeyIdx lom = Some (<[Uname lom := lom]> q)
    /\ objSentCallback (Size lom) lom None s1 st
       = Ret (s2, mkRebStats (add64 (TxRebCount st) 1) (add64 (TxRebSize st) (Size lom)))
    /\ js_rlocks s2 = <[Uname lom := default 0 (js_rlocks s !! Uname lom)]> (js_rlocks s)
    /\ js_opaque s2 = js_opaque s
    /\ inQueue (js_mgr s2) = inQueue (js_mgr s)
    /\ lomAcks (js_mgr s2) !! HkeyIdx lom = Some (<[Uname lom := lom]> q)
    /\ (forall err s3 st3, objSentCallback (Size lom) lom (Some err) s1 st = Ret (s3, st3) ->
          s3 = s2 /\ st3 = st).
Proof.
  intros Hload Hcopy Hck Hopen Hsend Hsh Hq.
  assert (Hlen : (HkeyIdx lom < length (lomAcks (js_mgr s)))%nat)
    by (eapply lookup_lt_Some; exact Hsh).
  unfold send, send_body. rewrite Hload, Hcopy, Hck, Hopen, Hsend.
  unfold ack_insert. simpl. rewrite Hsh. simpl.
  eexists. eexists. split; [reflexivity|].
  unfold send_deferred. simpl.
  split; [by rewrite lookup_insert_eq|].
  split; [reflexivity|]. split; [reflexivity|]. split; [reflexivity|].
  split; [by rewrite list_lookup_insert_eq|].
  unfold objSentCallback. rewrite Z.eqb_refl. cbn [negb].
  split; [reflexivity|].
  unfold lom_Unlock, with_mgr, mm_Free. simpl.
  rewrite lookup_insert_eq, insert_insert_eq. simpl.
  split; [f_equal; lia|]. split; [lia|].
  split; [by apply add64_inc_dec|].
  split; [by rewrite list_lookup_insert_eq|].
  intros err s3 st3 [= <- <-]. split; reflexivity.
Qed.

End SendMoreFacts.

Section SendMoreTheorems.
Import Cmn Cluster Reb Samples.

(** X14: when [send] returns an error (whichever call failed), or
    returns because the object is a copy, nothing is left behind: the
    shared lock on the object is released (its count is the one before
    the call, other objects' locks are untouched), no opaque buffer
    stays allocated, the in-queue counter and the [laterx] flag are as
    before, the run is not aborted by it, and without [addAck] the
    manager is unchanged altogether. *)
Theorem send_not_transmitted
    (env : SendEnv) (lom : LOM) (addAck : bool) (s s' : JogState) (r : option string) :
  send env lom addAck s = Ret (s', r) ->
  is_Some r \/ env_isCopy env = true ->
  in_int64 (inQueue (js_mgr s)) ->
  js_rlocks s' = <[Uname lom := default 0 (js_rlocks s !! Uname lom)]> (js_rlocks s)
  /\ js_opaque s' = js_opaque s
  /\ inQueue (js_mgr s') = inQueue (js_mgr s)
  /\ laterx (js_mgr s') = laterx (js_mgr s)
  /\ xreb_aborted (js_mgr s') = xreb_aborted (js_mgr s)
  /\ globRebID (js_mgr s') = globRebID (js_mgr s)
  /\ length (lomAcks (js_mgr s')) = length (lomAcks (js_mgr s))
  /\ (addAck = false -> js_mgr s' = js_mgr s).
Proof. apply send_not_transmitted_inv. Qed.

(** A copy is skipped without an error. *)
Lemma send_not_transmitted_witness :
  exists s', send env_copy sample_lom false sample_jog = Ret (s', None)
             /\ js_mgr s' = js_mgr sample_jog.
Proof.
  exists (lom_Unlock sample_lom (lom_Lock sample_lom sample_jog)).
  assert (H : send env_copy sample_lom false sample_jog
              = Ret (lom_Unlock sample_lom (lom_Lock sample_lom sample_jog), None))
    by reflexivity.
  split; [exact H|].
  destruct (send_not_transmitted _ _ _ _ _ _ H) as (_ & _ & _ & _ & _ & _ & _ & Hm).
  - right. reflexivity.
  - unfold in_int64, int64_min, int64_max. simpl. lia.
  - exact (Hm eq_refl).
Defined.

(** X15: a successful [send] with [addAck] followed by the completion
    callback [objSentCallback] (for the header built by [send], whose
    size is the object's). After [send] the object is share-locked once
    more, one opaque buffer is allocated, the in-queue counter is
    incremented, [laterx] is set and the object is cached in its ack
    shard. The callback undoes the lock, the buffer and the counter,
    leaves the ack pending, and on success counts one object and its
    size in the statistics; on a transmission error it does the same
    but leaves the statistics alone. *)
Theorem send_then_objSentCallback
    (env : SendEnv) (lom : LOM) (s : JogState) (q : gmap string LOM) (st : RebStats) :
  env_load env = None -> env_isCopy env = false ->
  env_cksum env = None -> env_open env = None -> env_send env = None ->
  lomAcks (js_mgr s) !! HkeyIdx lom = Some q ->
  in_int64 (inQueue (js_mgr s)) ->
  exists s1 s2,
    send env lom true s = Ret (s1, None)
    /\ js_rlocks s1 !! Uname lom = Some (default 0 (js_rlocks s !! Uname lom) + 1)
    /\ js_opaque s1 = js_opaque s + 1
    /\ inQueue (js_mgr s1) = add64 (inQueue (js_mgr s)) 1
    /\ laterx (js_mgr s1) = true
    /\ lomAcks (js_mgr s1) !! HkeyIdx lom = Some (<[Uname lom := lom]> q)
    /\ objSentCallback (Size lom) lom None s1 st
       = Ret (s2, mkRebStats (add64 (TxRebCount st) 1) (add64 (TxRebSize st) (Size lom)))
    /\ js_rlocks s2 = <[Uname lom := default 0 (js_rlocks s !! Uname lom)]> (js_rlocks s)
    /\ js_opaque s2 = js_opaque s
    /\ inQueue (js_mgr s2) = inQueue (js_mgr s)
    /\ lomAcks (js_mgr s2) !! HkeyIdx lom = Some (<[Uname lom := lom]> q)
    /\ (forall err s3 st3, objSentCallback (Size lom) lom (Some err) s1 st = Ret (s3, st3) ->
          s3 = s2 /\ st3 = st).
Proof. apply send_callback_inv. Qed.

(** Object "ais/b/o7" of 4096 bytes is sent and its transmission
    completes. *)
Lemma send_then_objSentCallback_witness :
  exists s1 s2,
    send env_send_ok sample_lom true sample_jog = Ret (s1, None)
    /\ objSentCallback 4096 sample_lom None s1 (mkRebStats 5 10000)
       = Ret (s2, mkRebStats 6 14096)
    /\ inQueue (js_mgr s2) = 3.
Proof.
  destruct (send_then_objSentCallback env_send_ok sample_lom sample_jog ∅
              (mkRebStats 5 10000))
    as (s1 & s2 & H1 & _ & _ & _ & _ & _ & H2 & _ & _ & H3 & _);
    try reflexivity.
  - unfold in_int64, int64_min, int64_max. simpl. lia.
  - exists s1, s2. split; [exact H1|]. split; [exact H2 | exact H3].
Defined.

End SendMoreTheorems.

(** ** Rebalance: the walking callback *)

Section WalkFacts.
Import Cmn Cluster Reb Samples.

(** X16: [walk] touches the jogger's state (locks, ack buffers, the
    manager) only for an object that is to be moved: the traversal is
    not stopped, the entry is a file whose LOM initialises, its bucket
    is not erasure-coded and its HRW target is another node. Then either
    the cluster map is newer than the jogger's and the run is aborted
    globally with an error, or the map is current, the object is not in
    the GFN filter and loads, and the state is the one left by [send]
    with [addAck]; without a semaphore the error of [send] is the error
    of [walk], with one it is dropped. *)
Theorem walk_sends_only_misplaced
    (self : string) (ver : Z) (sema : bool) (env : WalkEnv) (lom : LOM)
    (s s' : WalkState) (e : WalkErr) :
  walk self ver sema env lom s = Ret (s', e) ->
  ws_jog s' <> ws_jog s ->
  we_stopped env = false /\ we_isDir env = false /\ we_init env = None
  /\ we_ecEnabled env = false
  /\ ws_gfnDel s' = ws_gfnDel s
  /\ exists tsi, we_hrw env = inl tsi /\ tsi <> self
     /\ ((ver < we_nver env
          /\ ws_jog s' = with_mgr abortGlobal (ws_jog s)
          /\ e = WalkFail "newer Smap")
         \/ (we_nver env <= ver /\ we_inFilter env = false /\ we_load env = None
             /\ exists err, send (we_send env) lom true (ws_jog s) = Ret (ws_jog s', err)
                  /\ e = if sema then WalkOk
                         else match err with Some x => WalkFail x | None => WalkOk end)).
Proof.
  intros Hrun Hch. unfold walk in Hrun.
  destruct (we_stopped env); [injection Hrun as <- <-; contradiction|].
  destruct (we_isDir env); [injection Hrun as <- <-; contradiction|].
  destruct (we_init env) as [[ie lvl]|].
  { destruct lvl; injection Hrun as <- <-; contradiction. }
  destruct (we_ecEnabled env); [injection Hrun as <- <-; contradiction|].
  destruct (we_hrw env) as [tsi|he]; [|injection Hrun as <- <-; contradiction].
  destruct (String.eqb_spec tsi self) as [He|Hne];
    [injection Hrun as <- <-; contradiction|].
  do 4 (split; [reflexivity|]).
  destruct (Z.gtb_spec (we_nver env) ver) as [Hgt|Hle].
  { injection Hrun as <- <-. split; [reflexivity|].
    exists tsi. split; [reflexivity|]. split; [exact Hne|]. left.
    split; [lia|]. split; reflexivity. }
  destruct (we_inFilter env); [injection Hrun as <- <-; contradiction|].
  destruct (we_load env) as [le|]; [injection Hrun as <- <-; contradiction|].
  destruct (send (we_send env) lom true (ws_jog s)) as [[js err]| |] eqn:Hsend;
    try discriminate.
  simpl in Hrun.
  assert (Hs' : s' = mkWalkState js (ws_gfnDel s)
                /\ e = if sema then WalkOk
                       else match err with Some x => WalkFail x | None => WalkOk end).
  { destruct sema; injection Hrun as <- <-; auto. }
  destruct Hs' as [-> ->]. simpl. split; [reflexivity|].
  exists tsi. split; [reflexivity|]. split; [exact Hne|]. right.
  split; [lia|]. split; [reflexivity|]. split; [reflexivity|].
  exists err. split; reflexivity.
Qed.

(** An object whose HRW target is "t1", walked on "t0" while the send
    fails. *)
Lemma walk_sends_only_misplaced_witness :
  exists s', walk "t0" 7 false walk_env_fails sample_lom (mkWalkState sample_jog [])
             = Ret (s', WalkFail "stream terminated")
             /\ ws_gfnDel s' = [].
Proof.
  destruct (walk "t0" 7 false walk_env_fails sample_lom (mkWalkState sample_jog []))
    as [[s' e]| |] eqn:Hw; try (vm_compute in Hw; discriminate).
  exists s'.
  assert (He : e = WalkFail "stream terminated")
    by (vm_compute in Hw; by injection Hw as _ <-).
  rewrite He in *. split; [reflexivity|].
  refine (proj1 (proj2 (proj2 (proj2 (proj2
            (walk_sends_only_misplaced _ _ _ _ _ _ _ _ Hw _)))))).
  vm_compute in Hw. injection Hw as <-. vm_compute. intros [=].
Defined.

End WalkFacts.

(** ** Stream collector: registration, removal and ticks *)

Section CollectorRemoveFacts.
Import Cmn GoHeap Transport Samples.

Lemma gc_Swap_heap gc (i j : nat) gc' :
  gc_Swap (Z.of_nat i) (Z.of_nat j) gc = Ret gc' ->
  exists pi pj, heap gc !! i = Some pi /\ heap gc !! j = Some pj
    /\ heap gc' = <[j := pi]> (<[i := pj]> (heap gc)).
Proof.
  unfold gc_Swap, heap_at. intros Hsw.
  destruct (Z.ltb_spec (Z.of_nat i) 0); [lia|].
  destruct (Z.ltb_spec (Z.of_nat j) 0); [lia|].
  rewrite !Nat2Z.id in Hsw.
  destruct (heap gc !! i) as [pi|]; [|discriminate]. rewrite bind_Ret in Hsw.
  destruct (heap gc !! j) as [pj|]; [|discriminate]. rewrite bind_Ret in Hsw.
  exists pi, pj. split; [reflexivity|]. split; [reflexivity|].
  destruct (deref pj _) as [sj| |]; try discriminate. rewrite bind_Ret in Hsw.
  destruct (deref pi _) as [si| |]; try discriminate. rewrite bind_Ret in Hsw.
  injection Hsw as <-. reflexivity.
Qed.

Lemma gc_Swap_others gc (i j : nat) gc' (k : nat) :
  gc_Swap (Z.of_nat i) (Z.of_nat j) gc = Ret gc' ->
  k <> i -> k <> j -> heap gc' !! k = heap gc !! k.
Proof.
  intros Hsw Hi Hj. apply gc_Swap_heap in Hsw as (pi & pj & _ & _ & ->).
  rewrite !list_lookup_insert_ne by auto. reflexivity.
Qed.

(** [down(i, n)] leaves the heap array from position [n] on alone. *)
Lemma down_loop_ok_tail :
  forall (fuel : nat) (gc : collector) (i n : nat),
  heap_indexed gc -> heap_small gc ->
  (n <= length (heap gc))%nat -> (i <= length (heap gc))%nat ->
  (n - i < fuel)%nat ->
  exists gc' i', down_loop fuel (Z.of_nat i) (Z.of_nat n) gc = Ret (gc', i')
                 /\ heap_indexed gc' /\ heap_step gc gc'
                 /\ (forall k, (n <= k)%nat -> heap gc' !! k = heap gc !! k).
Proof.
  induction fuel as [|fuel IH]; intros gc i n Hix Hsm Hn Hi Hfuel; [lia|].
  rewrite down_loop_S. cbv zeta.
  rewrite child_index by (unfold heap_small in Hsm; lia).
  destruct (Z.geb_spec (Z.of_nat (2 * i + 1)) (Z.of_nat n)) as [Hge|Hlt].
  { cbn [orb]. exists gc, (Z.of_nat i). auto using heap_step_refl. }
  destruct (Z.ltb_spec (Z.of_nat (2 * i + 1)) 0) as [|_]; [lia|]. cbn [orb].
  rewrite add64_small by (unfold heap_small in Hsm; lia).
  replace (Z.of_nat (2 * i + 1) + 1) with (Z.of_nat (2 * i + 2)) by lia.
  assert (Hj : exists j : nat,
            (if Z.of_nat (2 * i + 2) <? Z.of_nat n
             then lt ← gc_Less (Z.of_nat (2 * i + 2)) (Z.of_nat (2 * i + 1)) gc;
                  Ret (if (lt : bool) then Z.of_nat (2 * i + 2)
                       else Z.of_nat (2 * i + 1))
             else Ret (Z.of_nat (2 * i + 1))) = Ret (Z.of_nat j)
            /\ (i < j)%nat /\ (j < n)%nat).
  { destruct (Z.ltb_spec (Z.of_nat (2 * i + 2)) (Z.of_nat n)) as [Hlt2|].
    - destruct (gc_Less_ok gc (2 * i + 2) (2 * i + 1) Hix ltac:(lia) ltac:(lia))
        as [b Hb].
      rewrite Hb, bind_Ret. destruct b.
      + exists (2 * i + 2)%nat. split; [reflexivity | lia].
      + exists (2 * i + 1)%nat. split; [reflexivity | lia].
    - exists (2 * i + 1)%nat. split; [reflexivity | lia]. }
  destruct Hj as (j & -> & Hij & Hjn). rewrite bind_Ret.
  destruct (gc_Less_ok gc j i Hix ltac:(lia) ltac:(lia)) as [b Hb].
  rewrite Hb, bind_Ret. destruct b; cbn [negb].
  2:{ exists gc, (Z.of_nat i). auto using heap_step_refl. }
  destruct (gc_Swap_ok gc i j Hix ltac:(lia) ltac:(lia)) as (gc1 & Hsw & Hix1 & Hst1).
  rewrite Hsw, bind_Ret.
  assert (Hlen : length (heap gc1) = length (heap gc)) by apply Hst1.
  destruct (IH gc1 j n Hix1 (heap_small_step _ _ Hst1 Hsm) ltac:(lia) ltac:(lia)
              ltac:(lia)) as (gc' & i' & Hd & Hix' & Hst' & Htail).
  exists gc', i'. split; [exact Hd|]. split; [exact Hix'|].
  split; [eapply heap_step_trans; eassumption|].
  intros k Hk. rewrite (Htail k Hk).
  apply (gc_Swap_others gc i j gc1 k Hsw); lia.
Qed.

(** [up(j)] leaves the heap array after position [j] alone. *)
Lemma up_loop_ok_tail :
  forall (fuel : nat) (gc : collector) (j : nat),
  heap_indexed gc -> heap_small gc ->
  (j < length (heap gc))%nat -> (j < fuel)%nat ->
  exists gc', up_loop fuel (Z.of_nat j) gc = Ret gc'
              /\ heap_indexed gc' /\ heap_step gc gc'
              /\ (forall k, (j < k)%nat -> heap gc' !! k = heap gc !! k).
Proof.
  induction fuel as [|fuel IH]; intros gc j Hix Hsm Hj Hfuel; [lia|].
  rewrite up_loop_S. cbv zeta.
  rewrite add64_small by (unfold heap_small in Hsm; lia).
  destruct j as [|j].
  { exists gc. auto using heap_step_refl. }
  assert (Hpar : Z.quot (Z.of_nat (S j) + -1) 2 = Z.of_nat (j / 2)).
  { rewrite Z.quot_div_nonneg by lia. rewrite Nat2Z.inj_div. f_equal. lia. }
  rewrite Hpar.
  assert (Hlt : (j / 2 < S j)%nat).
  { pose proof (Nat.Div0.div_le_upper_bound j 2 j). lia. }
  destruct (Z.eqb_spec (Z.of_nat (j / 2)) (Z.of_nat (S j))) as [|_]; [lia|].
  destruct (gc_Less_ok gc (S j) (j / 2) Hix ltac:(lia) ltac:(lia)) as [b Hb].
  rewrite Hb, bind_Ret. destruct b; cbn [negb].
  2:{ exists gc. auto using heap_step_refl. }
  destruct (gc_Swap_ok gc (j / 2) (S j) Hix ltac:(lia) ltac:(lia))
    as (gc1 & Hsw & Hix1 & Hst1).
  rewrite Hsw, bind_Ret.
  assert (Hlen : length (heap gc1) = length (heap gc)) by apply Hst1.
  destruct (IH gc1 (j / 2)%nat Hix1 (heap_small_step _ _ Hst1 Hsm) ltac:(lia)
              ltac:(lia)) as (gc' & Hu & Hix' & Hst' & Htail).
  exists gc'. split; [exact Hu|]. split; [exact Hix'|].
  split; [eapply heap_step_trans; eassumption|].
  intros k Hk. rewrite (Htail k ltac:(lia)).
  apply (gc_Swap_others gc (j / 2) (S j) gc1 k Hsw); lia.
Qed.

Lemma heap_indexed_inj gc (a b : nat) p :
  heap_indexed gc -> heap gc !! a = Some p -> heap gc !! b = Some p -> a = b.
Proof.
  intros Hix Ha Hb. destruct (Hix _ _ Ha) as (s1 & Hs1 & H1).
  destruct (Hix _ _ Hb) as (s2 & Hs2 & H2). rewrite Hs1 in Hs2.
  injection Hs2 as <-. lia.
Qed.

(** [Pop] of a collector whose last heap entry is [p]. *)
Lemma gc_Pop_last gc (n : nat) p :
  heap_indexed gc -> length (heap gc) = S n -> heap gc !! n = Some p ->
  exists gc', gc_Pop gc = Ret (p, gc') /\ removed p gc gc'.
Proof.
  intros Hix Hlen Hp.
  destruct (exists_last (l := heap gc)) as (l & a & Hl).
  { intros E. rewrite E in Hlen. discriminate. }
  assert (Hln : length l = n).
  { rewrite Hl, length_app in Hlen. simpl in Hlen. lia. }
  assert (a = p) as ->.
  { rewrite Hl in Hp. rewrite lookup_app_r in Hp by lia.
    replace (n - length l)%nat with 0%nat in Hp by lia. by injection Hp. }
  unfold gc_Pop. rewrite Hl, rev_unit, removelast_last.
  eexists. split; [reflexivity|].
  unfold removed. simpl.
  assert (Hpre : forall k q, l !! k = Some q -> heap gc !! k = Some q).
  { intros k q Hk. rewrite Hl. apply lookup_app_l_Some. exact Hk. }
  split.
  { intros k q Hk. apply Hix. apply Hpre. exact Hk. }
  split; [reflexivity|]. split; [reflexivity|].
  split; [rewrite Hl, length_app; simpl; lia|].
  split; [|reflexivity].
  intros q. rewrite Hl, elem_of_app, list_elem_of_singleton. split.
  - intros Hq. split; [auto|]. intros ->.
    apply list_elem_of_lookup in Hq as [k Hk].
    assert (k = n) by (eapply heap_indexed_inj; eauto).
    apply lookup_lt_Some in Hk. lia.
  - intros [[Hq | ->] Hne]; [exact Hq | contradiction].
Qed.

Lemma removed_heap_step p gc gc1 gc' :
  heap_step gc gc1 -> removed p gc1 gc' -> removed p gc gc'.
Proof.
  intros (Hs & He & Hl & Hm & Hv) (Hix & Hs' & He' & Hl' & Hm' & Hv').
  unfold removed. split; [exact Hix|]. split; [congruence|]. split; [congruence|].
  split; [congruence|]. split.
  - intros q. rewrite Hm', Hm. reflexivity.
  - intros q. rewrite Hv', Hv. reflexivity.
Qed.

(** [heap.Remove(gc, i)] at a valid index neither panics nor runs out
    of steps, and removes exactly the stream that was at [i]. *)
Lemma Remove_ok gc (i : nat) p :
  heap_indexed gc -> heap_small gc -> heap gc !! i = Some p ->
  exists gc', Remove gc_Pop (Z.of_nat i) gc = Ret (p, gc') /\ removed p gc gc'.
Proof.
  intros Hix Hsm Hp.
  assert (Hi : (i < length (heap gc))%nat) by (eapply lookup_lt_Some; exact Hp).
  destruct (length (heap gc)) as [|n] eqn:Hlen; [lia|].
  unfold Remove. cbn [Less Swap Len collector_sort]. unfold gc_Len. rewrite Hlen.
  rewrite add64_small by (unfold heap_small in Hsm; lia).
  replace (Z.of_nat (S n) + -1) with (Z.of_nat n) by lia.
  destruct (Z.eqb_spec (Z.of_nat n) (Z.of_nat i)) as [He|Hne]; cbn [negb].
  { assert (n = i) as -> by lia. rewrite bind_Ret.
    apply (gc_Pop_last gc i p Hix Hlen Hp). }
  assert (Hin : (i < n)%nat) by lia.
  destruct (gc_Swap_ok gc i n Hix ltac:(lia) ltac:(lia)) as (gc1 & Hsw & Hix1 & Hst1).
  rewrite Hsw, bind_Ret.
  assert (Hlen1 : length (heap gc1) = S n) by (rewrite <- Hlen; apply Hst1).
  assert (Hp1 : heap gc1 !! n = Some p).
  { apply gc_Swap_heap in Hsw as (pi & pj & Hpi & _ & ->).
    rewrite Hp in Hpi. injection Hpi as <-.
    apply list_lookup_insert_eq. rewrite length_insert. lia. }
  assert (Hsm1 : heap_small gc1) by (eapply heap_small_step; eassumption).
  unfold down. rewrite Nat2Z.id.
  destruct (down_loop_ok_tail (S n) gc1 i n Hix1 Hsm1 ltac:(lia) ltac:(lia) ltac:(lia))
    as (gc2 & i' & Hd & Hix2 & Hst2 & Htail2).
  rewrite Hd, !bind_Ret.
  assert (Hlen2 : length (heap gc2) = S n) by (rewrite <- Hlen1; apply Hst2).
  assert (Hp2 : heap gc2 !! n = Some p) by (rewrite Htail2 by lia; exact Hp1).
  assert (Hst02 : heap_step gc gc2) by (eapply heap_step_trans; eassumption).
  destruct (negb (i' >? Z.of_nat i)).
  - unfold up. rewrite Nat2Z.id.
    destruct (up_loop_ok_tail (S i) gc2 i Hix2 (heap_small_step _ _ Hst2 Hsm1)
                ltac:(lia) ltac:(lia)) as (gc3 & Hu & Hix3 & Hst3 & Htail3).
    rewrite Hu, bind_Ret.
    assert (Hlen3 : length (heap gc3) = S n) by (rewrite <- Hlen2; apply Hst3).
    assert (Hp3 : heap gc3 !! n = Some p) by (rewrite Htail3 by lia; exact Hp2).
    destruct (gc_Pop_last gc3 n p Hix3 Hlen3 Hp3) as (gc' & Hpop & Hrem).
    exists gc'. split; [exact Hpop|].
    eapply removed_heap_step; [|exact Hrem].
    eapply heap_step_trans; eassumption.
  - rewrite bind_Ret.
    destruct (gc_Pop_last gc2 n p Hix2 Hlen2 Hp2) as (gc' & Hpop & Hrem).
    exists gc'. split; [exact Hpop|].
    eapply removed_heap_step; eassumption.
Qed.

End CollectorRemoveFacts.

Section CollectorCtrlFacts.
Import Cmn GoHeap Transport Samples.

Variables tickUnit tickMarker : Z.

Lemma ctrl_remove_inv gc (p : nat) (s : Stream) :
  heap_indexed gc -> heap_small gc ->
  store gc !! p = Some s -> p ∈ heap gc -> is_Some (streams gc !! lid s) ->
  exists gc',
    ctrl_remove p gc = Ret gc'
    /\ heap_indexed gc'
    /\ streams gc' = streams gc
    /\ events gc' = events gc
    /\ S (length (heap gc')) = length (heap gc)
    /\ (forall q, q ∈ heap gc' <-> q ∈ heap gc /\ q <> p)
    /\ (forall q, sview gc' q
                  = if decide (q = p) then set_ticks 1 <$> sview gc p else sview gc q).
Proof.
  intros Hix Hsm Hs Hin [p0 Hreg].
  apply list_elem_of_lookup in Hin as [i Hi].
  destruct (Hix i p Hi) as (s0 & Hs0 & Hidx).
  rewrite Hs in Hs0. injection Hs0 as <-.
  unfold ctrl_remove. rewrite (deref_Some _ _ _ Hs), bind_Ret, Hreg, Hidx.
  destruct (Remove_ok gc i p Hix Hsm Hi)
    as (gc1 & Hrem & Hix1 & Hstr1 & Hev1 & Hlen1 & Hmem1 & Hview1).
  rewrite Hrem, bind_Ret.
  eexists. split; [reflexivity|].
  unfold modify. simpl.
  split.
  { intros k q Hk. destruct (Hix1 k q Hk) as (sq & Hsq & Hkq).
    assert (q <> p).
    { apply (Hmem1 q). apply list_elem_of_lookup. eauto. }
    exists sq. simpl. rewrite lookup_alter_ne by auto. auto. }
  split; [exact Hstr1|]. split; [exact Hev1|]. split; [exact Hlen1|].
  split; [exact Hmem1|].
  intros q. unfold sview. simpl. destruct (decide (q = p)) as [->|Hne].
  - rewrite lookup_alter_eq. specialize (Hview1 p). unfold sview in Hview1.
    rewrite <- Hview1. destruct (store gc1 !! p); reflexivity.
  - rewrite lookup_alter_ne by auto. apply Hview1.
Qed.

Lemma ctrl_remove_ok_inv gc (k : string) (p : nat) (s : Stream) :
  collector_ok tickUnit gc -> ticks_left gc ->
  streams gc !! k = Some p -> store gc !! p = Some s ->
  p ∈ heap gc -> terminated s = true ->
  exists gc',
    ctrl_remove p gc = Ret gc'
    /\ collector_ok tickUnit gc' /\ ticks_left gc'
    /\ streams gc' = streams gc
    /\ events gc' = events gc
    /\ (forall q, q ∈ heap gc' <-> q ∈ heap gc /\ q <> p)
    /\ (forall q, sview gc' q
                  = if decide (q = p) then Some (set_ticks 1 (view s)) else sview gc q).
Proof.
  intros Hok Hleft Hreg Hs Hin Hterm.
  assert (Hv : sview gc p = Some (view s)) by (unfold sview; rewrite Hs; reflexivity).
  destruct (ok_lid _ _ Hok k p Hreg) as (v & Hv' & Hlid).
  rewrite Hv in Hv'. injection Hv' as <-.
  assert (Hlid' : lid s = k) by exact Hlid.
  destruct (ctrl_remove_inv gc p s (ok_indexed _ _ Hok) (ok_small _ _ Hok) Hs Hin)
    as (gc' & Hrun & Hix' & Hstr' & Hev' & Hlen' & Hmem' & Hview').
  { rewrite Hlid'. eauto. }
  assert (Hview'' : forall q, sview gc' q
            = if decide (q = p) then Some (set_ticks 1 (view s)) else sview gc q).
  { intros q. rewrite Hview'. destruct (decide (q = p)); [|reflexivity].
    rewrite Hv. reflexivity. }
  exists gc'. split; [exact Hrun|].
  split; [|split; [|auto]].
  - constructor.
    + exact Hix'.
    + pose proof (ok_small _ _ Hok) as Hsm. unfold heap_small in *. lia.
    + intros k0 q Hk0. rewrite Hstr' in Hk0. rewrite Hview''.
      destruct (decide (q = p)) as [->|].
      * exists (set_ticks 1 (view s)). split; [reflexivity|].
        destruct (ok_lid _ _ Hok k0 p Hk0) as (v0 & Hv0 & Hl0).
        rewrite Hv in Hv0. injection Hv0 as <-. exact Hl0.
      * apply (ok_lid _ _ Hok). exact Hk0.
    + intros k0 q v0 Hk0 Hq Hnt. rewrite Hstr' in Hk0. rewrite Hview'' in Hq.
      destruct (decide (q = p)) as [->|Hne].
      * injection Hq as <-. simpl in Hnt. congruence.
      * apply Hmem'. split; [|exact Hne]. eapply (ok_inheap _ _ Hok); eassumption.
    + intros k0 q v0 Hk0 Hq. rewrite Hstr' in Hk0. rewrite Hview'' in Hq.
      destruct (decide (q = p)) as [->|Hne].
      * injection Hq as <-. simpl. apply (ok_open _ _ Hok k0 p (view s) Hk0 Hv).
      * eapply (ok_open _ _ Hok); eassumption.
    + intros k0 q v0 Hk0 Hq. rewrite Hstr' in Hk0. rewrite Hview'' in Hq.
      destruct (decide (q = p)) as [->|Hne].
      * injection Hq as <-. simpl. apply (ok_idle _ _ Hok k0 p (view s) Hk0 Hv).
      * eapply (ok_idle _ _ Hok); eassumption.
  - intros k0 q v0 Hk0 Hq Hnt Hact. rewrite Hstr' in Hk0. rewrite Hview'' in Hq.
    destruct (decide (q = p)) as [->|Hne].
    + injection Hq as <-. simpl in Hnt. congruence.
    + eapply Hleft; eassumption.
Qed.

Lemma remove_then_do_inv gc (k : string) (p : nat) (s : Stream)
    (ord1 ord2 : list string) :
  collector_ok tickUnit gc -> ticks_left gc ->
  streams gc !! k = Some p -> store gc !! p = Some s ->
  p ∈ heap gc -> terminated s = true ->
  NoDup ord1 -> NoDup ord2 ->
  (forall k', is_Some (streams gc !! k') -> k' ∈ ord1) ->
  exists gc1 gc2,
    ctrl_remove p gc = Ret gc1
    /\ do tickUnit tickMarker ord1 ord2 gc1 = Ret gc2
    /\ collector_ok tickUnit gc2
    /\ streams gc2 !! k = None
    /\ events_of p gc2
       = events_of p gc
         ++ EvClose p :: map (fun o => EvObjDone p o (term_error s)) (workCh s)
    /\ sview gc2 p
       = Some (set_workCh [] true
                 (set_term_err (Some (term_error s)) (set_ticks 0 (view s)))).
Proof.
  intros Hok Hleft Hreg Hs Hin Hterm Hnd1 Hnd2 Hall.
  destruct (ctrl_remove_ok_inv gc k p s Hok Hleft Hreg Hs Hin Hterm)
    as (gc1 & Hrem & Hok1 & Hleft1 & Hstr1 & Hev1 & Hmem1 & Hview1).
  destruct (do_ok tickUnit tickMarker gc1 ord1 ord2 Hok1 Hleft1 Hnd1 Hnd2)
    as (gc2 & Hdo & Hok2 & Hstreams).
  { intros k'. rewrite Hstr1. apply Hall. }
  exists gc1, gc2. split; [exact Hrem|]. split; [exact Hdo|]. split; [exact Hok2|].
  assert (Hreg1 : streams gc1 !! k = Some p) by (rewrite Hstr1; exact Hreg).
  assert (Hv1 : sview gc1 p = Some (set_ticks 1 (view s))).
  { rewrite Hview1, decide_True by reflexivity. reflexivity. }
  destruct (Hstreams k p _ Hreg1 Hv1) as (Hevs & Hexp & _).
  assert (Hx : expires (set_ticks 1 (view s)) = true).
  { unfold expires. simpl. rewrite Hterm. reflexivity. }
  destruct (Hexp Hx) as [Hgone Hv2].
  split; [exact Hgone|]. split.
  - rewrite Hevs. unfold events_of. rewrite Hev1.
    unfold first_events. rewrite Hx. reflexivity.
  - rewrite Hv2. unfold first_view. simpl. rewrite Hterm, Hx. reflexivity.
Qed.

End CollectorCtrlFacts.

Section CollectorTheorems.
Import Cmn GoHeap Transport Samples.

(** X17: registering a stream ([ctrl{s, true}]) in a well-formed
    collector, when the stream's lid is not registered yet, the stream is
    not in the heap, its queue is open and its idle timeout is not
    negative, does not panic: the stream is in the map under its lid and
    in the heap, [heap[i].index == i] holds again for every entry, and
    no stream is changed apart from the heap indices. *)
Theorem ctrl_add_registers
    (tickUnit : Z) (gc : collector) (p : nat) (s : Stream) :
  collector_ok tickUnit gc -> ticks_left gc ->
  store gc !! p = Some s -> p ∉ heap gc -> streams gc !! lid s = None ->
  workCh_closed s = false -> 0 <= Z.quot (time_idleOut s) tickUnit ->
  Z.of_nat (length (heap gc)) + 1 < 2 ^ 62 ->
  (terminated s = false -> sessST s = active -> 1 <= time_ticks s <= int64_max) ->
  exists gc',
    ctrl_add p gc = Ret gc'
    /\ collector_ok tickUnit gc' /\ ticks_left gc'
    /\ streams gc' = <[lid s := p]> (streams gc)
    /\ events gc' = events gc
    /\ (forall q, sview gc' q = sview gc q)
    /\ (forall q, q ∈ heap gc' <-> q ∈ heap gc \/ q = p).
Proof.
  intros Hok Hleft Hs Hnin Hfresh Hopen Hidle Hlen Hticks.
  destruct (ctrl_add_ok tickUnit gc p s Hok Hs Hnin Hfresh Hopen Hidle Hlen)
    as (gc' & Hrun & Hok' & Hstr & Hev & Hview & Hmem).
  exists gc'. split; [exact Hrun|]. split; [exact Hok'|].
  split; [|auto].
  eapply ctrl_add_ticks_left; eassumption.
Qed.

(** Stream "b" is registered after stream "a". *)
Lemma ctrl_add_registers_witness :
  exists gc', ctrl_add 2 idle_gc1 = Ret gc'
              /\ streams gc' = <["b" := 2%nat]> (streams idle_gc1).
Proof.
  destruct idle_gc1_ok as (Hok & Hleft & _).
  destruct (ctrl_add_registers Second idle_gc1 2
              (set_index 0 (mk_stream "b" (3 * Second) 3)) Hok Hleft)
    as (gc' & Hrun & _ & _ & Hstr & _).
  - vm_compute. reflexivity.
  - intros Hin. change (heap idle_gc1) with [1%nat] in Hin.
    apply list_elem_of_singleton in Hin. discriminate.
  - vm_compute. reflexivity.
  - reflexivity.
  - vm_compute. discriminate.
  - vm_compute. reflexivity.
  - intros _ _. vm_compute. split; discriminate.
  - exists gc'. split; [exact Hrun | exact Hstr].
Defined.

(** X18: one tick ([do]) on a well-formed collector in which every
    registered live active stream has a tick left does not panic (no
    queue is closed twice, no heap index is out of range, no tick count
    turns negative) and leaves the collector well formed. A registered
    stream leaves the map exactly when it is terminated and this tick
    takes its ticks to zero; for every other stream the tick emits no
    event. *)
Theorem do_keeps_collector_ok
    (tickUnit tickMarker : Z) (gc : collector) (ord1 ord2 : list string) :
  collector_ok tickUnit gc -> ticks_left gc ->
  NoDup ord1 -> NoDup ord2 ->
  (forall k, is_Some (streams gc !! k) -> k ∈ ord1) ->
  exists gc',
    do tickUnit tickMarker ord1 ord2 gc = Ret gc'
    /\ collector_ok tickUnit gc'
    /\ forall k p v, streams gc !! k = Some p -> sview gc p = Some v ->
         streams gc' !! k = (if expires v then None else Some p)
         /\ (expires v = false -> events_of p gc' = events_of p gc).
Proof.
  intros Hok Hleft Hnd1 Hnd2 Hall.
  destruct (do_ok tickUnit tickMarker gc ord1 ord2 Hok Hleft Hnd1 Hnd2 Hall)
    as (gc' & Hdo & Hok' & Hstreams).
  exists gc'. split; [exact Hdo|]. split; [exact Hok'|].
  intros k p v Hk Hv. destruct (Hstreams k p v Hk Hv) as (Hev & Hexp & Hkeep).
  destruct (expires v) eqn:Hx.
  - split; [apply (Hexp eq_refl) | discriminate].
  - split; [apply (Hkeep eq_refl)|]. intros _. rewrite Hev.
    unfold first_events. rewrite Hx. apply app_nil_r.
Qed.

(** A tick on the collector of the streams "a" and "b". *)
Lemma do_keeps_collector_ok_witness :
  exists gc', do Second (-1) ["a"; "b"] ["a"; "b"] idle_gc2 = Ret gc'
              /\ collector_ok Second gc'.
Proof.
  destruct idle_gc2_ok as (Hok & Hleft & Hstr).
  destruct (do_keeps_collector_ok Second (-1) idle_gc2 ["a"; "b"] ["a"; "b"] Hok Hleft)
    as (gc' & Hdo & Hok' & _).
  - apply NoDup_two. discriminate.
  - apply NoDup_two. discriminate.
  - intros k [p Hk]. rewrite Hstr in Hk.
    apply lookup_insert_Some in Hk as [[<- _] | [_ Hk]]; [set_solver|].
    apply lookup_insert_Some in Hk as [[<- _] | [_ Hk]]; [set_solver|].
    rewrite lookup_empty in Hk. discriminate.
  - exists gc'. split; [exact Hdo | exact Hok'].
Defined.

(** X19: removing a registered, terminated stream that is in the heap
    ([ctrl{s, false}]) does not panic: exactly this stream leaves the
    heap, the others keep [heap[i].index == i], the stream stays in the
    map, its tick count becomes 1, no event is emitted and no other
    stream is changed apart from the heap indices; the collector stays
    well formed. *)
Theorem ctrl_remove_unlinks
    (tickUnit : Z) (gc : collector) (k : string) (p : nat) (s : Stream) :
  collector_ok tickUnit gc -> ticks_left gc ->
  streams gc !! k = Some p -> store gc !! p = Some s ->
  p ∈ heap gc -> terminated s = true ->
  exists gc',
    ctrl_remove p gc = Ret gc'
    /\ collector_ok tickUnit gc' /\ ticks_left gc'
    /\ streams gc' = streams gc
    /\ events gc' = events gc
    /\ (forall q, q ∈ heap gc' <-> q ∈ heap gc /\ q <> p)
    /\ (forall q, sview gc' q
                  = if decide (q = p) then Some (set_ticks 1 (view s)) else sview gc q).
Proof. apply ctrl_remove_ok_inv. Qed.

(** The terminated stream "t" is removed. *)
Lemma ctrl_remove_unlinks_witness :
  exists gc', ctrl_remove 1 term_gc = Ret gc'
              /\ streams gc' = streams term_gc
              /\ forall q, q ∈ heap gc' <-> q ∈ heap term_gc /\ q <> 1%nat.
Proof.
  destruct term_gc_ok as (Hok & Hleft & Hstr).
  destruct (ctrl_remove_unlinks Second term_gc "t" 1 term_stream Hok Hleft)
    as (gc' & Hrun & _ & _ & Hs & _ & Hmem & _).
  - rewrite Hstr. apply lookup_insert_eq.
  - vm_compute. reflexivity.
  - change (heap term_gc) with [1%nat]. apply list_elem_of_singleton. reflexivity.
  - reflexivity.
  - exists gc'. split; [exact Hrun|]. split; [exact Hs | exact Hmem].
Defined.

(** X20: the delayed close. After the removal of a registered,
    terminated stream, the next tick takes the stream out of the map,
    closes its queue and completes every frame still queued with the
    stream's termination error ("unknown reason" when none is stored):
    for this stream the tick emits the close followed by one completion
    per queued frame, in queue order, and leaves it with an empty,
    closed queue. *)
Theorem remove_then_do_closes
    (tickUnit tickMarker : Z) (gc : collector) (k : string) (p : nat) (s : Stream)
    (ord1 ord2 : list string) :
  collector_ok tickUnit gc -> ticks_left gc ->
  streams gc !! k = Some p -> store gc !! p = Some s ->
  p ∈ heap gc -> terminated s = true ->
  NoDup ord1 -> NoDup ord2 ->
  (forall k', is_Some (streams gc !! k') -> k' ∈ ord1) ->
  exists gc1 gc2,
    ctrl_remove p gc = Ret gc1
    /\ do tickUnit tickMarker ord1 ord2 gc1 = Ret gc2
    /\ collector_ok tickUnit gc2
    /\ streams gc2 !! k = None
    /\ events_of p gc2
       = events_of p gc
         ++ EvClose p :: map (fun o => EvObjDone p o (term_error s)) (workCh s)
    /\ sview gc2 p
       = Some (set_workCh [] true
                 (set_term_err (Some (term_error s)) (set_ticks 0 (view s)))).
Proof. apply remove_then_do_inv. Qed.

(** The terminated stream "t" with two queued frames is removed, then a
    tick passes. *)
Lemma remove_then_do_closes_witness :
  exists gc1 gc2,
    ctrl_remove 1 term_gc = Ret gc1
    /\ do Second (-1) ["t"] ["t"] gc1 = Ret gc2
    /\ streams gc2 !! "t" = None
    /\ events_of 1 gc2
       = [EvClose 1; EvObjDone 1 frame1 "unknown reason";
          EvObjDone 1 frame2 "unknown reason"].
Proof.
  destruct term_gc_ok as (Hok & Hleft & Hstr).
  destruct (remove_then_do_closes Second (-1) term_gc "t" 1 term_stream ["t"] ["t"]
              Hok Hleft)
    as (gc1 & gc2 & Hrem & Hdo & _ & Hgone & Hev & _).
  - rewrite Hstr. apply lookup_insert_eq.
  - vm_compute. reflexivity.
  - change (heap term_gc) with [1%nat]. apply list_elem_of_singleton. reflexivity.
  - reflexivity.
  - apply NoDup_singleton.
  - apply NoDup_singleton.
  - intros k' [q Hk']. rewrite Hstr in Hk'.
    apply lookup_insert_Some in Hk' as [[<- _] | [_ Hk']]; [set_solver|].
    rewrite lookup_empty in Hk'. discriminate.
  - exists gc1, gc2. split; [exact Hrem|]. split; [exact Hdo|].
    split; [exact Hgone|]. rewrite Hev. reflexivity.
Defined.

End CollectorTheorems.

(** ** Rebalance: more waiting loops *)

Section MoreWaitFacts.
Import Cmn Cluster Reb Samples.

Lemma rxReady_loop_waitStage (ver : Z) (sleep maxwt : Z) :
  forall (trace : list StagePoll) (curwt : Z) (m : Manager) (passes : nat),
  rxReady_loop ver sleep maxwt trace curwt m passes
  = waitStage_loop ver rebStageTraverse sleep maxwt trace curwt m passes.
Proof.
  induction trace as [|t trace IH]; intros curwt m passes; simpl.
  - reflexivity.
  - destruct (curwt <? maxwt); [|reflexivity].
    destruct (sp_inStage t); [reflexivity|].
    destruct (checkGlobStatus m ver rebStageTraverse (sp_r1 t) (sp_ext t) (sp_r2 t))
      as [[m1 status] ok] eqn:Hc.
    destruct ok.
    + apply checkGlobStatus_ok_inv in Hc as (-> & st & -> & _ & _ & _ & _ & _ & Hst).
      cbn [andb]. destruct (N.leb_spec rebStageTraverse (Stage st)); [reflexivity | lia].
    + cbn [andb]. destruct (xreb_aborted m1); [reflexivity|].
      destruct (AbortedAfter (sp_abort t) m1) as [m2 ab].
      destruct ab; [reflexivity|]. apply IH.
Qed.

(** When [checkGlobStatus] says "not yet" and the run is not aborted
    afterwards, it has returned the status polled from the peer and
    left the manager alone. *)
Lemma checkGlobStatus_not_yet m ver stage r1 ext r2 m' status :
  checkGlobStatus m ver stage r1 ext r2 = (m', status, false) ->
  xreb_aborted m' = false ->
  m' = m /\ exists st, status = Some st /\ polled m r1 ext r2 = Some st.
Proof.
  intros Hc Hna.
  pose proof (checkGlobStatus_effect_inv m ver stage r1 ext r2) as [Heff _].
  cbv zeta in Heff. rewrite Hc in Heff. simpl in Heff.
  assert (Hm : m' = m).
  { destruct Heff as [-> | [-> | ->]]; [reflexivity | discriminate..]. }
  split; [exact Hm|]. subst m'.
  assert (Hbody : forall st (r : Manager * option Status * bool),
            r = (let tver := SmapVersion st in
             let rver := RebVersion st in
             if (tver >? ver) || (rver >? ver) then (abortGlobal m, Some st, false)
             else if GlobRebID st >? globRebID m then (abortGlobal m, Some st, false)
             else if (tver <? ver) || (rver <? ver) then (m, Some st, false)
             else if GlobRebID st <? globRebID m then (m, Some st, false)
             else if (GlobRebID st =? globRebID m) && Aborted st
                  then (xreb_Abort m, Some st, false)
             else if (stage <=? Stage st)%N then (m, Some st, true)
             else (m, Some st, false)) ->
            r.1.2 = Some st).
  { intros st r ->. cbv zeta.
    repeat match goal with
           | |- context [if ?c then _ else _] => destruct c
           end; reflexivity. }
  unfold checkGlobStatus in Hc. unfold polled.
  destruct r1 as [|st1 [|]].
  - unfold AbortedAfter in Hc. rewrite Hna in *. cbn [orb] in *.
    destruct ext; [simpl in Hc; injection Hc as Hc _; rewrite <- Hc in Hna; discriminate|].
    replace (set_aborted false m) with m in Hc by (symmetry; by apply set_aborted_false).
    cbv beta iota in Hc.
    destruct r2 as [|st2 [|]].
    + injection Hc as Hc _. rewrite <- Hc in Hna. discriminate.
    + injection Hc as Hc _. rewrite <- Hc in Hna. discriminate.
    + exists st2. split; [|reflexivity].
      specialize (Hbody st2 _ eq_refl). cbv zeta in Hbody.
      cbv beta iota zeta in Hc. rewrite Hc in Hbody. exact Hbody.
  - cbv beta iota in Hc. injection Hc as Hc _. rewrite <- Hc in Hna. discriminate.
  - exists st1. split; [|reflexivity].
    specialize (Hbody st1 _ eq_refl). cbv zeta in Hbody.
    cbv beta iota zeta in Hc. rewrite Hc in Hbody. exact Hbody.
Qed.

Lemma existsb_eqb_false (self : string) (l : list string) :
  existsb (String.eqb self) l = false -> self ∉ l.
Proof.
  induction l as [|x l IH]; simpl; intros H Hin.
  - by apply elem_of_nil in Hin.
  - apply orb_false_iff in H as [Hx Hl]. apply elem_of_cons in Hin as [->|Hin].
    + rewrite String.eqb_refl in Hx. discriminate.
    + by apply IH.
Qed.

Lemma waitFinExtended_loop_inv (self : string) (ver : Z) (sleep maxwt sleepRetry : Z) :
  forall (trace : list FinPoll) (curwt : Z) (m : Manager) (passes : nat),
  match waitFinExtended_loop self ver sleep maxwt sleepRetry trace curwt m passes with
  | Panic => False
  | Pending => True
  | Ret (m', b, n) =>
      exists c : nat,
        n = (passes + c)%nat
        /\ (b = true ->
            m' = m /\ exists t, (1 <= c)%nat /\ trace !! (c - 1)%nat = Some t
                       /\ fin_or_not_waiting self ver m t)
        /\ (b = false -> xreb_aborted m' = true \/ m' = m)
  end.
Proof.
  induction trace as [|t trace IH]; intros curwt m passes; cbn [waitFinExtended_loop].
  - destruct (curwt <? maxwt); [exact I|].
    exists 0%nat. split; [lia|]. split; [discriminate | auto].
  - destruct (curwt <? maxwt).
    2:{ exists 0%nat. split; [lia|]. split; [discriminate | auto]. }
    unfold AbortedAfter.
    destruct (xreb_aborted m) eqn:Hab; cbn [orb].
    { exists 1%nat. split; [lia|]. split; [discriminate|]. intros _. left. reflexivity. }
    destruct (fp_abort t) eqn:Hext.
    { exists 1%nat. split; [lia|]. split; [discriminate|]. intros _. left. reflexivity. }
    replace (set_aborted false m) with m by (symmetry; by apply set_aborted_false).
    destruct (fp_inStage t) eqn:Hin.
    { exists 1%nat. split; [lia|]. split; [|discriminate].
      intros _. split; [reflexivity|]. exists t. simpl.
      split; [lia|]. split; [reflexivity|]. split; [exact Hext | auto]. }
    destruct (checkGlobStatus m ver rebStageFin (fp_r1 t) (fp_ext t) (fp_r2 t))
      as [[m1 status] ok] eqn:Hc.
    destruct ok.
    { apply checkGlobStatus_ok_inv in Hc as (-> & st & -> & Hp & Hs & Hr & Hg & Ha & Hst).
      exists 1%nat. split; [lia|]. split; [|discriminate].
      intros _. split; [reflexivity|]. exists t. simpl.
      split; [lia|]. split; [reflexivity|]. split; [exact Hext|].
      right. exists st. split; [exact Hp|]. left. auto. }
    destruct (xreb_aborted m1) eqn:Hab1.
    { exists 1%nat. split; [lia|]. split; [discriminate|]. intros _. left. exact Hab1. }
    apply checkGlobStatus_not_yet in Hc as (-> & st & -> & Hp); [|exact Hab1].
    destruct (N.leb_spec (Stage st) rebStageECNamespace) as [Hle|Hgt].
    + match goal with
      | |- context [waitFinExtended_loop _ _ _ _ _ trace ?cw m (S passes)] =>
          specialize (IH cw m (S passes));
          destruct (waitFinExtended_loop self ver sleep maxwt sleepRetry trace cw m
                      (S passes)) as [[[m' b] n]| |]
      end; [|exact IH|exact I].
      destruct IH as (c & Hn & Htrue & Hfalse).
      exists (S c). split; [lia|]. split; [|exact Hfalse].
      intros Hb. destruct (Htrue Hb) as (Hm & t' & Hc1 & Hl & Hf).
      split; [exact Hm|]. exists t'. split; [lia|]. split; [|exact Hf].
      replace (S c - 1)%nat with (S (c - 1)) by lia. exact Hl.
    + destruct (existsb (String.eqb self) (StTmap st)) eqn:Hw; cbn [negb].
      * match goal with
        | |- context [waitFinExtended_loop _ _ _ _ _ trace ?cw m (S passes)] =>
            specialize (IH cw m (S passes));
            destruct (waitFinExtended_loop self ver sleep maxwt sleepRetry trace cw m
                        (S passes)) as [[[m' b] n]| |]
        end; [|exact IH|exact I].
        destruct IH as (c & Hn & Htrue & Hfalse).
        exists (S c). split; [lia|]. split; [|exact Hfalse].
        intros Hb. destruct (Htrue Hb) as (Hm & t' & Hc1 & Hl & Hf).
        split; [exact Hm|]. exists t'. split; [lia|]. split; [|exact Hf].
        replace (S c - 1)%nat with (S (c - 1)) by lia. exact Hl.
      * exists 1%nat. split; [lia|]. split; [|discriminate].
        intros _. split; [reflexivity|]. exists t. simpl.
        split; [lia|]. split; [reflexivity|]. split; [exact Hext|].
        right. exists st. split; [exact Hp|]. right.
        split; [exact Hgt|]. by apply existsb_eqb_false.
Qed.

Lemma checkGlobStatus_same_epoch_behind m ver stage r1 ext r2 st :
  polled m r1 ext r2 = Some st ->
  SmapVersion st = ver -> RebVersion st = ver ->
  GlobRebID st = globRebID m -> Aborted st = false ->
  (Stage st < stage)%N ->
  checkGlobStatus m ver stage r1 ext r2 = (m, Some st, false).
Proof.
  intros Hp Hs Hr Hg Ha Hst.
  rewrite (checkGlobStatus_polled _ ver stage _ _ _ _ Hp). unfold checkGlobStatus.
  cbv beta iota zeta.
  destruct (Z.gtb_spec (SmapVersion st) ver); [lia|].
  destruct (Z.gtb_spec (RebVersion st) ver); [lia|]. cbn [orb].
  destruct (Z.gtb_spec (GlobRebID st) (globRebID m)); [lia|].
  destruct (Z.ltb_spec (SmapVersion st) ver); [lia|].
  destruct (Z.ltb_spec (RebVersion st) ver); [lia|]. cbn [orb].
  destruct (Z.ltb_spec (GlobRebID st) (globRebID m)); [lia|].
  rewrite Ha, andb_false_r.
  destruct (N.leb_spec stage (Stage st)); [lia | reflexivity].
Qed.

Lemma waitFinExtended_loop_forever (self : string) (ver : Z)
    (sleep maxwt sleepRetry : Z) (m : Manager) :
  0 < maxwt -> xreb_aborted m = false ->
  forall (trace : list FinPoll) (passes : nat),
  Forall (still_traversing ver m) trace ->
  waitFinExtended_loop self ver sleep maxwt sleepRetry trace 0 m passes = Pending.
Proof.
  intros Hmax Hab. induction trace as [|t trace IH]; intros passes Hall;
    cbn [waitFinExtended_loop].
  - destruct (Z.ltb_spec 0 maxwt); [reflexivity | lia].
  - destruct (Z.ltb_spec 0 maxwt); [|lia].
    inversion Hall as [|? ? Ht Hrest]; subst.
    destruct Ht as (Hext & Hin & st & Hp & Hs & Hr & Hg & Ha & Hlo & Hhi).
    unfold AbortedAfter. rewrite Hab, Hext. cbn [orb].
    replace (set_aborted false m) with m
      by (symmetry; apply set_aborted_false; congruence).
    rewrite Hin.
    rewrite (checkGlobStatus_same_epoch_behind m ver rebStageFin _ _ _ st Hp Hs Hr Hg Ha)
      by (unfold rebStageFin, rebStageECNamespace in *; lia).
    rewrite Hab.
    destruct (N.leb_spec (Stage st) rebStageECNamespace); [|lia].
    destruct (N.eqb_spec (Stage st) rebStageInactive) as [He|_]; [lia|].
    cbn [negb]. apply IH. exact Hrest.
Qed.

Lemma waitECData_loop_inv {CT : Type} (si : string) (sleep maxwt : Z) :
  forall (trace : list (ECDataPoll CT)) (curwt : Z) (m : Manager) (passes : nat)
         (m' : Manager) (w : list (ECWrite CT)) (b : bool) (n : nat),
  waitECData_loop si sleep maxwt trace curwt m passes = Ret (m', w, b, n) ->
  exists c : nat,
    n = (passes + c)%nat
    /\ (forall j t, (S j < c)%nat -> trace !! j = Some t ->
          ed_aborted t = false
          /\ (ed_reply t = NsAccepted \/ ed_reply t = NsBody None))
    /\ (b = true ->
        m' = m
        /\ exists t, (1 <= c)%nat /\ trace !! (c - 1)%nat = Some t
             /\ ((ed_aborted t = true /\ w = [])
                 \/ (ed_aborted t = false /\ ed_inStage t = true
                     /\ ed_exists t = true /\ w = [])
                 \/ (ed_aborted t = false
                     /\ exists sl, w = [SetNodeData si sl; SetStage si rebStageECDetect]
                          /\ (ed_reply t = NsBody (Some sl)
                              \/ (ed_reply t = NsNoContent /\ sl = [])))))
    /\ (b = false ->
        w = []
        /\ ((m' = abortGlobal m
             /\ exists t, (1 <= c)%nat /\ trace !! (c - 1)%nat = Some t
                  /\ ed_aborted t = false /\ ed_reply t = NsErr)
            \/ (m' = m
                /\ forall j t, (j < c)%nat -> trace !! j = Some t ->
                     ed_aborted t = false
                     /\ (ed_reply t = NsAccepted \/ ed_reply t = NsBody None)))).
Proof.
  induction trace as [|t trace IH]; intros curwt m passes m' w b n Hrun;
    cbn [waitECData_loop] in Hrun.
  - destruct (curwt <? maxwt); [discriminate|]. injection Hrun as <- <- <- <-.
    exists 0%nat. split; [lia|]. split; [intros; lia|]. split; [discriminate|].
    intros _. split; [reflexivity|]. right. split; [reflexivity | intros; lia].
  - destruct (curwt <? maxwt).
    2:{ injection Hrun as <- <- <- <-.
        exists 0%nat. split; [lia|]. split; [intros; lia|]. split; [discriminate|].
        intros _. split; [reflexivity|]. right. split; [reflexivity | intros; lia]. }
    assert (Hnext : forall cw,
              ed_aborted t = false ->
              ed_reply t = NsAccepted \/ ed_reply t = NsBody None ->
              waitECData_loop si sleep maxwt trace cw m (S passes) = Ret (m', w, b, n) ->
              exists c : nat,
                n = (passes + c)%nat
                /\ (forall j t0, (S j < c)%nat -> (t :: trace) !! j = Some t0 ->
                      ed_aborted t0 = false
                      /\ (ed_reply t0 = NsAccepted \/ ed_reply t0 = NsBody None))
                /\ (b = true ->
                    m' = m
                    /\ exists t0, (1 <= c)%nat /\ (t :: trace) !! (c - 1)%nat = Some t0
                         /\ ((ed_aborted t0 = true /\ w = [])
                             \/ (ed_aborted t0 = false /\ ed_inStage t0 = true
                                 /\ ed_exists t0 = true /\ w = [])
                             \/ (ed_aborted t0 = false
                                 /\ exists sl,
                                      w = [SetNodeData si sl; SetStage si rebStageECDetect]
                                      /\ (ed_reply t0 = NsBody (Some sl)
                                          \/ (ed_reply t0 = NsNoContent /\ sl = [])))))
                /\ (b = false ->
                    w = []
                    /\ ((m' = abortGlobal m
                         /\ exists t0, (1 <= c)%nat /\ (t :: trace) !! (c - 1)%nat = Some t0
                              /\ ed_aborted t0 = false /\ ed_reply t0 = NsErr)
                        \/ (m' = m
                            /\ forall j t0, (j < c)%nat -> (t :: trace) !! j = Some t0 ->
                                 ed_aborted t0 = false
                                 /\ (ed_reply t0 = NsAccepted
                                     \/ ed_reply t0 = NsBody None))))).
    { intros cw Hna Hrep Hrec.
      apply IH in Hrec as (c & Hn & Hbefore & Htrue & Hfalse).
      assert (Hc : b = true -> (1 <= c)%nat).
      { intros Hb. destruct (Htrue Hb) as (_ & ? & ? & _). assumption. }
      exists (S c). split; [lia|].
      split.
      { intros j t0 Hj Hl. destruct j as [|j].
        - injection Hl as <-. auto.
        - apply (Hbefore j t0); [lia | exact Hl]. }
      split.
      { intros Hb. destruct (Htrue Hb) as (Hm & t0 & Hc1 & Hl & Hcase).
        split; [exact Hm|]. exists t0. split; [lia|]. split; [|exact Hcase].
        replace (S c - 1)%nat with (S (c - 1)) by lia. exact Hl. }
      intros Hb. destruct (Hfalse Hb) as (Hw & [(Hm & t0 & Hc1 & Hl & Hcase) | (Hm & Hall)]).
      - split; [exact Hw|]. left. split; [exact Hm|]. exists t0. split; [lia|].
        split; [|exact Hcase].
        replace (S c - 1)%nat with (S (c - 1)) by lia. exact Hl.
      - split; [exact Hw|]. right. split; [exact Hm|].
        intros j t0 Hj Hl. destruct j as [|j].
        + injection Hl as <-. auto.
        + apply (Hall j t0); [lia | exact Hl]. }
    destruct (ed_aborted t) eqn:Hab.
    { injection Hrun as <- <- <- <-. exists 1%nat. split; [lia|].
      split; [intros; lia|]. split; [|discriminate].
      intros _. split; [reflexivity|]. exists t. simpl. auto 10. }
    destruct (ed_inStage t && ed_exists t) eqn:Hin.
    { apply andb_true_iff in Hin as [Hi He].
      injection Hrun as <- <- <- <-. exists 1%nat. split; [lia|].
      split; [intros; lia|]. split; [|discriminate].
      intros _. split; [reflexivity|]. exists t. simpl. auto 10. }
    destruct (ed_reply t) as [| | |[sl|]] eqn:Hrep.
    + injection Hrun as <- <- <- <-. exists 1%nat. split; [lia|].
      split; [intros; lia|]. split; [discriminate|].
      intros _. split; [reflexivity|]. left. split; [reflexivity|].
      exists t. simpl. auto.
    + eapply Hnext; eauto.
    + injection Hrun as <- <- <- <-. exists 1%nat. split; [lia|].
      split; [intros; lia|]. split; [|discriminate].
      intros _. split; [reflexivity|]. exists t. simpl.
      split; [lia|]. split; [reflexivity|]. right. right. split; [exact Hab|].
      exists []. auto.
    + injection Hrun as <- <- <- <-. exists 1%nat. split; [lia|].
      split; [intros; lia|]. split; [|discriminate].
      intros _. split; [reflexivity|]. exists t. simpl.
      split; [lia|]. split; [reflexivity|]. right. right. split; [exact Hab|].
      exists sl. auto.
    + eapply Hnext; eauto.
Qed.

End MoreWaitFacts.

Section MoreWaitTheorems.
Import Cmn Cluster Reb Samples.

(** X21: [rxReady] behaves as [waitStage] for the "traverse" stage: on
    the same observations both return the same answer after the same
    number of passes and leave the manager in the same state (the
    stage test that [waitStage] adds is implied by the ok of
    [checkGlobStatus]). *)
Theorem rxReady_as_waitStage
    (config : Config) (ver : Z) (trace : list StagePoll) (m : Manager) :
  rxReady_run config ver trace m = waitStage_run config ver rebStageTraverse trace m
  /\ rxReady config ver trace m = waitStage config ver rebStageTraverse trace m.
Proof.
  assert (H : rxReady_run config ver trace m
              = waitStage_run config ver rebStageTraverse trace m)
    by apply rxReady_loop_waitStage.
  split; [exact H|]. unfold rxReady, waitStage. rewrite H. reflexivity.
Qed.

(** X22: [waitFinExtended] never panics: it reads [status.Stage] only
    after [checkGlobStatus] returned without the run being aborted, and
    then the status is not nil (a nil status comes with an abort, local
    or global). *)
Theorem waitFinExtended_status_not_nil
    (self : string) (config : Config) (ver : Z) (sleepRetry : Z)
    (trace : list FinPoll) (m : Manager) :
  waitFinExtended_run self config ver sleepRetry trace m <> Panic
  /\ waitFinExtended self config ver sleepRetry trace m <> Panic.
Proof.
  unfold waitFinExtended, waitFinExtended_run.
  pose proof (waitFinExtended_loop_inv self ver (CplaneOperation (Timeout config))
                (DestRetryTime (Rebalance config)) sleepRetry trace 0 m 0) as H.
  destruct (waitFinExtended_loop _ _ _ _ _ _ _ _ _) as [[[m' b] n]| |];
    [split; discriminate | contradiction | split; discriminate].
Qed.

(** X23: [waitFinExtended] answers true only when, on its last pass,
    the run was not aborted during the sleep and the peer was found
    done with this target: it had pushed "fin", or its polled status
    was in the run's epoch at "fin" or later, or its polled status was
    past "EC namespace" and did not list this target among those it
    waits ACKs from. The manager is then as at the call. When it
    answers false, either the run is aborted or the manager is as at
    the call. *)
Theorem waitFinExtended_outcome
    (self : string) (config : Config) (ver : Z) (sleepRetry : Z)
    (trace : list FinPoll) (m m' : Manager) (b : bool) (n : nat) :
  waitFinExtended_run self config ver sleepRetry trace m = Ret (m', b, n) ->
  (b = true ->
     m' = m /\ exists t, (1 <= n)%nat /\ trace !! (n - 1)%nat = Some t
                /\ fin_or_not_waiting self ver m t)
  /\ (b = false -> xreb_aborted m' = true \/ m' = m).
Proof.
  intros Hrun. unfold waitFinExtended_run in Hrun.
  pose proof (waitFinExtended_loop_inv self ver (CplaneOperation (Timeout config))
                (DestRetryTime (Rebalance config)) sleepRetry trace 0 m 0) as H.
  rewrite Hrun in H. destruct H as (c & Hn & Htrue & Hfalse).
  simpl in Hn. subst c. split; assumption.
Qed.

(** The peer is traversing on the first pass; on the second it is in
    "wait ack", waiting for ACKs from "t1" only, so "t0" is done with
    it. *)
Lemma waitFinExtended_outcome_witness :
  waitFinExtended_run "t0" quiesce_config 7 Second
    [fin_poll_traverse; fin_poll_wack] reb_run10 = Ret (reb_run10, true, 2%nat)
  /\ exists t, [fin_poll_traverse; fin_poll_wack] !! 1%nat = Some t
       /\ fin_or_not_waiting "t0" 7 reb_run10 t.
Proof.
  assert (H : waitFinExtended_run "t0" quiesce_config 7 Second
                [fin_poll_traverse; fin_poll_wack] reb_run10
              = Ret (reb_run10, true, 2%nat)) by (vm_compute; reflexivity).
  split; [exact H|].
  destruct (proj1 (waitFinExtended_outcome _ _ _ _ _ _ _ _ _ H) eq_refl)
    as (_ & t & _ & Hl & Hf).
  exists t. split; [exact Hl | exact Hf].
Defined.

(** X24: while the peer, polled in the run's epoch, is still at a stage
    past "inactive" and not past "EC namespace", [waitFinExtended]
    never times out: the time waited is reset on every pass, so for
    any number of such passes the function is still waiting (given a
    positive [DestRetryTime] and a run that is not aborted). *)
Theorem waitFinExtended_waits_forever
    (self : string) (config : Config) (ver : Z) (sleepRetry : Z)
    (trace : list FinPoll) (m : Manager) :
  0 < DestRetryTime (Rebalance config) -> xreb_aborted m = false ->
  Forall (still_traversing ver m) trace ->
  waitFinExtended_run self config ver sleepRetry trace m = Pending.
Proof.
  intros Hmax Hab Hall. unfold waitFinExtended_run.
  by apply waitFinExtended_loop_forever.
Qed.

(** A thousand passes, far beyond [DestRetryTime], on a peer that is
    still traversing. *)
Lemma waitFinExtended_waits_forever_witness :
  waitFinExtended_run "t0" quiesce_config 7 Second
    (replicate 1000 fin_poll_traverse) reb_run10 = Pending.
Proof.
  apply (waitFinExtended_waits_forever "t0" quiesce_config 7 Second
           (replicate 1000 fin_poll_traverse) reb_run10).
  - vm_compute. reflexivity.
  - reflexivity.
  - apply Forall_forall. intros t Ht. apply elem_of_replicate in Ht as [-> _].
    split; [reflexivity|]. split; [reflexivity|].
    exists status_traverse. split; [reflexivity|].
    split; [reflexivity|]. split; [reflexivity|]. split; [reflexivity|].
    split; [reflexivity|]. vm_compute. split; [reflexivity | discriminate].
Defined.



End MoreWaitTheorems.
